(** * OpenFL coordinator: assigner, straggler policy, aggregator, admin gate

  A shallow embedding of the Python sources

    - openfl/component/assigner/dynamic_random_grouped_assigner.py
    - openfl/component/straggler_handling_functions/cutoff_time_based_straggler_handling.py
    - openfl/component/aggregator/aggregator.py
    - openfl/transport/grpc/aggregator_server.py

  Python objects become records, attribute mutation becomes explicit
  state passing, and a raised exception is an outcome that keeps the
  state reached so far (Python does not roll attributes back). *)

From Stdlib Require Import ZArith QArith Qminmax Floats Lia Lqa OrdersEx.
From stdpp Require Import gmap strings list sorting.


(** ** Python preliminaries *)

Module Py.

Inductive StatusCode : Type := UNAUTHENTICATED | UNAVAILABLE.

(** The exception classes the modelled code can raise.  [GrpcAbort] is
    the exception by which [context.abort] terminates an RPC. *)
Inductive exn : Type :=
| KeyError
| IndexError
| ValueError
| TypeError
| AssertionError
| ZeroDivisionError
| AttributeError
| OverflowError
| GrpcAbort (code : StatusCode).

#[global] Instance StatusCode_eq_dec : EqDecision StatusCode.
Proof. solve_decision. Defined.
#[global] Instance exn_eq_dec : EqDecision exn.
Proof. solve_decision. Defined.

(** Result of running a method on an object of state [S]. *)
Inductive outcome (S A : Type) : Type :=
| Ok (a : A) (s : S)
| Raise (e : exn) (s : S).
Arguments Ok {S A} a s.
Arguments Raise {S A} e s.

Definition state_of {S A} (o : outcome S A) : S :=
  match o with Ok _ s => s | Raise _ s => s end.

Definition py (S A : Type) : Type := S -> outcome S A.

Definition ret {S A} (a : A) : py S A := fun s => Ok a s.
Definition raise {S A} (e : exn) : py S A := fun s => Raise e s.
Definition bind {S A B} (m : py S A) (k : A -> py S B) : py S B :=
  fun s => match m s with
           | Ok a s' => k a s'
           | Raise e s' => Raise e s'
           end.
Definition gets {S A} (f : S -> A) : py S A := fun s => Ok (f s) s.
Definition modify {S} (f : S -> S) : py S unit := fun s => Ok tt (f s).
(** An expression that either evaluates or raises, without touching
    the object. *)
Definition lift {S A} (r : exn + A) : py S A :=
  fun s => match r with inl e => Raise e s | inr a => Ok a s end.
(** [assert c]. *)
Definition assert {S} (c : bool) : py S unit :=
  if c then ret tt else raise AssertionError.
(** Run a method of a sub-object stored in an attribute. *)
Definition zoom {S T A} (get : S -> T) (set : T -> S -> S) (m : py T A)
  : py S A :=
  fun s => match m (get s) with
           | Ok a t' => Ok a (set t' s)
           | Raise e t' => Raise e (set t' s)
           end.

Declare Scope py_scope.
Delimit Scope py_scope with py.
Notation "x <- m ;; k" := (bind m (fun x => k))
  (at level 100, m at next level, right associativity) : py_scope.
Notation "m ;; k" := (bind m (fun _ => k))
  (at level 100, right associativity) : py_scope.
Open Scope py_scope.

(** [for x in l: body x] *)
Fixpoint for_ {S X} (l : list X) (body : X -> py S unit) : py S unit :=
  match l with
  | [] => ret tt
  | x :: l' => body x ;; for_ l' body
  end.

(** A [for] loop that threads a local variable. *)
Fixpoint fold_ {S X B} (l : list X) (acc : B) (body : B -> X -> py S B)
  : py S B :=
  match l with
  | [] => ret acc
  | x :: l' => acc' <- body acc x ;; fold_ l' acc' body
  end.

(** [range(a, b)] *)
Definition range (a b : nat) : list nat := seq a (b - a).

(** [d[k]] on a dict, as an expression. *)
Definition getitem `{Countable K} {V} (d : gmap K V) (k : K) : exn + V :=
  match d !! k with Some v => inr v | None => inl KeyError end.

(** [l[i]] on a list with a non-negative index. *)
Definition index {A} (l : list A) (i : nat) : exn + A :=
  match l !! i with Some v => inr v | None => inl IndexError end.

(** A list comprehension whose element expression may raise. *)
Fixpoint traverse {A B} (f : A -> exn + B) (l : list A) : exn + list B :=
  match l with
  | [] => inr []
  | x :: l' =>
      match f x with
      | inl e => inl e
      | inr y => match traverse f l' with
                 | inl e => inl e
                 | inr ys => inr (y :: ys)
                 end
      end
  end.

(** [l[i:j]] with Python's treatment of negative and out-of-range
    bounds (step 1). *)
Definition clamp_bound (len k : Z) : Z :=
  if (k <? 0)%Z then Z.max 0 (k + len) else Z.min k len.
Definition slice {A} (l : list A) (i j : Z) : list A :=
  let len := Z.of_nat (length l) in
  let i' := clamp_bound len i in
  let j' := clamp_bound len j in
  take (Z.to_nat (j' - i')) (drop (Z.to_nat i') l).

(** [int(x)] on a float: truncation toward zero; NaN and the
    infinities raise. *)
Definition int_of_float (f : float) : exn + Z :=
  match Prim2SF f with
  | S754_zero _ => inr 0%Z
  | S754_finite sgn m e =>
      let mag := match e with
                 | Z0 => Zpos m
                 | Zpos p => (Zpos m * 2 ^ Zpos p)%Z
                 | Zneg p => (Zpos m / 2 ^ Zpos p)%Z
                 end in
      inr (if sgn then (- mag)%Z else mag)
  | S754_infinity _ => inl OverflowError
  | S754_nan => inl ValueError
  end.

(** The float a list length is converted to in [float * int]. *)
Definition float_of_nat (n : nat) : float :=
  PrimFloat.of_uint63 (Uint63.of_Z (Z.of_nat n)).

(** The float an [int] is converted to, exact below [2^53]. *)
Definition float_of_Z (z : Z) : float :=
  match z with
  | Z0 => 0%float
  | Zpos _ => PrimFloat.of_uint63 (Uint63.of_Z z)
  | Zneg p => PrimFloat.opp (PrimFloat.of_uint63 (Uint63.of_Z (Zpos p)))
  end.

(** [l.remove(x)]: drop the first element equal to [x]; [ValueError]
    when there is none. *)
Fixpoint list_remove `{EqDecision A} (x : A) (l : list A) : exn + list A :=
  match l with
  | [] => inl ValueError
  | y :: l' =>
      if decide (y = x) then inr l'
      else match list_remove x l' with
           | inl e => inl e
           | inr r => inr (y :: r)
           end
  end.

(** [sorted(l)] on a list of strings.  Python compares strings
    lexicographically by code point; any sorting algorithm returns the
    same list because the order is total and antisymmetric. *)
Definition str_le (a b : string) : Prop := String.leb a b = true.
#[global] Instance str_le_dec a b : Decision (str_le a b).
Proof. unfold str_le. apply _. Defined.
Definition sorted (l : list string) : list string := merge_sort str_le l.

(** *** A small program logic for [py] *)

(** [wp m Q E s]: run from [s], the method [m] either returns [a] in a
    state satisfying [Q a] or raises [e] in a state satisfying [E e]. *)
Definition wp {S A} (m : py S A) (Q : A -> S -> Prop)
    (E : exn -> S -> Prop) (s : S) : Prop :=
  match m s with
  | Ok a s' => Q a s'
  | Raise e s' => E e s'
  end.

(** [preserves R m]: whatever [m] does, returning or raising, the state
    it leaves is [R]-related to the state it started from. *)
Definition preserves {S A} (R : S -> S -> Prop) (m : py S A) : Prop :=
  forall s, R s (state_of (m s)).

End Py.
Import Py.

(** ** The dynamic random grouped assigner
    (component/assigner/dynamic_random_grouped_assigner.py) *)

Module Assigner.

(** One entry of the [task_groups] plan setting. *)
Record TaskGroup : Type := {
  name : string;
  percentage : float;
  tasks : list string;
}.

(** The attributes of a [DynamicRandomGroupedAssigner].  The two
    nested dictionaries are keyed first by collaborator (resp. task)
    and then by round number. *)
Record t : Type := {
  task_groups : list TaskGroup;
  authorized_cols : list string;
  rounds : nat;
  all_tasks_in_groups : list string;
  task_group_collaborators : gmap string (list string);
  collaborators_for_task : gmap string (gmap nat (list string));
  collaborator_tasks : gmap string (gmap nat (list string));
  collaborators_to_assign : list string;
}.

Definition set_all_tasks_in_groups (v : list string) (a : t) : t :=
  let 'Build_t x1 x2 x3 _ x5 x6 x7 x8 := a in Build_t x1 x2 x3 v x5 x6 x7 x8.
Definition set_task_group_collaborators (v : gmap string (list string)) (a : t) : t :=
  let 'Build_t x1 x2 x3 x4 _ x6 x7 x8 := a in Build_t x1 x2 x3 x4 v x6 x7 x8.
Definition set_collaborators_for_task (v : gmap string (gmap nat (list string))) (a : t) : t :=
  let 'Build_t x1 x2 x3 x4 x5 _ x7 x8 := a in Build_t x1 x2 x3 x4 x5 v x7 x8.
Definition set_collaborator_tasks (v : gmap string (gmap nat (list string))) (a : t) : t :=
  let 'Build_t x1 x2 x3 x4 x5 x6 _ x8 := a in Build_t x1 x2 x3 x4 x5 x6 v x8.
Definition set_collaborators_to_assign (v : list string) (a : t) : t :=
  let 'Build_t x1 x2 x3 x4 x5 x6 x7 _ := a in Build_t x1 x2 x3 x4 x5 x6 x7 v.

(** [{i: [] for i in range(self.rounds)}] *)
Definition empty_rounds (n : nat) : gmap nat (list string) :=
  list_to_map ((fun i => (i, [])) <$> range 0 n).

(** [np.sum] of the percentages: a left-to-right float sum (what NumPy
    does below its pairwise-summation block size of eight). *)
Definition np_sum (l : list float) : float :=
  foldl PrimFloat.add 0%float l.

(** [define_task_assignments], called by the base-class constructor. *)
Definition define_task_assignments : py t unit :=
  groups <- gets task_groups ;;
  assert (PrimFloat.ltb
            (PrimFloat.abs (PrimFloat.sub 1%float (np_sum (percentage <$> groups))))
            0x1.47ae147ae147bp-7%float) ;;   (* 0.01 *)
  (* list({task for group in task_groups for task in group['tasks']}):
     the iteration order of a set of strings is not specified *)
  modify (set_all_tasks_in_groups (remove_dups (concat (tasks <$> groups)))) ;;
  all_tasks <- gets all_tasks_in_groups ;;
  n <- gets rounds ;;
  for_ all_tasks (fun task =>
    modify (fun a => set_collaborators_for_task
                       (<[task := empty_rounds n]> (collaborators_for_task a)) a)) ;;
  cols <- gets authorized_cols ;;
  for_ cols (fun col =>
    modify (fun a => set_collaborator_tasks
                       (<[col := empty_rounds n]> (collaborator_tasks a)) a)).

(** [self.collaborator_tasks[col][i] = v] *)
Definition store_collaborator_tasks (col : string) (i : nat) (v : list string)
  : py t unit :=
  d <- gets collaborator_tasks ;;
  inner <- lift (getitem d col) ;;
  modify (set_collaborator_tasks (<[col := <[i := v]> inner]> d)).

(** [self.collaborators_for_task[task][round_num] = v] *)
Definition store_collaborators_for_task (task : string) (round_num : nat)
    (v : list string) : py t unit :=
  d <- gets collaborators_for_task ;;
  inner <- lift (getitem d task) ;;
  modify (set_collaborators_for_task (<[task := <[round_num := v]> inner]> d)).

(** [self.collaborators_for_task[task][round_num] += v] *)
Definition extend_collaborators_for_task (task : string) (round_num : nat)
    (v : list string) : py t unit :=
  d <- gets collaborators_for_task ;;
  inner <- lift (getitem d task) ;;
  old <- lift (getitem inner round_num) ;;
  modify (set_collaborators_for_task (<[task := <[round_num := old ++ v]> inner]> d)).

(** [int(group['percentage'] * col_list_size)] *)
Definition num_col_in_group (group : TaskGroup) (col_list_size : nat) : exn + Z :=
  int_of_float (PrimFloat.mul (percentage group) (float_of_nat col_list_size)).

(** The body of [for group in self.task_groups], with the local
    variable [col_idx] threaded through. *)
Definition assign_group (round_num col_list_size : nat)
    (randomized_col_idx : list nat) (col_idx : Z) (group : TaskGroup) : py t Z :=
  num <- lift (num_col_in_group group col_list_size) ;;
  cta <- gets collaborators_to_assign ;;
  rand_col_group_list <-
    lift (traverse (index cta) (slice randomized_col_idx col_idx (col_idx + num))) ;;
  modify (fun a => set_task_group_collaborators
                     (<[name group := rand_col_group_list]> (task_group_collaborators a)) a) ;;
  for_ rand_col_group_list (fun col =>
    store_collaborator_tasks col round_num (tasks group)) ;;
  for_ (tasks group) (fun task =>
    extend_collaborators_for_task task round_num rand_col_group_list) ;;
  ret (col_idx + num)%Z.

(** The body of the last [for round_num in range(from_round, self.rounds)].
    [randomized_col_idx] is the outcome of
    [np.random.choice(n, n, replace=False)] for this round. *)
Definition assign_round (col_list_size : nat) (rng : nat -> list nat)
    (round_num : nat) : py t unit :=
  groups <- gets task_groups ;;
  col_idx <- fold_ groups 0%Z (assign_group round_num col_list_size (rng round_num)) ;;
  assert (bool_decide (col_idx = Z.of_nat col_list_size)).

(** [assign_tasks(from_round)].  [rng r] is the permutation drawn for
    round [r]. *)
Definition assign_tasks (from_round : nat) (rng : nat -> list nat) : py t unit :=
  cols <- gets authorized_cols ;;
  n <- gets rounds ;;
  for_ cols (fun col =>
    cta <- gets collaborators_to_assign ;;
    if bool_decide (col ∈ cta) then ret tt
    else for_ (range from_round n) (fun i => store_collaborator_tasks col i [])) ;;
  all_tasks <- gets all_tasks_in_groups ;;
  for_ all_tasks (fun task =>
    for_ (range from_round n) (fun round_num =>
      store_collaborators_for_task task round_num [])) ;;
  col_list_size <- gets (fun a => length (collaborators_to_assign a)) ;;
  for_ (range from_round n) (assign_round col_list_size rng).

(** [end_of_round(available_collaborators, stragglers, next_round)] *)
Definition end_of_round (available_collaborators stragglers : list string)
    (next_round : nat) (rng : nat -> list nat) : py t unit :=
  let collaborators_to_assign' :=
    filter (fun col => col ∉ stragglers) available_collaborators in
  current <- gets collaborators_to_assign ;;
  if bool_decide (sorted collaborators_to_assign' = sorted current) then ret tt
  else
    modify (set_collaborators_to_assign collaborators_to_assign') ;;
    assign_tasks next_round rng.

Definition get_tasks_for_collaborator (collaborator_name : string)
    (round_number : nat) (a : t) : exn + list string :=
  match getitem (collaborator_tasks a) collaborator_name with
  | inl e => inl e
  | inr inner => getitem inner round_number
  end.

Definition get_collaborators_for_task (task_name : string)
    (round_number : nat) (a : t) : exn + list string :=
  match getitem (collaborators_for_task a) task_name with
  | inl e => inl e
  | inr inner => getitem inner round_number
  end.

Definition get_assigned_collaborators (a : t) : list string :=
  collaborators_to_assign a.

(** [__init__]: the base-class constructor stores the plan settings,
    starts from empty dictionaries and calls [define_task_assignments];
    the subclass then assigns to all authorized collaborators from
    round 0. *)
Definition init (groups : list TaskGroup) (cols : list string) (n : nat)
    (rng : nat -> list nat) : outcome t unit :=
  (define_task_assignments ;;
   cols' <- gets authorized_cols ;;
   modify (set_collaborators_to_assign cols') ;;
   assign_tasks 0 rng)
    {| task_groups := groups; authorized_cols := cols; rounds := n;
       all_tasks_in_groups := []; task_group_collaborators := ∅;
       collaborators_for_task := ∅; collaborator_tasks := ∅;
       collaborators_to_assign := [] |}.

End Assigner.

(** ** The cutoff-time straggler policy
    (component/straggler_handling_functions/cutoff_time_based_straggler_handling.py) *)

Module Cutoff.

(** A number of seconds as the plan, the admin or the clock supplies
    it: a finite value or [np.inf]. *)
Inductive seconds : Type :=
| Finite (q : Q)
| Inf.

Definition MINIMUM_CUTOFF_SECONDS : Q := 20.

(** [a > b] on finite values. *)
Definition Qgtb (a b : Q) : bool :=
  if Qlt_le_dec b a then true else false.

(** [a > b] on [seconds]. *)
Definition gtb (a b : seconds) : bool :=
  match a, b with
  | Finite x, Finite y => Qgtb x y
  | Finite _, Inf => false
  | Inf, Finite _ => true
  | Inf, Inf => false
  end.

(** [max(a, b)]: Python keeps the first argument unless the second
    compares greater. *)
Definition max (a b : seconds) : seconds :=
  if gtb b a then b else a.

(** [a - b] with a finite [b]. *)
Definition sub (a : seconds) (b : Q) : seconds :=
  match a with
  | Finite x => Finite (x - b)
  | Inf => Inf
  end.

Definition is_inf (a : seconds) : bool :=
  match a with Inf => true | Finite _ => false end.

Section WithCallback.

(** The type of the callables handed to [start_policy]. *)
Context {C : Type}.

(** The attributes of a [CutoffTimeBasedStragglerHandling].  [timer]
    and [callback] are attributes that exist only once they have been
    assigned ([hasattr]); a pending [threading.Timer] is recorded by its
    interval and function. *)
Record t : Type := {
  round_start_time : option Q;
  straggler_cutoff_time : seconds;
  minimum_reporting : Z;
  timer : option (seconds * C);
  callback : option C;
}.

Definition set_round_start_time (v : option Q) (p : t) : t :=
  let 'Build_t _ x2 x3 x4 x5 := p in Build_t v x2 x3 x4 x5.
Definition set_straggler_cutoff_time_attr (v : seconds) (p : t) : t :=
  let 'Build_t x1 _ x3 x4 x5 := p in Build_t x1 v x3 x4 x5.
Definition set_timer (v : option (seconds * C)) (p : t) : t :=
  let 'Build_t x1 x2 x3 _ x5 := p in Build_t x1 x2 x3 v x5.
Definition set_callback (v : option C) (p : t) : t :=
  let 'Build_t x1 x2 x3 x4 _ := p in Build_t x1 x2 x3 x4 v.

(** [_set_cutoff_time] *)
Definition _set_cutoff_time (straggler_cutoff_time' : seconds) : py t unit :=
  modify (set_straggler_cutoff_time_attr
            (max straggler_cutoff_time' (Finite MINIMUM_CUTOFF_SECONDS))).

(** [__init__(round_start_time, straggler_cutoff_time, minimum_reporting)];
    the defaults are [None], [np.inf] and [1]. *)
Definition init (round_start_time' : option Q) (straggler_cutoff_time' : seconds)
    (minimum_reporting' : Z) : exn + t :=
  if (minimum_reporting' <=? 0)%Z then inl ValueError
  else inr {| round_start_time := round_start_time';
              straggler_cutoff_time :=
                max straggler_cutoff_time' (Finite MINIMUM_CUTOFF_SECONDS);
              minimum_reporting := minimum_reporting';
              timer := None;
              callback := None |}.

(** [reset_policy_for_round]: cancel and delete the timer if there is one. *)
Definition reset_policy_for_round : py t unit :=
  modify (set_timer None).

(** [start_policy(callback)] when the clock reads [now]. *)
Definition start_policy (now : Q) (cb : C) : py t unit :=
  cutoff <- gets straggler_cutoff_time ;;
  if is_inf cutoff then ret tt
  else
    reset_policy_for_round ;;
    modify (set_round_start_time (Some now)) ;;
    modify (set_timer (Some (cutoff, cb))) ;;
    modify (set_callback (Some cb)).

(** [__straggler_time_expired] when the clock reads [now]. *)
Definition __straggler_time_expired (now : Q) (p : t) : bool :=
  match round_start_time p with
  | None => false
  | Some start => gtb (Finite (now - start)) (straggler_cutoff_time p)
  end.

(** [__minimum_collaborators_reported] *)
Definition __minimum_collaborators_reported (num_collaborators_done : nat)
    (p : t) : bool :=
  (minimum_reporting p <=? Z.of_nat num_collaborators_done)%Z.

(** [straggler_cutoff_check(num_collaborators_done, num_all_collaborators)] *)
Definition straggler_cutoff_check (now : Q)
    (num_collaborators_done num_all_collaborators : nat) (p : t) : bool :=
  if negb (__straggler_time_expired now p) then false
  else if __minimum_collaborators_reported num_collaborators_done p then true
  else false.

(** [set_straggler_cutoff_time(straggler_cutoff_time)].  The method
    ends either by calling [self.callback()] or by arming a new timer;
    the call, being its last action, is handed back to the caller as
    [Some callback].  The two successive clock reads of the source are
    one [now] here. *)
Definition set_straggler_cutoff_time (now : Q) (straggler_cutoff_time' : seconds)
  : py t (option C) :=
  reset_policy_for_round ;;
  _set_cutoff_time straggler_cutoff_time' ;;
  expired <- gets (__straggler_time_expired now) ;;
  if expired then
    cb <- gets callback ;;
    match cb with
    | None => raise AttributeError
    | Some f => ret (Some f)
    end
  else
    start <- gets round_start_time ;;
    match start with
    | None => raise TypeError
    | Some start =>
        cutoff <- gets straggler_cutoff_time ;;
        cb <- gets callback ;;
        match cb with
        | None => raise AttributeError
        | Some f =>
            modify (set_timer (Some (sub cutoff (now - start), f))) ;;
            ret None
        end
    end.

End WithCallback.
Arguments t C : clear implicits.

End Cutoff.

(** ** Key types (utilities/types.py) *)

Module Types.

(** [TensorKey = namedtuple('TensorKey', [...])] *)
Record TensorKey : Type := {
  tensor_name : string;
  origin : string;
  round_number : nat;
  report : bool;
  tags : list string;
}.

(** [TaskResultKey = namedtuple('TaskResultKey',
    ['task_name', 'owner', 'round_number'])]: a plain triple, used as a
    dictionary key. *)
Abbreviation TaskResultKey := (string * string * nat)%type.
Definition mkTaskResultKey (task_name owner : string) (round_number : nat)
  : TaskResultKey := (task_name, owner, round_number).

(** [tensorkey_for_dynamic_task_arg(task_name, arg_name, round_number,
    agg_id)] *)
Definition tensorkey_for_dynamic_task_arg (task_name arg_name : string)
    (round_number' : nat) (agg_id : string) : TensorKey :=
  {| tensor_name := "dynamictaskarg/" +:+ task_name +:+ "/" +:+ arg_name;
     origin := agg_id;
     round_number := round_number';
     report := false;
     tags := ["dynamictaskarg"; task_name; arg_name] |}.

(** [arg_name_from_dynamic_task_arg_tensor_key(tk)]: [tk.tags[2]] *)
Definition arg_name_from_dynamic_task_arg_tensor_key (tk : TensorKey)
  : exn + string :=
  index (tags tk) 2.

End Types.

(** ** Singleton classes (utilities/types.py)

    [SingletonABCMeta] keeps, in the class-level dictionary
    [_instances], the one instance of every class it has built. *)

Module Singleton.

Section WithClasses.

(** The classes with this metaclass, what their constructors are
    called with, and their instances. *)
Context {Cls : Type} `{Countable Cls} {Args Inst : Type}.

(** [super().__call__(...)] with the call's arguments: the ordinary construction of
    an instance, which may raise. *)
Variable construct : Cls -> Args -> exn + Inst.

(** [SingletonABCMeta.__call__], given the class and the arguments, on the state
    [_instances]. *)
Definition __call__ (cls : Cls) (args : Args) : py (gmap Cls Inst) Inst :=
  instances <- gets id ;;
  (if bool_decide (is_Some (instances !! cls)) then ret tt
   else
     inst <- lift (construct cls args) ;;
     modify (insert cls inst)) ;;
  instances <- gets id ;;
  lift (getitem instances cls).

End WithClasses.

End Singleton.

(** ** What the aggregator asks of its collaborators-in-code

    The aggregator is written against three families of objects whose
    classes are chosen by the plan: a task assigner, a straggler
    handling policy, and the tensor machinery (TensorDB, TensorCodec,
    the protobuf helpers).  Each is an interface here. *)

Module AssignerI.

(** A task as the assigner hands it out: a bare name (the
    backward-compatible form) or an object with a [name] attribute. *)
Inductive Task : Type :=
| TaskName (s : string)
| TaskObj (name function_name task_type : string) (apply_local : bool).

(** The methods of an assigner that the aggregator calls. [AggT] is
    what [get_aggregation_type_for_task] returns. *)
Class Ops (A AggT : Type) : Type := {
  get_tasks_for_collaborator : string -> nat -> A -> exn + list Task;
  get_collaborators_for_task : string -> nat -> A -> exn + list string;
  get_all_tasks_for_round : nat -> A -> exn + list string;
  get_aggregation_type_for_task : string -> A -> exn + AggT;
  get_assigned_collaborators : A -> list string;
  end_of_round : list string -> list string -> nat -> py A unit;
  add_collaborator : string -> string -> py A unit;
  remove_collaborator : string -> string -> py A unit;
}.

End AssignerI.

Module PolicyI.

(** The methods and attributes of a straggler handling policy that the
    aggregator uses.  The callback given to [start_policy] is always the
    aggregator's [_straggler_cutoff_time_elapsed]; a policy that wants
    it run at the end of [set_straggler_cutoff_time] returns [true].
    [straggler_cutoff_time] and [set_straggler_cutoff_time] are [None]
    for a policy class without that attribute ([hasattr]). *)
Class Ops (P : Type) : Type := {
  start_policy : Q -> py P unit;
  reset_policy_for_round : py P unit;
  straggler_cutoff_check : Q -> nat -> nat -> P -> bool;
  straggler_cutoff_time : P -> option Cutoff.seconds;
  set_straggler_cutoff_time : option (Q -> Cutoff.seconds -> py P bool);
}.

(** The cutoff-time policy as an instance; its callback type is [unit]
    because the aggregator only ever registers one callable. *)
#[global] Instance cutoff_ops : Ops (Cutoff.t unit) := {|
  start_policy now := Cutoff.start_policy now tt;
  reset_policy_for_round := Cutoff.reset_policy_for_round;
  straggler_cutoff_check := Cutoff.straggler_cutoff_check;
  straggler_cutoff_time p := Some (Cutoff.straggler_cutoff_time p);
  set_straggler_cutoff_time :=
    Some (fun now v =>
            r <- Cutoff.set_straggler_cutoff_time now v ;;
            ret (bool_decide (r = Some tt)));
|}.

End PolicyI.

Module TensorI.

(** [WeightedAverage()] or the task's declared aggregation function. *)
Inductive agg_function (AggT : Type) : Type :=
| WeightedAverage
| TaskAggregation (f : AggT).
Arguments WeightedAverage {AggT}.
Arguments TaskAggregation {AggT} f.

Inductive state_path : Type := best_state_path | last_state_path.

(** [Store] gathers what only the tensor machinery reads and writes:
    [tensor_db], [model], [best_tensor_dict], [last_tensor_dict],
    [dynamictaskargs], [db_store_rounds] and the checkpoint files.  [V]
    is a NumPy array, [NT] a NamedTensor protobuf.  The aggregator
    methods that are made only of calls into TensorDB, TensorCodec and
    the protobuf helpers are operations on the store. *)
Class Ops (Store V NT AggT : Type) : Type := {
  _process_named_tensor : NT -> string -> py Store (Types.TensorKey * V);
  _prepare_trained : string -> string -> nat -> bool -> option V -> py Store unit;
  _save_model : nat -> state_path -> py Store unit;
  _write_dynamic_task_args : nat -> py Store unit;
  get_aggregated_tensor_from_store :
    string -> string -> nat -> bool -> list string -> bool -> Store -> exn + NT;
  tensor_db_get_aggregated_tensor :
    Types.TensorKey -> gmap string float -> agg_function AggT -> py Store (option V);
  tensor_db_clean_up : py Store unit;
  (* change_tags(tags, remove_field=...) from openfl.utilities *)
  change_tags_remove : list string -> string -> exn + list string;
  (* float(value) *)
  to_float : V -> exn + float;
  (* best_model_score < agg_results *)
  score_lt : V -> V -> exn + bool;
}.

End TensorI.

(** ** The aggregator (component/aggregator/aggregator.py) *)

Module Aggregator.

(** The metric record put on [metric_queue]. *)
Record Metric : Type := {
  metric_round : nat;
  metric_origin : string;
  metric_task_name : string;
  metric_name : string;
  metric_value : float;
}.

(** The dictionary built by [_get_round_status]. *)
Record RoundStatus : Type := {
  status_round : nat;
  status_round_start : option Q;
  status_collaborators : list string;
  status_start_times : gmap string Q;
  status_end_times : gmap string (gmap string Q);
  status_stragglers : list string;
  status_to_add_next_round : list (string * string);
  status_to_remove_next_round : list (string * string);
  status_available_collaborators : list string;
  status_assigned_collaborators : list string;
}.

(** A value that may sit in, or be compared with, an element of the
    pending-change queues: a string or a 2-tuple of strings.  Python's
    [==] between a [str] and a [tuple] is [False]. *)
Inductive pyval : Type :=
| PStr (s : string)
| PTuple (a b : string).

#[global] Instance pyval_eq_dec : EqDecision pyval.
Proof. solve_decision. Defined.

(** [queue.remove(x)] on a list of [(label, cn)] tuples. *)
Fixpoint queue_remove (x : pyval) (queue : list (string * string))
  : exn + list (string * string) :=
  match queue with
  | [] => inl ValueError
  | e :: queue' =>
      if decide (PTuple e.1 e.2 = x) then inr queue'
      else match queue_remove x queue' with
           | inl err => inl err
           | inr r => inr (e :: r)
           end
  end.

(** [x in queue] *)
Definition queue_contains (x : pyval) (queue : list (string * string)) : bool :=
  existsb (fun e => bool_decide (PTuple e.1 e.2 = x)) queue.

Section WithPlan.

Context {A P Store V NT AggT : Type}.
Context `{!AssignerI.Ops A AggT, !PolicyI.Ops P, !TensorI.Ops Store V NT AggT}.

(** The attributes of an [Aggregator] (those of the tensor machinery
    are in [store]). *)
Record t : Type := {
  round_number : nat;
  rounds_to_train : nat;
  _end_of_round_check_done : list bool;
  straggler_handling_policy_started_for_round : bool;
  stragglers : list string;
  available_collaborators : list string;
  authorized_cols : list string;
  assigner : A;
  quit_job_sent_to : list string;
  store : Store;
  straggler_handling_policy : P;
  best_model_score : option V;
  metric_queue : list Metric;
  collaborator_tasks_results : gmap Types.TaskResultKey (list Types.TensorKey);
  collaborator_task_weight : gmap Types.TaskResultKey Z;
  collaborators_done : list string;
  collaborator_start_time : gmap string Q;
  collaborator_end_time : gmap string (gmap string Q);
  previous_round_status : option RoundStatus;
  first_col_start : option Q;
  admins_endpoints_mapping : gmap string (list string);
  collaborators_to_add : list (string * string);
  collaborators_to_remove : list (string * string);
}.

Definition set_round_number (v : nat) (s : t) : t :=
  let 'Build_t _ x2 x3 x4 x5 x6 x7 x8 x9 x10 x11 x12 x13 x14 x15 x16 x17 x18 x19 x20 x21 x22 x23 := s in
  Build_t v x2 x3 x4 x5 x6 x7 x8 x9 x10 x11 x12 x13 x14 x15 x16 x17 x18 x19 x20 x21 x22 x23.
Definition set__end_of_round_check_done (v : list bool) (s : t) : t :=
  let 'Build_t x1 x2 _ x4 x5 x6 x7 x8 x9 x10 x11 x12 x13 x14 x15 x16 x17 x18 x19 x20 x21 x22 x23 := s in
  Build_t x1 x2 v x4 x5 x6 x7 x8 x9 x10 x11 x12 x13 x14 x15 x16 x17 x18 x19 x20 x21 x22 x23.
Definition set_straggler_handling_policy_started_for_round (v : bool) (s : t) : t :=
  let 'Build_t x1 x2 x3 _ x5 x6 x7 x8 x9 x10 x11 x12 x13 x14 x15 x16 x17 x18 x19 x20 x21 x22 x23 := s in
  Build_t x1 x2 x3 v x5 x6 x7 x8 x9 x10 x11 x12 x13 x14 x15 x16 x17 x18 x19 x20 x21 x22 x23.
Definition set_stragglers (v : list string) (s : t) : t :=
  let 'Build_t x1 x2 x3 x4 _ x6 x7 x8 x9 x10 x11 x12 x13 x14 x15 x16 x17 x18 x19 x20 x21 x22 x23 := s in
  Build_t x1 x2 x3 x4 v x6 x7 x8 x9 x10 x11 x12 x13 x14 x15 x16 x17 x18 x19 x20 x21 x22 x23.
Definition set_available_collaborators (v : list string) (s : t) : t :=
  let 'Build_t x1 x2 x3 x4 x5 _ x7 x8 x9 x10 x11 x12 x13 x14 x15 x16 x17 x18 x19 x20 x21 x22 x23 := s in
  Build_t x1 x2 x3 x4 x5 v x7 x8 x9 x10 x11 x12 x13 x14 x15 x16 x17 x18 x19 x20 x21 x22 x23.
Definition set_authorized_cols (v : list string) (s : t) : t :=
  let 'Build_t x1 x2 x3 x4 x5 x6 _ x8 x9 x10 x11 x12 x13 x14 x15 x16 x17 x18 x19 x20 x21 x22 x23 := s in
  Build_t x1 x2 x3 x4 x5 x6 v x8 x9 x10 x11 x12 x13 x14 x15 x16 x17 x18 x19 x20 x21 x22 x23.
Definition set_assigner (v : A) (s : t) : t :=
  let 'Build_t x1 x2 x3 x4 x5 x6 x7 _ x9 x10 x11 x12 x13 x14 x15 x16 x17 x18 x19 x20 x21 x22 x23 := s in
  Build_t x1 x2 x3 x4 x5 x6 x7 v x9 x10 x11 x12 x13 x14 x15 x16 x17 x18 x19 x20 x21 x22 x23.
Definition set_quit_job_sent_to (v : list string) (s : t) : t :=
  let 'Build_t x1 x2 x3 x4 x5 x6 x7 x8 _ x10 x11 x12 x13 x14 x15 x16 x17 x18 x19 x20 x21 x22 x23 := s in
  Build_t x1 x2 x3 x4 x5 x6 x7 x8 v x10 x11 x12 x13 x14 x15 x16 x17 x18 x19 x20 x21 x22 x23.
Definition set_store (v : Store) (s : t) : t :=
  let 'Build_t x1 x2 x3 x4 x5 x6 x7 x8 x9 _ x11 x12 x13 x14 x15 x16 x17 x18 x19 x20 x21 x22 x23 := s in
  Build_t x1 x2 x3 x4 x5 x6 x7 x8 x9 v x11 x12 x13 x14 x15 x16 x17 x18 x19 x20 x21 x22 x23.
Definition set_straggler_handling_policy (v : P) (s : t) : t :=
  let 'Build_t x1 x2 x3 x4 x5 x6 x7 x8 x9 x10 _ x12 x13 x14 x15 x16 x17 x18 x19 x20 x21 x22 x23 := s in
  Build_t x1 x2 x3 x4 x5 x6 x7 x8 x9 x10 v x12 x13 x14 x15 x16 x17 x18 x19 x20 x21 x22 x23.
Definition set_best_model_score (v : option V) (s : t) : t :=
  let 'Build_t x1 x2 x3 x4 x5 x6 x7 x8 x9 x10 x11 _ x13 x14 x15 x16 x17 x18 x19 x20 x21 x22 x23 := s in
  Build_t x1 x2 x3 x4 x5 x6 x7 x8 x9 x10 x11 v x13 x14 x15 x16 x17 x18 x19 x20 x21 x22 x23.
Definition set_metric_queue (v : list Metric) (s : t) : t :=
  let 'Build_t x1 x2 x3 x4 x5 x6 x7 x8 x9 x10 x11 x12 _ x14 x15 x16 x17 x18 x19 x20 x21 x22 x23 := s in
  Build_t x1 x2 x3 x4 x5 x6 x7 x8 x9 x10 x11 x12 v x14 x15 x16 x17 x18 x19 x20 x21 x22 x23.
Definition set_collaborator_tasks_results
    (v : gmap Types.TaskResultKey (list Types.TensorKey)) (s : t) : t :=
  let 'Build_t x1 x2 x3 x4 x5 x6 x7 x8 x9 x10 x11 x12 x13 _ x15 x16 x17 x18 x19 x20 x21 x22 x23 := s in
  Build_t x1 x2 x3 x4 x5 x6 x7 x8 x9 x10 x11 x12 x13 v x15 x16 x17 x18 x19 x20 x21 x22 x23.
Definition set_collaborator_task_weight (v : gmap Types.TaskResultKey Z) (s : t) : t :=
  let 'Build_t x1 x2 x3 x4 x5 x6 x7 x8 x9 x10 x11 x12 x13 x14 _ x16 x17 x18 x19 x20 x21 x22 x23 := s in
  Build_t x1 x2 x3 x4 x5 x6 x7 x8 x9 x10 x11 x12 x13 x14 v x16 x17 x18 x19 x20 x21 x22 x23.
Definition set_collaborators_done (v : list string) (s : t) : t :=
  let 'Build_t x1 x2 x3 x4 x5 x6 x7 x8 x9 x10 x11 x12 x13 x14 x15 _ x17 x18 x19 x20 x21 x22 x23 := s in
  Build_t x1 x2 x3 x4 x5 x6 x7 x8 x9 x10 x11 x12 x13 x14 x15 v x17 x18 x19 x20 x21 x22 x23.
Definition set_collaborator_start_time (v : gmap string Q) (s : t) : t :=
  let 'Build_t x1 x2 x3 x4 x5 x6 x7 x8 x9 x10 x11 x12 x13 x14 x15 x16 _ x18 x19 x20 x21 x22 x23 := s in
  Build_t x1 x2 x3 x4 x5 x6 x7 x8 x9 x10 x11 x12 x13 x14 x15 x16 v x18 x19 x20 x21 x22 x23.
Definition set_collaborator_end_time (v : gmap string (gmap string Q)) (s : t) : t :=
  let 'Build_t x1 x2 x3 x4 x5 x6 x7 x8 x9 x10 x11 x12 x13 x14 x15 x16 x17 _ x19 x20 x21 x22 x23 := s in
  Build_t x1 x2 x3 x4 x5 x6 x7 x8 x9 x10 x11 x12 x13 x14 x15 x16 x17 v x19 x20 x21 x22 x23.
Definition set_previous_round_status (v : option RoundStatus) (s : t) : t :=
  let 'Build_t x1 x2 x3 x4 x5 x6 x7 x8 x9 x10 x11 x12 x13 x14 x15 x16 x17 x18 _ x20 x21 x22 x23 := s in
  Build_t x1 x2 x3 x4 x5 x6 x7 x8 x9 x10 x11 x12 x13 x14 x15 x16 x17 x18 v x20 x21 x22 x23.
Definition set_first_col_start (v : option Q) (s : t) : t :=
  let 'Build_t x1 x2 x3 x4 x5 x6 x7 x8 x9 x10 x11 x12 x13 x14 x15 x16 x17 x18 x19 _ x21 x22 x23 := s in
  Build_t x1 x2 x3 x4 x5 x6 x7 x8 x9 x10 x11 x12 x13 x14 x15 x16 x17 x18 x19 v x21 x22 x23.
Definition set_collaborators_to_add (v : list (string * string)) (s : t) : t :=
  let 'Build_t x1 x2 x3 x4 x5 x6 x7 x8 x9 x10 x11 x12 x13 x14 x15 x16 x17 x18 x19 x20 x21 _ x23 := s in
  Build_t x1 x2 x3 x4 x5 x6 x7 x8 x9 x10 x11 x12 x13 x14 x15 x16 x17 x18 x19 x20 x21 v x23.
Definition set_collaborators_to_remove (v : list (string * string)) (s : t) : t :=
  let 'Build_t x1 x2 x3 x4 x5 x6 x7 x8 x9 x10 x11 x12 x13 x14 x15 x16 x17 x18 x19 x20 x21 x22 _ := s in
  Build_t x1 x2 x3 x4 x5 x6 x7 x8 x9 x10 x11 x12 x13 x14 x15 x16 x17 x18 x19 x20 x21 x22 v.

(** [valid_collaborator_cn_and_id] is about the collaborator RPCs and
    [single_col_cert_common_name]; the admin counterpart follows. *)

(** [valid_admin_cn_and_id(cert_common_name, admin_common_name)] *)
Definition valid_admin_cn_and_id (cert_common_name admin_common_name : string)
    (s : t) : bool :=
  bool_decide (cert_common_name = admin_common_name)
  && bool_decide (is_Some (admins_endpoints_mapping s !! admin_common_name)).

(** [valid_admin_endpoint(endpoint_id, admin_common_name)] *)
Definition valid_admin_endpoint (endpoint_id admin_common_name : string)
    (s : t) : exn + bool :=
  match getitem (admins_endpoints_mapping s) admin_common_name with
  | inl e => inl e
  | inr endpoints => inr (bool_decide (endpoint_id ∈ endpoints))
  end.

(** [set(a) == set(b)] *)
Definition set_eq (a b : list string) : bool :=
  bool_decide ((list_to_set a : gset string) = list_to_set b).

(** [all_quit_jobs_sent] *)
Definition all_quit_jobs_sent (s : t) : bool :=
  set_eq (quit_job_sent_to s) (authorized_cols s).

(** [_get_sleep_time] *)
Definition _get_sleep_time : nat := 10.

(** [_time_to_quit] *)
Definition _time_to_quit (s : t) : bool :=
  if bool_decide (rounds_to_train s <= round_number s) then true else false.

(** [_collaborator_task_completed(collaborator, task_name, round_num)] *)
Definition _collaborator_task_completed (collaborator task_name : string)
    (round_num : nat) (s : t) : bool :=
  bool_decide (is_Some (collaborator_tasks_results s
                          !! Types.mkTaskResultKey task_name collaborator round_num)).

(** [_get_round_status] *)
Definition _get_round_status (s : t) : RoundStatus := {|
  status_round := round_number s;
  status_round_start := first_col_start s;
  status_collaborators := authorized_cols s;
  status_start_times := collaborator_start_time s;
  status_end_times := collaborator_end_time s;
  status_stragglers := stragglers s;
  status_to_add_next_round := collaborators_to_add s;
  status_to_remove_next_round := collaborators_to_remove s;
  status_available_collaborators := available_collaborators s;
  status_assigned_collaborators := AssignerI.get_assigned_collaborators (assigner s);
|}.

(** [get_experiment_status] *)
Definition get_experiment_status : py t (RoundStatus * option RoundStatus) :=
  current_round_status <- gets _get_round_status ;;
  previous <- gets previous_round_status ;;
  ret (current_round_status, previous).

(** [add_collaborator(collaborator_label, collaborator_cn)] *)
Definition add_collaborator (collaborator_label collaborator_cn : string)
  : py t unit :=
  to_remove <- gets collaborators_to_remove ;;
  if queue_contains (PTuple collaborator_label collaborator_cn) to_remove then
    (* self.collaborators_to_remove.remove(collaborator_cn) *)
    to_remove' <- lift (queue_remove (PStr collaborator_cn) to_remove) ;;
    modify (set_collaborators_to_remove to_remove')
  else
    to_add <- gets collaborators_to_add ;;
    if queue_contains (PTuple collaborator_label collaborator_cn) to_add then
      raise ValueError
    else
      cols <- gets authorized_cols ;;
      if bool_decide (collaborator_cn ∈ cols) then raise ValueError
      else modify (set_collaborators_to_add
                     (to_add ++ [(collaborator_label, collaborator_cn)])).

(** [remove_collaborator(collaborator_label, collaborator_cn)] *)
Definition remove_collaborator (collaborator_label collaborator_cn : string)
  : py t unit :=
  to_add <- gets collaborators_to_add ;;
  if queue_contains (PTuple collaborator_label collaborator_cn) to_add then
    (* self.collaborators_to_add.remove(collaborator_cn) *)
    to_add' <- lift (queue_remove (PStr collaborator_cn) to_add) ;;
    modify (set_collaborators_to_add to_add')
  else
    to_remove <- gets collaborators_to_remove ;;
    if queue_contains (PTuple collaborator_label collaborator_cn) to_remove then
      raise ValueError
    else
      cols <- gets authorized_cols ;;
      if bool_decide (collaborator_cn ∈ cols) then
        modify (set_collaborators_to_remove
                  (to_remove ++ [(collaborator_label, collaborator_cn)]))
      else raise ValueError.

(** [{c: self.collaborator_task_weight[TaskResultKey(task_name, c, round)]
      for c in collaborators_for_task}] *)
Definition weights_unnormalized (task_name : string) (round : nat)
    (collaborators_for_task : list string) (s : t) : exn + gmap string Z :=
  match traverse (fun c => getitem (collaborator_task_weight s)
                             (Types.mkTaskResultKey task_name c round))
                 collaborators_for_task with
  | inl e => inl e
  | inr ws => inr (list_to_map (zip collaborators_for_task ws))
  end.

(** [sum(d.values())] *)
Definition dict_sum (d : gmap string Z) : Z :=
  map_fold (fun _ v acc => (v + acc)%Z) 0%Z d.

(** [{k: v / weight_total for k, v in d.items()}] *)
Definition normalize (d : gmap string Z) (weight_total : Z)
  : exn + gmap string float :=
  if bool_decide (d = ∅) then inr ∅
  else if bool_decide (weight_total = 0%Z) then inl ZeroDivisionError
  else inr ((fun v => PrimFloat.div (float_of_Z v) (float_of_Z weight_total)) <$> d).

(** The body of [for tensor_key in self.collaborator_tasks_results[task_key]]
    in [_compute_validation_related_task_metrics]. *)
Definition aggregate_tensor_key (task_name first_collaborator : string)
    (collaborator_weight_dict : gmap string float) (task_agg_function : AggT)
    (tensor_key : Types.TensorKey) : py t unit :=
  let tags := Types.tags tensor_key in
  let round_number' := Types.round_number tensor_key in
  assert (bool_decide (first_collaborator ∈ tags)) ;;
  new_tags <- lift (TensorI.change_tags_remove tags first_collaborator) ;;
  let agg_tensor_key :=
    {| Types.tensor_name := Types.tensor_name tensor_key;
       Types.origin := Types.origin tensor_key;
       Types.round_number := round_number';
       Types.report := Types.report tensor_key;
       Types.tags := new_tags |} in
  let agg_function :=
    if bool_decide ("metric" ∈ tags) then TensorI.WeightedAverage
    else TensorI.TaskAggregation task_agg_function in
  agg_results <- zoom store set_store
    (TensorI.tensor_db_get_aggregated_tensor
       agg_tensor_key collaborator_weight_dict agg_function) ;;
  (if Types.report tensor_key then
     (* 'metric_value': float(agg_results) *)
     v <- match agg_results with
          | None => raise TypeError
          | Some v => ret v
          end ;;
     value <- lift (TensorI.to_float v) ;;
     modify (fun s => set_metric_queue
       (metric_queue s ++
          [{| metric_round := round_number'; metric_origin := "aggregator";
              metric_task_name := task_name;
              metric_name := Types.tensor_name tensor_key;
              metric_value := value |}]) s) ;;
     if bool_decide ("validate_agg" ∈ tags) then
       best <- gets best_model_score ;;
       improved <- match best with
                   | None => ret true
                   | Some b => lift (TensorI.score_lt b v)
                   end ;;
       if improved : bool then
         modify (set_best_model_score (Some v)) ;;
         zoom store set_store
           (TensorI._save_model round_number' TensorI.best_state_path)
       else ret tt
     else ret tt
   else ret tt) ;;
  if bool_decide ("trained" ∈ tags) then
    zoom store set_store
      (TensorI._prepare_trained (Types.tensor_name tensor_key)
         (Types.origin tensor_key) round_number' (Types.report tensor_key)
         agg_results)
  else ret tt.

(** The collaborators of a task that count at the end of the round:
    those assigned the task that are in [collaborators_done]. *)
Definition done_collaborators_for_task (all_collaborators_for_task : list string)
    (s : t) : list string :=
  filter (fun c => c ∈ collaborators_done s) all_collaborators_for_task.

(** [_compute_validation_related_task_metrics(task_name)] *)
Definition _compute_validation_related_task_metrics (task_name : string)
  : py t unit :=
  round <- gets round_number ;;
  all_collaborators_for_task <-
    (fun s => lift (AssignerI.get_collaborators_for_task task_name round (assigner s)) s) ;;
  collaborators_for_task <- gets (done_collaborators_for_task all_collaborators_for_task) ;;
  collaborator_weights_unnormalized <-
    (fun s => lift (weights_unnormalized task_name round collaborators_for_task s) s) ;;
  let weight_total := dict_sum collaborator_weights_unnormalized in
  collaborator_weight_dict <-
    lift (normalize collaborator_weights_unnormalized weight_total) ;;
  task_agg_function <-
    (fun s => lift (AssignerI.get_aggregation_type_for_task task_name (assigner s)) s) ;;
  (* task_key = TaskResultKey(task_name, collaborators_for_task[0], round) *)
  first_collaborator <- lift (index collaborators_for_task 0) ;;
  results <- gets collaborator_tasks_results ;;
  tensor_keys <-
    lift (getitem results (Types.mkTaskResultKey task_name first_collaborator round)) ;;
  for_ tensor_keys
    (aggregate_tensor_key task_name first_collaborator collaborator_weight_dict
       task_agg_function).

(** [for col_label, col_cn in queue: if col_cn not in l: l.append(col_cn)] *)
Definition append_missing (queue : list (string * string)) (l : list string)
  : list string :=
  foldl (fun acc e => if bool_decide (e.2 ∈ acc) then acc else acc ++ [e.2]) l queue.

(** [for col_label, col_cn in queue: if col_cn in l: l.remove(col_cn)] *)
Definition remove_present (queue : list (string * string)) (l : list string)
  : list string :=
  foldl (fun acc e =>
           match list_remove e.2 acc with
           | inr acc' => acc'
           | inl _ => acc
           end) l queue.

(** [_end_of_round_check] *)
Definition _end_of_round_check : py t unit :=
  round <- gets round_number ;;
  flags <- gets _end_of_round_check_done ;;
  already <- lift (index flags round) ;;
  if already : bool then ret tt
  else
    all_tasks <-
      (fun s => lift (AssignerI.get_all_tasks_for_round round (assigner s)) s) ;;
    for_ all_tasks _compute_validation_related_task_metrics ;;
    modify (fun s => set_previous_round_status (Some (_get_round_status s)) s) ;;
    modify (set_collaborator_start_time ∅) ;;
    modify (set_collaborator_end_time ∅) ;;
    modify (set_first_col_start None) ;;
    modify (fun s => set__end_of_round_check_done
                       (<[round_number s := true]> (_end_of_round_check_done s)) s) ;;
    modify (fun s => set_round_number (round_number s + 1) s) ;;
    modify (fun s => set_available_collaborators
                       (append_missing (collaborators_to_add s)
                          (available_collaborators s)) s) ;;
    modify (fun s => set_available_collaborators
                       (remove_present (collaborators_to_remove s)
                          (available_collaborators s)) s) ;;
    (fun s => zoom assigner set_assigner
                (AssignerI.end_of_round (available_collaborators s) (stragglers s)
                   (round_number s)) s) ;;
    modify (set_straggler_handling_policy_started_for_round false) ;;
    modify (set_stragglers []) ;;
    modify (set_available_collaborators []) ;;
    modify (set_collaborators_done []) ;;
    (fun s => zoom store set_store
                (TensorI._save_model (round_number s) TensorI.last_state_path) s) ;;
    zoom store set_store TensorI.tensor_db_clean_up ;;
    zoom straggler_handling_policy set_straggler_handling_policy
      PolicyI.reset_policy_for_round ;;
    (fun s => zoom store set_store
                (TensorI._write_dynamic_task_args (round_number s)) s) ;;
    to_add <- gets collaborators_to_add ;;
    for_ to_add (fun e =>
      modify (fun s => set_authorized_cols (authorized_cols s ++ [e.2]) s) ;;
      zoom assigner set_assigner (AssignerI.add_collaborator e.1 e.2)) ;;
    modify (set_collaborators_to_add []) ;;
    to_remove <- gets collaborators_to_remove ;;
    for_ to_remove (fun e =>
      cols <- gets authorized_cols ;;
      cols' <- lift (list_remove e.2 cols) ;;
      modify (set_authorized_cols cols') ;;
      zoom assigner set_assigner (AssignerI.remove_collaborator e.1 e.2)) ;;
    modify (set_collaborators_to_remove []).

(** [task.name] when the task has that attribute, the task itself
    (a string) otherwise. *)
Definition task_name_of (task : AssignerI.Task) : string :=
  match task with
  | AssignerI.TaskName s => s
  | AssignerI.TaskObj n _ _ _ => n
  end.

(** [_is_collaborator_done(collaborator_name)] *)
Definition _is_collaborator_done (collaborator_name : string) : py t unit :=
  all_tasks <-
    (fun s => lift (AssignerI.get_tasks_for_collaborator collaborator_name
                      (round_number s) (assigner s)) s) ;;
  all_tasks_completed <- gets (fun s =>
    forallb (fun task => _collaborator_task_completed collaborator_name
                           (task_name_of task) (round_number s) s) all_tasks) ;;
  if all_tasks_completed : bool then
    modify (fun s => set_collaborators_done
                       (collaborators_done s ++ [collaborator_name]) s)
  else ret tt.

(** [_end_round_due_to_stragglers] *)
Definition _end_round_due_to_stragglers : py t unit :=
  modify (fun s => set_stragglers
    (filter (fun collab_name => collab_name ∉ collaborators_done s)
       (AssignerI.get_assigned_collaborators (assigner s))) s) ;;
  _end_of_round_check.

(** [len(self.collaborators_done), len(self.assigner.get_assigned_collaborators())]
    handed to the policy's [straggler_cutoff_check]. *)
Definition cutoff_check (now : Q) (s : t) : bool :=
  PolicyI.straggler_cutoff_check now (length (collaborators_done s))
    (length (AssignerI.get_assigned_collaborators (assigner s)))
    (straggler_handling_policy s).

(** [_straggler_cutoff_time_elapsed], the timer callback, run when the
    clock reads [now]. *)
Definition _straggler_cutoff_time_elapsed (now : Q) : py t unit :=
  (* the log line reads straggler_handling_policy.straggler_cutoff_time *)
  cutoff <- gets (fun s => PolicyI.straggler_cutoff_time (straggler_handling_policy s)) ;;
  match cutoff with
  | None => raise AttributeError
  | Some _ =>
      fire <- gets (cutoff_check now) ;;
      if fire : bool then _end_round_due_to_stragglers else ret tt
  end.

(** The body of [for named_tensor in named_tensors] in
    [send_local_task_results]; returns the tensor key to append to
    [task_results]. *)
Definition receive_named_tensor (collaborator_name task_name : string)
    (round_number' : nat) (named_tensor : NT) : py t Types.TensorKey :=
  kv <- zoom store set_store
          (TensorI._process_named_tensor named_tensor collaborator_name) ;;
  let tensor_key := kv.1 in
  (if bool_decide ("metric" ∈ Types.tags tensor_key) then
     value <- lift (TensorI.to_float kv.2) ;;
     modify (fun s => set_metric_queue
       (metric_queue s ++
          [{| metric_round := round_number'; metric_origin := collaborator_name;
              metric_task_name := task_name;
              metric_name := Types.tensor_name tensor_key;
              metric_value := value |}]) s)
   else ret tt) ;;
  ret tensor_key.

(** [send_local_task_results(collaborator_name, round_number, task_name,
    data_size, named_tensors)], received when the clock reads [now]. *)
Definition send_local_task_results (now : Q) (collaborator_name : string)
    (round_number' : nat) (task_name : string) (data_size : Z)
    (named_tensors : list NT) : py t unit :=
  quitting <- gets _time_to_quit ;;
  late <- gets (fun s => bool_decide (collaborator_name ∈ stragglers s)) ;;
  if quitting || late then ret tt
  else
    round <- gets round_number ;;
    if negb (bool_decide (round = round_number')) then ret tt
    else
      let task_key := Types.mkTaskResultKey task_name collaborator_name round_number' in
      completed <- gets (_collaborator_task_completed collaborator_name task_name
                           round_number') ;;
      if completed : bool then raise ValueError
      else
        modify (fun s => set_collaborator_task_weight
                           (<[task_key := data_size]> (collaborator_task_weight s)) s) ;;
        task_results <- fold_ named_tensors [] (fun acc named_tensor =>
          tensor_key <- receive_named_tensor collaborator_name task_name
                          round_number' named_tensor ;;
          ret (acc ++ [tensor_key])) ;;
        modify (fun s => set_collaborator_tasks_results
                           (<[task_key := task_results]> (collaborator_tasks_results s)) s) ;;
        modify (fun s =>
          if bool_decide (is_Some (collaborator_end_time s !! collaborator_name)) then s
          else set_collaborator_end_time
                 (<[collaborator_name := ∅]> (collaborator_end_time s)) s) ;;
        (* time.time() - self.first_col_start *)
        start <- gets first_col_start ;;
        elapsed <- match start with
                   | None => raise TypeError
                   | Some t0 => ret (now - t0)%Q
                   end ;;
        modify (fun s => set_collaborator_end_time
          (alter (insert task_name elapsed) collaborator_name (collaborator_end_time s)) s) ;;
        _is_collaborator_done collaborator_name ;;
        all_done <- gets (fun s =>
          bool_decide (length (collaborators_done s)
                       = length (AssignerI.get_assigned_collaborators (assigner s)))) ;;
        if all_done : bool then _end_of_round_check
        else
          fire <- gets (cutoff_check now) ;;
          if fire : bool then _end_round_due_to_stragglers else ret tt.

(** The reply of [get_tasks]:
    [(tasks, round_number, sleep_time, time_to_quit)]. *)
Definition TasksReply : Type :=
  option (list AssignerI.Task) * nat * nat * bool.

(** [isinstance(task, str)] *)
Definition is_str (task : AssignerI.Task) : bool :=
  match task with AssignerI.TaskName _ => true | _ => false end.

(** The two list comprehensions of [get_tasks] that drop the tasks
    already reported.  In the string form a task is looked up by
    itself, so an object in the list never matches a result key; in the
    object form [t.name] is read, which a string does not have. *)
Definition pending_tasks (collaborator_name : string) (tasks : list AssignerI.Task)
    (s : t) : exn + list AssignerI.Task :=
  match tasks with
  | AssignerI.TaskName _ :: _ =>
      inr (List.filter (fun task =>
             match task with
             | AssignerI.TaskName n =>
                 negb (_collaborator_task_completed collaborator_name n (round_number s) s)
             | AssignerI.TaskObj _ _ _ _ => true
             end) tasks)
  | _ =>
      match traverse (fun task =>
              match task with
              | AssignerI.TaskName _ => inl AttributeError
              | AssignerI.TaskObj n _ _ _ =>
                  inr (task, _collaborator_task_completed collaborator_name n
                               (round_number s) s)
              end) tasks with
      | inl e => inl e
      | inr marked => inr ((List.filter (fun p => negb p.2) marked).*1)
      end
  end.

(** [get_tasks(collaborator_name)], called when the clock reads [now]. *)
Definition get_tasks (now : Q) (collaborator_name : string) : py t TasksReply :=
  modify (fun s =>
    if bool_decide (collaborator_name ∈ available_collaborators s) then s
    else set_available_collaborators
           (available_collaborators s ++ [collaborator_name]) s) ;;
  quitting <- gets _time_to_quit ;;
  if quitting : bool then
    modify (fun s => set_quit_job_sent_to (quit_job_sent_to s ++ [collaborator_name]) s) ;;
    round <- gets round_number ;;
    ret (None, round, 0, true)
  else
    round <- gets round_number ;;
    tasks <-
      (fun s => lift (AssignerI.get_tasks_for_collaborator collaborator_name round
                        (assigner s)) s) ;;
    if bool_decide (length tasks = 0) then ret (None, round, _get_sleep_time, false)
    else
      tasks <- (fun s => lift (pending_tasks collaborator_name tasks s) s) ;;
      late <- gets (fun s => bool_decide (collaborator_name ∈ stragglers s)) ;;
      let tasks := if late : bool then [] else tasks in
      if bool_decide (length tasks = 0) then ret (None, round, _get_sleep_time, false)
      else
        started <- gets straggler_handling_policy_started_for_round ;;
        (if started : bool then ret tt
         else
           modify (set_straggler_handling_policy_started_for_round true) ;;
           zoom straggler_handling_policy set_straggler_handling_policy
             (PolicyI.start_policy now)) ;;
        let start_time := now in
        modify (fun s =>
          match first_col_start s with
          | None => set_first_col_start (Some start_time) s
          | Some _ => s
          end) ;;
        modify (fun s =>
          if bool_decide (is_Some (collaborator_start_time s !! collaborator_name)) then s
          else
            match first_col_start s with
            | Some t0 =>
                set_collaborator_start_time
                  (<[collaborator_name := (start_time - t0)%Q]>
                     (collaborator_start_time s)) s
            | None => s
            end) ;;
        ret (Some tasks, round, 0, false).

(** [get_aggregated_tensor(...)]: a lookup in the tensor database,
    with its bounded wait, followed by delta generation and compression;
    no attribute of the aggregator is assigned. *)
Definition get_aggregated_tensor (collaborator_name tensor_name : string)
    (round_number' : nat) (report : bool) (tags : list string)
    (require_lossless : bool) : py t NT :=
  fun s => lift (TensorI.get_aggregated_tensor_from_store tensor_name
                   collaborator_name round_number' report tags require_lossless
                   (store s)) s.

(** [set_straggler_cutoff_time(straggler_cutoff_time)], called when the
    clock reads [now]. *)
Definition set_straggler_cutoff_time (now : Q)
    (straggler_cutoff_time' : Cutoff.seconds) : py t unit :=
  match PolicyI.set_straggler_cutoff_time with
  | None => ret tt
  | Some method =>
      run_callback <- zoom straggler_handling_policy set_straggler_handling_policy
                        (method now straggler_cutoff_time') ;;
      (if run_callback : bool then _straggler_cutoff_time_elapsed now else ret tt) ;;
      (* the log line reads straggler_handling_policy.straggler_cutoff_time *)
      cutoff <- gets (fun s => PolicyI.straggler_cutoff_time (straggler_handling_policy s)) ;;
      match cutoff with
      | None => raise AttributeError
      | Some _ => ret tt
      end
  end.

(** [stop(failed_collaborator)] *)
Definition stop (failed_collaborator : option string) : py t unit :=
  (match failed_collaborator with
   | Some c =>
       if bool_decide (c = EmptyString) then ret tt
       else modify (fun s => set_quit_job_sent_to (quit_job_sent_to s ++ [c]) s)
   | None => ret tt
   end) ;;
  cols <- gets authorized_cols ;;
  for_ (filter (fun c => Some c ≠ failed_collaborator) cols) (fun collaborator_name =>
    modify (fun s => set_quit_job_sent_to
                       (quit_job_sent_to s ++ [collaborator_name]) s)).

(** *** The entry points as events

    Everything that can happen to a running aggregator: a collaborator
    RPC, an admin RPC, the straggler timer firing, or a forced stop. *)
Inductive event : Type :=
| GetTasks (collaborator_name : string)
| GetAggregatedTensor (collaborator_name tensor_name : string)
    (round_number' : nat) (report : bool) (tags : list string)
    (require_lossless : bool)
| SendLocalTaskResults (collaborator_name : string) (round_number' : nat)
    (task_name : string) (data_size : Z) (named_tensors : list NT)
| AddCollaborator (collaborator_label collaborator_cn : string)
| RemoveCollaborator (collaborator_label collaborator_cn : string)
| GetExperimentStatus
| SetStragglerCutoffTime (straggler_cutoff_time' : Cutoff.seconds)
| TimerFired
| Stop (failed_collaborator : option string).

(** The aggregator after an event that arrives when the clock reads
    [now], whether the call returned or raised. *)
Definition step (now : Q) (ev : event) (s : t) : t :=
  match ev with
  | GetTasks c => state_of (get_tasks now c s)
  | GetAggregatedTensor c n r rep tg rl =>
      state_of (get_aggregated_tensor c n r rep tg rl s)
  | SendLocalTaskResults c r task d nts =>
      state_of (send_local_task_results now c r task d nts s)
  | AddCollaborator l cn => state_of (add_collaborator l cn s)
  | RemoveCollaborator l cn => state_of (remove_collaborator l cn s)
  | GetExperimentStatus => state_of (get_experiment_status s)
  | SetStragglerCutoffTime v => state_of (set_straggler_cutoff_time now v s)
  | TimerFired => state_of (_straggler_cutoff_time_elapsed now s)
  | Stop c => state_of (stop c s)
  end.

(** The aggregator after a sequence of timed events, the earliest
    first. *)
Fixpoint run (evs : list (Q * event)) (s : t) : t :=
  match evs with
  | [] => s
  | (now, ev) :: evs' => run evs' (step now ev s)
  end.

(** [__init__]: the attribute values a new aggregator starts with.
    [model_round] is the round stored in the initial model file, which
    [_load_initial_tensors] adopts when it is positive; [store0] is the
    tensor machinery once the initial tensors and dynamic task
    arguments are loaded. *)
Definition init (authorized_cols' : list string)
    (admins_endpoints_mapping' : gmap string (list string))
    (assigner' : A) (straggler_handling_policy' : P)
    (rounds_to_train' model_round : nat) (store0 : Store) : t := {|
  round_number := model_round;
  rounds_to_train := rounds_to_train';
  _end_of_round_check_done := replicate rounds_to_train' false;
  straggler_handling_policy_started_for_round := false;
  stragglers := [];
  available_collaborators := [];
  authorized_cols := authorized_cols';
  assigner := assigner';
  quit_job_sent_to := [];
  store := store0;
  straggler_handling_policy := straggler_handling_policy';
  best_model_score := None;
  metric_queue := [];
  collaborator_tasks_results := ∅;
  collaborator_task_weight := ∅;
  collaborators_done := [];
  collaborator_start_time := ∅;
  collaborator_end_time := ∅;
  previous_round_status := None;
  first_col_start := None;
  admins_endpoints_mapping := admins_endpoints_mapping';
  collaborators_to_add := [];
  collaborators_to_remove := [];
|}.

End WithPlan.
Arguments t A P Store V : clear implicits.
Arguments event NT : clear implicits.

End Aggregator.

(** ** Dynamic task arguments (component/aggregator/aggregator.py)

    [set_dynamic_task_arg] and [get_dynamic_task_arg] are methods of
    the aggregator that read and write its attribute [dynamictaskargs]
    only; the attribute is their state here. *)

Module DynamicArgs.

(** [self.dynamictaskargs]: [None], or a dictionary from task names
    to dictionaries from argument names to the dictionary that holds
    the numbers of the argument under ['min'], ['max'] and ['value']. *)
Definition t : Type := option (gmap string (gmap string (gmap string Q))).

(** [a < b] on numbers. *)
Definition Qltb (a b : Q) : bool := if Qlt_le_dec a b then true else false.

(** [set_dynamic_task_arg(task_name, arg_name, value)] *)
Definition set_dynamic_task_arg (task_name arg_name : string) (value : Q)
  : py t unit :=
  d <- gets id ;;
  match d with
  | None => raise KeyError
  | Some m =>
      match m !! task_name with
      | None => raise KeyError
      | Some args =>
          match args !! arg_name with
          | None => raise KeyError
          | Some spec =>
              lo <- lift (getitem spec "min") ;;
              if Qltb value lo then raise ValueError
              else
                hi <- lift (getitem spec "max") ;;
                if Qltb hi value then raise ValueError
                else
                  modify (fun _ =>
                    Some (<[task_name :=
                             <[arg_name := <["value" := value]> spec]> args]> m))
          end
      end
  end.

(** [get_dynamic_task_arg(task_name, arg_name)]: the pair of
    ['current_value'] and ['next_value'].  [get_dynamic_arg] is the
    lookup [self.tensor_db.get_dynamic_arg(task_name, arg_name,
    self.round_number, self.uuid)]. *)
Definition get_dynamic_task_arg {V} (get_dynamic_arg : string -> string -> exn + V)
    (task_name arg_name : string) : py t (V * Q) :=
  d <- gets id ;;
  match d with
  | None => raise KeyError
  | Some m =>
      match m !! task_name with
      | None => raise KeyError
      | Some args =>
          match args !! arg_name with
          | None => raise KeyError
          | Some spec =>
              current <- lift (get_dynamic_arg task_name arg_name) ;;
              next <- lift (getitem spec "value") ;;
              ret (current, next)
          end
      end
  end.

End DynamicArgs.

(** ** The admin gate of the gRPC server (transport/grpc/aggregator_server.py) *)

Module Server.

Section WithPlan.

Context {A P Store V NT AggT : Type}.
Context `{!AssignerI.Ops A AggT, !PolicyI.Ops P, !TensorI.Ops Store V NT AggT}.

(** The attributes of an [AggregatorGRPCServer] that the admin
    endpoints read. *)
Record t : Type := {
  aggregator : Aggregator.t A P Store V;
  tls : bool;
}.

Definition set_aggregator (v : Aggregator.t A P Store V) (srv : t) : t :=
  let 'Build_t _ x2 := srv in Build_t v x2.

(** An admin request: the header's sender and the two fields of the
    add and remove messages. *)
Record AdminRequest : Type := {
  sender : string;
  collaborator_label : string;
  collaborator_cn : string;
}.

(** A call [self.aggregator.valid_admin_endpoint(...)].  The method
    is declared with the parameters [(endpoint_id, admin_common_name)];
    Python raises [TypeError] when the number of positional arguments
    differs. *)
Definition call_valid_admin_endpoint (args : list string)
    (agg : Aggregator.t A P Store V) : exn + bool :=
  match args with
  | [endpoint_id; admin_common_name] =>
      Aggregator.valid_admin_endpoint endpoint_id admin_common_name agg
  | _ => inl TypeError
  end.

(** [validate_admin(request, context, endpoint_name)]; [common_name] is
    the certificate's [x509_common_name] read from [context]. *)
Definition validate_admin (common_name : string) (request : AdminRequest)
    (endpoint_name : string) : py t unit :=
  secured <- gets tls ;;
  (if secured : bool then
     let admin_common_name := sender request in
     valid <- gets (fun srv => Aggregator.valid_admin_cn_and_id common_name
                                 admin_common_name (aggregator srv)) ;;
     if valid : bool then ret tt
     else raise (GrpcAbort UNAUTHENTICATED)
   else ret tt) ;;
  (* self.aggregator.valid_admin_endpoint(endpoint_name) *)
  allowed <- (fun srv => lift (call_valid_admin_endpoint [endpoint_name]
                                 (aggregator srv)) srv) ;;
  if allowed : bool then ret tt
  else raise (GrpcAbort UNAVAILABLE).

(** [check_admin_request(request)].  Its first statement reads
    [self.aggregator.admins], an attribute the aggregator never
    assigns. *)
Definition check_admin_request (request : AdminRequest) : py t unit :=
  raise AttributeError.

(** The three admin endpoints of the servicer; each returns once the
    aggregator operation has run. *)
Definition AddCollaborator (common_name : string) (request : AdminRequest)
  : py t unit :=
  validate_admin common_name request "AddCollaborator" ;;
  check_admin_request request ;;
  zoom aggregator set_aggregator
    (Aggregator.add_collaborator (collaborator_label request)
       (collaborator_cn request)).

Definition RemoveCollaborator (common_name : string) (request : AdminRequest)
  : py t unit :=
  validate_admin common_name request "RemoveCollaborator" ;;
  check_admin_request request ;;
  zoom aggregator set_aggregator
    (Aggregator.remove_collaborator (collaborator_label request)
       (collaborator_cn request)).

Definition GetExperimentStatus (common_name : string) (request : AdminRequest)
  : py t (Aggregator.RoundStatus * option Aggregator.RoundStatus) :=
  validate_admin common_name request "GetExperimentStatus" ;;
  check_admin_request request ;;
  zoom aggregator set_aggregator Aggregator.get_experiment_status.

End WithPlan.
Arguments t A P Store V : clear implicits.

End Server.

(** ** The dynamic assigner behind the assigner interface *)

Module DynamicI.

Section WithBase.

(** The permutation [np.random.choice(n, n, replace=False)] draws, by
    [n] and by round. *)
Variable choice : nat -> nat -> list nat.

(** The sources hold the subclass only.  Of the base class [Assigner],
    [get_all_tasks_for_round] is taken to return the tasks of all
    groups; what it returns for [get_aggregation_type_for_task] and how
    it reacts to [add_collaborator] and [remove_collaborator] are
    parameters. *)
Variable AggT : Type.
Variable base_get_aggregation_type_for_task : string -> Assigner.t -> exn + AggT.
Variable base_add_collaborator : string -> string -> py Assigner.t unit.
Variable base_remove_collaborator : string -> string -> py Assigner.t unit.

Definition names_to_tasks (r : exn + list string) : exn + list AssignerI.Task :=
  match r with
  | inl e => inl e
  | inr l => inr (AssignerI.TaskName <$> l)
  end.

#[local] Instance ops : AssignerI.Ops Assigner.t AggT := {|
  AssignerI.get_tasks_for_collaborator c r a :=
    names_to_tasks (Assigner.get_tasks_for_collaborator c r a);
  AssignerI.get_collaborators_for_task := Assigner.get_collaborators_for_task;
  AssignerI.get_all_tasks_for_round _ a := inr (Assigner.all_tasks_in_groups a);
  AssignerI.get_aggregation_type_for_task := base_get_aggregation_type_for_task;
  AssignerI.get_assigned_collaborators := Assigner.get_assigned_collaborators;
  AssignerI.end_of_round available stragglers next_round :=
    Assigner.end_of_round available stragglers next_round
      (choice (length (filter (fun col => col ∉ stragglers) available)));
  AssignerI.add_collaborator := base_add_collaborator;
  AssignerI.remove_collaborator := base_remove_collaborator;
|}.

End WithBase.

End DynamicI.

(** ** A small federation to run the model on *)

Module Scenario.

(** Tensor machinery that keeps nothing: a named tensor is a key with
    a value, processing it tags the key with the collaborator, and no
    aggregated tensor is ever found. *)
#[global] Instance null_tensors
  : TensorI.Ops unit float (Types.TensorKey * float) unit := {|
  TensorI._process_named_tensor nt c :=
    ret ({| Types.tensor_name := Types.tensor_name nt.1;
            Types.origin := Types.origin nt.1;
            Types.round_number := Types.round_number nt.1;
            Types.report := Types.report nt.1;
            Types.tags := Types.tags nt.1 ++ [c] |}, nt.2);
  TensorI._prepare_trained _ _ _ _ _ := ret tt;
  TensorI._save_model _ _ := ret tt;
  TensorI._write_dynamic_task_args _ := ret tt;
  TensorI.get_aggregated_tensor_from_store _ _ _ _ _ _ _ := inl ValueError;
  TensorI.tensor_db_get_aggregated_tensor _ _ _ := ret None;
  TensorI.tensor_db_clean_up := ret tt;
  TensorI.change_tags_remove tags c := inr (filter (fun x => x ≠ c) tags);
  TensorI.to_float v := inr v;
  TensorI.score_lt a b := inr (PrimFloat.ltb a b);
|}.

(** The dynamic assigner with the identity permutation drawn every
    round and a base class that ignores membership changes. *)
#[global] Instance assigner_ops : AssignerI.Ops Assigner.t unit :=
  DynamicI.ops (fun n _ => seq 0 n) unit (fun _ _ => inr tt)
    (fun _ _ => ret tt) (fun _ _ => ret tt).

Abbreviation aggregator := (Aggregator.t Assigner.t (Cutoff.t unit) unit float).
Abbreviation event := (Aggregator.event (Types.TensorKey * float)).

(** A policy built as [CutoffTimeBasedStragglerHandling(
    straggler_cutoff_time=cutoff, minimum_reporting=1)]. *)
Definition policy (cutoff : Cutoff.seconds) : Cutoff.t unit :=
  match Cutoff.init None cutoff 1 with
  | inr p => p
  | inl _ => {| Cutoff.round_start_time := None;
                Cutoff.straggler_cutoff_time := Cutoff.Inf;
                Cutoff.minimum_reporting := 1;
                Cutoff.timer := None; Cutoff.callback := None |}
  end.

(** A federation of the collaborators [cols] over [rounds] rounds, the
    assigner built from [groups]. *)
Definition federation (groups : list Assigner.TaskGroup) (cols : list string)
    (rounds : nat) (cutoff : Cutoff.seconds) : aggregator :=
  Aggregator.init cols {["admin" := ["AddCollaborator"; "RemoveCollaborator"]]}
    (state_of (Assigner.init groups cols rounds (fun _ => seq 0 (length cols))))
    (policy cutoff) rounds 0 tt.

(** One group holding every collaborator, with the single task [train]. *)
Definition one_group : list Assigner.TaskGroup :=
  [ {| Assigner.name := "all"; Assigner.percentage := 1%float;
       Assigner.tasks := ["train"] |} ].

(** Two groups of one half each, one training and one validating. *)
Definition two_halves : list Assigner.TaskGroup :=
  [ {| Assigner.name := "trainers"; Assigner.percentage := 0.5%float;
       Assigner.tasks := ["train"] |};
    {| Assigner.name := "validators"; Assigner.percentage := 0.5%float;
       Assigner.tasks := ["validate"] |} ].

(** A federation whose rounds are all done, after ["A"] and a
    stranger ["X"] have each asked for tasks. *)
Definition finished : aggregator := federation one_group ["A"] 0 Cutoff.Inf.
Definition after_quits : aggregator :=
  Aggregator.run [(0%Q, Aggregator.GetTasks "A"); (0%Q, Aggregator.GetTasks "X")]
    finished.

(** One collaborator, two rounds: ["A"] fetches its task and submits
    it, which ends round 0. *)
Definition round_over : aggregator :=
  Aggregator.run
    [(0%Q, Aggregator.GetTasks "A");
     (1%Q, Aggregator.SendLocalTaskResults "A" 0 "train" 10 [])]
    (federation one_group ["A"] 2 Cutoff.Inf).

(** Two collaborators in one group: ["A"] has submitted, ["B"] has
    not, so round 0 is still open. *)
Definition one_reported : aggregator :=
  Aggregator.run
    [(0%Q, Aggregator.GetTasks "A");
     (1%Q, Aggregator.SendLocalTaskResults "A" 0 "train" 10 [])]
    (federation one_group ["A"; "B"] 2 Cutoff.Inf).

(** Two halves, one training and one validating: ["A"] trains and has
    submitted, ["B"] validates and has not. *)
Definition half_reported : aggregator :=
  Aggregator.run
    [(0%Q, Aggregator.GetTasks "A"); (0%Q, Aggregator.GetTasks "B");
     (1%Q, Aggregator.SendLocalTaskResults "A" 0 "train" 10 [])]
    (federation two_halves ["A"; "B"] 2 (Cutoff.Finite 20)).

(** The assigner as [__init__] has it when it calls [assign_tasks]:
    the dictionaries keyed by [define_task_assignments], every
    authorized collaborator an assignee. *)
Definition defined (groups : list Assigner.TaskGroup) (cols : list string)
    (n : nat) : Assigner.t :=
  state_of
    ((Assigner.define_task_assignments ;;
      cols' <- gets Assigner.authorized_cols ;;
      modify (Assigner.set_collaborators_to_assign cols'))
       {| Assigner.task_groups := groups; Assigner.authorized_cols := cols;
          Assigner.rounds := n; Assigner.all_tasks_in_groups := [];
          Assigner.task_group_collaborators := ∅;
          Assigner.collaborators_for_task := ∅; Assigner.collaborator_tasks := ∅;
          Assigner.collaborators_to_assign := [] |}).

End Scenario.

(** ** Vocabulary of the statements *)

Module Spec.

(** The value [_set_cutoff_time] is expected to store for a requested
    value: the larger of the request and twenty seconds. *)
Definition effective_cutoff (v : Cutoff.seconds) : Cutoff.seconds :=
  match v with
  | Cutoff.Finite q => Cutoff.Finite (Qmax q 20)
  | Cutoff.Inf => Cutoff.Inf
  end.

(** [d[k][r]] when both keys are there. *)
Definition lookup2 (d : gmap string (gmap nat (list string))) (k : string)
    (r : nat) : option (list string) :=
  d !! k ≫= fun inner => inner !! r.

(** [earlier_rounds_kept from a a']: the assigner [a'] has the assignee
    list of [a], and both of its round-indexed dictionaries read as in
    [a] at every round before [from]. *)
Definition earlier_rounds_kept (from : nat) (a a' : Assigner.t) : Prop :=
  Assigner.collaborators_to_assign a' = Assigner.collaborators_to_assign a
  /\ forall r, r < from ->
       forall k,
         lookup2 (Assigner.collaborator_tasks a') k r
         = lookup2 (Assigner.collaborator_tasks a) k r
         /\ lookup2 (Assigner.collaborators_for_task a') k r
            = lookup2 (Assigner.collaborators_for_task a) k r.

(** [keeps f s s']: the observation [f] reads the same in [s'] as in
    [s]. *)
Definition keeps {S X} (f : S -> X) (s s' : S) : Prop := f s' = f s.

(** What the end-of-round metrics are computed from: the round, the
    assigner, who is done, and what was submitted. *)
Definition round_state {A P Store V} (s : Aggregator.t A P Store V) :=
  (Aggregator.round_number s, Aggregator.rounds_to_train s,
   Aggregator._end_of_round_check_done s, Aggregator.assigner s,
   Aggregator.collaborators_done s, Aggregator.collaborator_task_weight s,
   Aggregator.collaborator_tasks_results s, Aggregator.stragglers s,
   Aggregator.authorized_cols s, Aggregator.quit_job_sent_to s).

(** The round counter with its guard list. *)
Definition round_marks {A P Store V} (s : Aggregator.t A P Store V) :=
  (Aggregator.round_number s, Aggregator._end_of_round_check_done s,
   Aggregator.rounds_to_train s).

(** What is recorded of the submissions. *)
Definition submissions {A P Store V} (s : Aggregator.t A P Store V) :=
  (Aggregator.collaborator_tasks_results s, Aggregator.collaborator_task_weight s).

(** [advance s s']: between [s] and [s'] either the round counter and
    the guard list are untouched, or the end-of-round work of the
    current round ran: its guard, unset in [s], is set in [s'] and the
    counter is one higher. *)
Definition advance {A P Store V} (s s' : Aggregator.t A P Store V) : Prop :=
  Aggregator.rounds_to_train s' = Aggregator.rounds_to_train s
  /\ ((Aggregator.round_number s' = Aggregator.round_number s
       /\ Aggregator._end_of_round_check_done s'
          = Aggregator._end_of_round_check_done s)
      \/ (Aggregator.round_number s' = S (Aggregator.round_number s)
          /\ Aggregator._end_of_round_check_done s
             !! Aggregator.round_number s = Some false
          /\ Aggregator._end_of_round_check_done s'
             = <[Aggregator.round_number s := true]>
                 (Aggregator._end_of_round_check_done s))).

(** [kept s s']: every submission recorded in [s] is recorded in [s']
    with the same result keys and the same weight. *)
Definition kept {A P Store V} (s s' : Aggregator.t A P Store V) : Prop :=
  forall key ks,
    Aggregator.collaborator_tasks_results s !! key = Some ks ->
    Aggregator.collaborator_tasks_results s' !! key = Some ks
    /\ Aggregator.collaborator_task_weight s' !! key
       = Aggregator.collaborator_task_weight s !! key.

Section WithPlan.

Context {A P Store V NT AggT : Type}.
Context `{!AssignerI.Ops A AggT, !PolicyI.Ops P, !TensorI.Ops Store V NT AggT}.

(** How many events of a run take the round counter from [r] to
    [r + 1], that is, complete the end-of-round work of round [r]. *)
Fixpoint completions (r : nat) (evs : list (Q * Aggregator.event NT))
    (s : Aggregator.t A P Store V) : nat :=
  match evs with
  | [] => 0
  | (now, ev) :: evs' =>
      let s' := Aggregator.step now ev s in
      (if bool_decide (Aggregator.round_number s = r
                       /\ Aggregator.round_number s' = S r) then 1 else 0)
      + completions r evs' s'
  end.

End WithPlan.

(** *** Vocabulary of the group assignment *)

(** [d[k][r] = v] when [k] is a key of [d]. *)
Definition upd2 (d : gmap string (gmap nat (list string))) (k : string)
    (r : nat) (v : list string) : gmap string (gmap nat (list string)) :=
  match d !! k with
  | Some inner => <[k := <[r := v]> inner]> d
  | None => d
  end.

(** [d[k][r] += v] when both keys are there. *)
Definition ext2 (d : gmap string (gmap nat (list string))) (k : string)
    (r : nat) (v : list string) : gmap string (gmap nat (list string)) :=
  match d !! k with
  | Some inner =>
      match inner !! r with
      | Some old => <[k := <[r := old ++ v]> inner]> d
      | None => d
      end
  | None => d
  end.

(** The assigner once a group has been given the collaborators
    [sel] for round [r]. *)
Definition apply_group (r : nat) (a : Assigner.t) (gs : Assigner.TaskGroup * list string)
  : Assigner.t :=
  let g := gs.1 in
  let sel := gs.2 in
  let a1 := Assigner.set_task_group_collaborators
              (<[Assigner.name g := sel]> (Assigner.task_group_collaborators a)) a in
  let a2 := Assigner.set_collaborator_tasks
              (foldl (fun d col => upd2 d col r (Assigner.tasks g))
                 (Assigner.collaborator_tasks a1) sel) a1 in
  Assigner.set_collaborators_for_task
    (foldl (fun d task => ext2 d task r sel)
       (Assigner.collaborators_for_task a2) (Assigner.tasks g)) a2.

(** The dictionaries of an assigner have the keys that
    [define_task_assignments] gives them. *)
Definition well_keyed (a : Assigner.t) : Prop :=
  (forall col, col ∈ Assigner.authorized_cols a ->
               is_Some (Assigner.collaborator_tasks a !! col))
  /\ (forall col, col ∈ Assigner.collaborators_to_assign a ->
                  is_Some (Assigner.collaborator_tasks a !! col))
  /\ (forall task, task ∈ Assigner.all_tasks_in_groups a ->
                   is_Some (Assigner.collaborators_for_task a !! task))
  /\ (forall g task, g ∈ Assigner.task_groups a -> task ∈ Assigner.tasks g ->
                     task ∈ Assigner.all_tasks_in_groups a).

(** The slices of the drawn permutation that the groups take, one
    after the other, given how many each takes. *)
Fixpoint selections (perm : list nat) (col_idx : Z) (counts : list Z)
  : list (list nat) :=
  match counts with
  | [] => []
  | k :: counts' =>
      slice perm col_idx (col_idx + k) :: selections perm (col_idx + k) counts'
  end.

(** [[cta[i] for i in idxs]] *)
Definition pick (cta : list string) (idxs : list nat) : list string :=
  omap (fun i => cta !! i) idxs.

Definition Zsum (l : list Z) : Z := foldr Z.add 0%Z l.

(** How often a task is listed in a group. *)
Definition occurrences (t : string) (l : list string) : nat :=
  length (filter (fun x => x = t) l).

(** The collaborators of a task in a round, given what each group
    selected: every group's selection, once per listing of the task in
    the group, in the order of the groups. *)
Definition expected_for_task (t : string)
    (gs : list (Assigner.TaskGroup * list string)) : list string :=
  concat ((fun p => concat (replicate (occurrences t (Assigner.tasks p.1)) p.2)) <$> gs).

(** [same_shape a a']: the plan settings, the assignee list and the
    key sets of the two dictionaries are those of [a]. *)
Definition same_shape (a a' : Assigner.t) : Prop :=
  Assigner.task_groups a' = Assigner.task_groups a
  /\ Assigner.authorized_cols a' = Assigner.authorized_cols a
  /\ Assigner.rounds a' = Assigner.rounds a
  /\ Assigner.all_tasks_in_groups a' = Assigner.all_tasks_in_groups a
  /\ Assigner.collaborators_to_assign a' = Assigner.collaborators_to_assign a
  /\ (forall k, is_Some (Assigner.collaborator_tasks a' !! k)
                <-> is_Some (Assigner.collaborator_tasks a !! k))
  /\ (forall k, is_Some (Assigner.collaborators_for_task a' !! k)
                <-> is_Some (Assigner.collaborators_for_task a !! k)).

(** The collaborators that the groups select in a round with the
    drawn permutation [perm], given how many each group takes. *)
Definition group_selections (cta : list string) (perm : list nat) (counts : list Z)
  : list (list string) :=
  pick cta <$> selections perm 0 counts.

(** Round [r] of the reverse lookup has been reset. *)
Definition pending (r : nat) (a : Assigner.t) : Prop :=
  forall task, task ∈ Assigner.all_tasks_in_groups a ->
    lookup2 (Assigner.collaborators_for_task a) task r = Some [].

(** Round [r] holds the assignment in which the groups have the
    selections [gs]. *)
Definition assigned (gs : list (Assigner.TaskGroup * list string)) (r : nat)
    (a : Assigner.t) : Prop :=
  (forall task, task ∈ Assigner.all_tasks_in_groups a ->
     lookup2 (Assigner.collaborators_for_task a) task r
     = Some (expected_for_task task gs))
  /\ (NoDup (Assigner.collaborators_to_assign a) ->
      forall i g sel c, gs !! i = Some (g, sel) -> c ∈ sel ->
        lookup2 (Assigner.collaborator_tasks a) c r = Some (Assigner.tasks g)).

(** *** Vocabulary of the further properties *)

(** [keyed d keys n]: the nested dictionary [d] has exactly the outer
    keys [keys], and under each of them exactly the rounds below [n]. *)
Definition keyed (d : gmap string (gmap nat (list string))) (keys : list string)
    (n : nat) : Prop :=
  (forall k, is_Some (d !! k) <-> k ∈ keys)
  /\ (forall k r, is_Some (lookup2 d k r) <-> k ∈ keys /\ r < n).

(** The dictionaries of an assigner are keyed as [define_task_assignments]
    leaves them: by the authorized collaborators, resp. the tasks of
    the groups, and by every round of the experiment. *)
Definition rounds_keyed (a : Assigner.t) : Prop :=
  keyed (Assigner.collaborator_tasks a) (Assigner.authorized_cols a) (Assigner.rounds a)
  /\ keyed (Assigner.collaborators_for_task a) (Assigner.all_tasks_in_groups a)
       (Assigner.rounds a).

(** The plan settings of [a'] are those of [a]. *)
Definition same_plan (a a' : Assigner.t) : Prop :=
  Assigner.task_groups a' = Assigner.task_groups a
  /\ Assigner.authorized_cols a' = Assigner.authorized_cols a
  /\ Assigner.rounds a' = Assigner.rounds a
  /\ Assigner.all_tasks_in_groups a' = Assigner.all_tasks_in_groups a.

(** The test of the assertion in [define_task_assignments]. *)
Definition percentages_accepted (groups : list Assigner.TaskGroup) : bool :=
  PrimFloat.ltb
    (PrimFloat.abs (PrimFloat.sub 1%float
                      (Assigner.np_sum (Assigner.percentage <$> groups))))
    0x1.47ae147ae147bp-7%float.

(** The assigner once [define_task_assignments] has keyed its
    dictionaries. *)
Definition with_assignment_keys (a : Assigner.t) : Assigner.t :=
  let all := remove_dups (concat (Assigner.tasks <$> Assigner.task_groups a)) in
  let fresh := Assigner.empty_rounds (Assigner.rounds a) in
  Assigner.set_collaborator_tasks
    (foldl (fun d col => <[col := fresh]> d) (Assigner.collaborator_tasks a)
       (Assigner.authorized_cols a))
    (Assigner.set_collaborators_for_task
       (foldl (fun d task => <[task := fresh]> d) (Assigner.collaborators_for_task a) all)
       (Assigner.set_all_tasks_in_groups all a)).

(** One call of [end_of_round], with the permutations it draws. *)
Record round_end : Type := {
  available : list string;
  stragglers : list string;
  next_round : nat;
  draw : nat -> list nat;
}.

(** The assigner after the given calls of [end_of_round], each having
    returned or raised. *)
Definition after_round_ends (ends : list round_end) (a : Assigner.t) : Assigner.t :=
  foldl (fun a e => state_of (Assigner.end_of_round (available e) (stragglers e)
                                (next_round e) (draw e) a)) a ends.

(** The queues of pending membership changes are consistent: no pair
    is queued twice or in both queues, a queued addition is not yet
    authorized and a queued removal is. *)
Definition pending_consistent {A P Store V}
    (s : Aggregator.t A P Store V) : Prop :=
  NoDup (Aggregator.collaborators_to_add s)
  /\ NoDup (Aggregator.collaborators_to_remove s)
  /\ (forall p, p ∈ Aggregator.collaborators_to_add s ->
                p ∉ Aggregator.collaborators_to_remove s)
  /\ (forall p, p ∈ Aggregator.collaborators_to_add s ->
                p.2 ∉ Aggregator.authorized_cols s)
  /\ (forall p, p ∈ Aggregator.collaborators_to_remove s ->
                p.2 ∈ Aggregator.authorized_cols s).

(** [l.remove(cn)] for each [cn] in turn; the first one that is
    missing raises. *)
Definition remove_each (cns : list string) (l : list string) : exn + list string :=
  foldl (fun acc cn => match acc with
                       | inl e => inl e
                       | inr l' => list_remove cn l'
                       end) (inr l) cns.

(** The attributes of the aggregator outside the tensor machinery:
    all but the store, the best score and the metric queue. *)
Definition outside_tensors {A P Store V} (s : Aggregator.t A P Store V) :=
  (Aggregator.round_number s, Aggregator.rounds_to_train s,
   Aggregator._end_of_round_check_done s,
   Aggregator.straggler_handling_policy_started_for_round s,
   Aggregator.stragglers s, Aggregator.available_collaborators s,
   Aggregator.authorized_cols s, Aggregator.assigner s,
   Aggregator.quit_job_sent_to s, Aggregator.straggler_handling_policy s,
   Aggregator.collaborator_tasks_results s, Aggregator.collaborator_task_weight s,
   Aggregator.collaborators_done s, Aggregator.collaborator_start_time s,
   Aggregator.collaborator_end_time s, Aggregator.previous_round_status s,
   Aggregator.first_col_start s, Aggregator.admins_endpoints_mapping s,
   Aggregator.collaborators_to_add s, Aggregator.collaborators_to_remove s).

(** What a new round starts from, apart from the membership. *)
Definition round_start_view {A P Store V} (s : Aggregator.t A P Store V) :=
  (Aggregator.round_number s, Aggregator.previous_round_status s,
   Aggregator.stragglers s, Aggregator.available_collaborators s,
   Aggregator.collaborators_done s,
   Aggregator.straggler_handling_policy_started_for_round s,
   Aggregator.collaborator_start_time s, Aggregator.collaborator_end_time s,
   Aggregator.first_col_start s, Aggregator.collaborators_to_add s,
   Aggregator.collaborators_to_remove s, Aggregator.quit_job_sent_to s).

(** A call of a method of the cutoff-time policy that changes it. *)
Inductive policy_call (C : Type) : Type :=
| StartPolicy (now : Q) (callback : C)
| SetStragglerCutoffTime (now : Q) (straggler_cutoff_time : Cutoff.seconds)
| ResetPolicyForRound.
Arguments StartPolicy {C} now callback.
Arguments SetStragglerCutoffTime {C} now straggler_cutoff_time.
Arguments ResetPolicyForRound {C}.

(** The policy after the given calls, each having returned or raised. *)
Definition policy_after {C} (calls : list (policy_call C)) (p : Cutoff.t C)
  : Cutoff.t C :=
  foldl (fun p call =>
           match call with
           | StartPolicy now cb => state_of (Cutoff.start_policy now cb p)
           | SetStragglerCutoffTime now v =>
               state_of (Cutoff.set_straggler_cutoff_time now v p)
           | ResetPolicyForRound => state_of (Cutoff.reset_policy_for_round p)
           end) p calls.

(** The number stored for an argument under one of ['min'], ['max']
    and ['value']. *)
Definition arg_number (d : DynamicArgs.t) (task_name arg_name field : string)
  : option Q :=
  d ≫= fun m => m !! task_name ≫= fun args => args !! arg_name ≫= fun spec =>
  spec !! field.

(** Every argument that has all three numbers has its value between
    its minimum and its maximum. *)
Definition within_bounds (d : DynamicArgs.t) : Prop :=
  forall task_name arg_name lo hi value,
    arg_number d task_name arg_name "min" = Some lo ->
    arg_number d task_name arg_name "max" = Some hi ->
    arg_number d task_name arg_name "value" = Some value ->
    (lo <= value <= hi)%Q.

End Spec.

(** * Properties *)

(** ** Rules of the program logic *)

Section PyFacts.

Context {S : Type}.

Lemma wp_ret {A} (a : A) (Q : A -> S -> Prop) E s : Q a s -> wp (ret a) Q E s.
Proof. exact id. Qed.

Lemma wp_raise {A} e (Q : A -> S -> Prop) (E : exn -> S -> Prop) s :
  E e s -> wp (raise e) Q E s.
Proof. exact id. Qed.

Lemma wp_gets {A} (f : S -> A) (Q : A -> S -> Prop) E s :
  Q (f s) s -> wp (gets f) Q E s.
Proof. exact id. Qed.

Lemma wp_modify (f : S -> S) (Q : unit -> S -> Prop) E s :
  Q tt (f s) -> wp (modify f) Q E s.
Proof. exact id. Qed.

Lemma wp_lift {A} (r : exn + A) (Q : A -> S -> Prop) (E : exn -> S -> Prop) s :
  match r with inl e => E e s | inr a => Q a s end -> wp (lift r) Q E s.
Proof. unfold wp, lift. now destruct r. Qed.

Lemma wp_assert (c : bool) (Q : unit -> S -> Prop) (E : exn -> S -> Prop) s :
  (if c then Q tt s else E AssertionError s) -> wp (assert c) Q E s.
Proof. unfold wp, assert. now destruct c. Qed.

Lemma wp_bind {A B} (m : py S A) (k : A -> py S B) (Q : B -> S -> Prop) E s :
  wp m (fun a s' => wp (k a) Q E s') E s -> wp (bind m k) Q E s.
Proof. unfold wp, bind. now destruct (m s). Qed.

Lemma wp_bind_inv {A B} (m : py S A) (k : A -> py S B) (Q : B -> S -> Prop) E s :
  wp (bind m k) Q E s -> wp m (fun a s' => wp (k a) Q E s') E s.
Proof. unfold wp, bind. now destruct (m s). Qed.

Lemma wp_mono {A} (m : py S A) (Q Q' : A -> S -> Prop) (E E' : exn -> S -> Prop) s :
  wp m Q E s ->
  (forall a s', Q a s' -> Q' a s') ->
  (forall e s', E e s' -> E' e s') ->
  wp m Q' E' s.
Proof. unfold wp. destruct (m s); eauto. Qed.

Lemma wp_zoom {T A} (get : S -> T) (set : T -> S -> S) (m : py T A)
    (Q : A -> S -> Prop) (E : exn -> S -> Prop) s :
  wp m (fun a t' => Q a (set t' s)) (fun e t' => E e (set t' s)) (get s) ->
  wp (zoom get set m) Q E s.
Proof. unfold wp, zoom. now destruct (m (get s)). Qed.

(** A [for] loop with an invariant that may mention the elements
    already visited. *)
Lemma wp_for_ {X} (I : list X -> S -> Prop) (l : list X) (body : X -> py S unit)
    (Q : unit -> S -> Prop) (E : exn -> S -> Prop) s :
  I [] s ->
  (forall pre x post s', l = pre ++ x :: post -> I pre s' ->
     wp (body x) (fun _ s'' => I (pre ++ [x]) s'') E s') ->
  (forall s', I l s' -> Q tt s') ->
  wp (for_ l body) Q E s.
Proof.
  intros H0 Hbody Hpost.
  enough (Hgen : forall done rest s', l = done ++ rest -> I done s' ->
            wp (for_ rest body) Q E s').
  { apply (Hgen [] l); [reflexivity | exact H0]. }
  intros done rest. revert done.
  induction rest as [|x rest IH]; intros done s' Hl Hd; simpl.
  - apply wp_ret, Hpost. rewrite Hl, app_nil_r. exact Hd.
  - apply wp_bind. eapply wp_mono; [apply (Hbody done x rest s' Hl Hd) | | auto].
    intros [] s'' Hs''. apply (IH (done ++ [x])); [|exact Hs''].
    now rewrite <- app_assoc.
Qed.

Lemma wp_fold_ {X B} (I : list X -> B -> S -> Prop) (l : list X) (acc : B)
    (body : B -> X -> py S B) (Q : B -> S -> Prop) (E : exn -> S -> Prop) s :
  I [] acc s ->
  (forall pre x post b s', l = pre ++ x :: post -> I pre b s' ->
     wp (body b x) (fun b' s'' => I (pre ++ [x]) b' s'') E s') ->
  (forall b s', I l b s' -> Q b s') ->
  wp (fold_ l acc body) Q E s.
Proof.
  intros H0 Hbody Hpost.
  enough (Hgen : forall done rest b s', l = done ++ rest -> I done b s' ->
            wp (fold_ rest b body) Q E s').
  { apply (Hgen [] l); [reflexivity | exact H0]. }
  intros done rest. revert done.
  induction rest as [|x rest IH]; intros done b s' Hl Hd; simpl.
  - apply wp_ret, Hpost. rewrite Hl, app_nil_r. exact Hd.
  - apply wp_bind. eapply wp_mono; [apply (Hbody done x rest b s' Hl Hd) | | auto].
    intros b' s'' Hs''. apply (IH (done ++ [x])); [|exact Hs''].
    now rewrite <- app_assoc.
Qed.

(** From [preserves] to [wp] and back. *)
Lemma preserves_wp {A} (R : S -> S -> Prop) (m : py S A) s :
  preserves R m -> wp m (fun _ s' => R s s') (fun _ s' => R s s') s.
Proof. intros Hp. specialize (Hp s). unfold wp. now destruct (m s). Qed.

Lemma wp_preserves {A} (R : S -> S -> Prop) (m : py S A) :
  (forall s, wp m (fun _ s' => R s s') (fun _ s' => R s s') s) -> preserves R m.
Proof. intros Hw s. specialize (Hw s). unfold wp in Hw. now destruct (m s). Qed.

Section Preorder.

Context (R : S -> S -> Prop) `{!Reflexive R, !Transitive R}.

Lemma preserves_ret {A} (a : A) : preserves R (ret a).
Proof. intros s. simpl. reflexivity. Qed.

Lemma preserves_raise {A} e : preserves R (@raise S A e).
Proof. intros s. simpl. reflexivity. Qed.

Lemma preserves_gets {A} (f : S -> A) : preserves R (gets f).
Proof. intros s. simpl. reflexivity. Qed.

Lemma preserves_lift {A} (r : exn + A) : preserves R (lift r).
Proof. intros s. unfold lift. destruct r; simpl; reflexivity. Qed.

Lemma preserves_assert c : preserves R (@assert S c).
Proof. intros s. unfold assert. destruct c; simpl; reflexivity. Qed.

Lemma preserves_modify (f : S -> S) : (forall s, R s (f s)) -> preserves R (modify f).
Proof. intros Hf s. apply Hf. Qed.

Lemma preserves_bind {A B} (m : py S A) (k : A -> py S B) :
  preserves R m -> (forall a, preserves R (k a)) -> preserves R (bind m k).
Proof.
  intros Hm Hk s. specialize (Hm s). unfold bind.
  destruct (m s) as [a s'|e s']; simpl in *; [|exact Hm].
  etransitivity; [exact Hm | apply Hk].
Qed.

Lemma preserves_for_ {X} (l : list X) (body : X -> py S unit) :
  (forall x, preserves R (body x)) -> preserves R (for_ l body).
Proof.
  intros Hb. induction l as [|x l IH]; simpl.
  - apply preserves_ret.
  - apply preserves_bind; [apply Hb | intros _; exact IH].
Qed.

Lemma preserves_fold_ {X B} (l : list X) (acc : B) (body : B -> X -> py S B) :
  (forall b x, preserves R (body b x)) -> preserves R (fold_ l acc body).
Proof.
  intros Hb. revert acc. induction l as [|x l IH]; intros acc; simpl.
  - apply preserves_ret.
  - apply preserves_bind; [apply Hb | intros b; apply IH].
Qed.

Lemma preserves_zoom {T A} (get : S -> T) (set : T -> S -> S) (m : py T A) :
  (forall t' s, R s (set t' s)) -> preserves R (zoom get set m).
Proof. intros Hs s. unfold zoom. destruct (m (get s)); simpl; apply Hs. Qed.

(** A step whose code reads the current state, like
    [self.f(self.x)]. *)
Lemma preserves_self {A} (m : S -> py S A) :
  (forall s0, preserves R (m s0)) -> preserves R (fun s => m s s).
Proof. intros Hm s. apply (Hm s s). Qed.

End Preorder.

End PyFacts.

(** ** The cutoff-time straggler policy *)

Section CutoffFacts.

Context {C : Type}.
Implicit Types (p : Cutoff.t C) (v : Cutoff.seconds) (now : Q).

Lemma Qgtb_true (a b : Q) : Cutoff.Qgtb a b = true <-> (b < a)%Q.
Proof.
  unfold Cutoff.Qgtb. destruct (Qlt_le_dec b a) as [Hlt|Hle].
  - tauto.
  - split; [discriminate|]. intros Hlt. exfalso. exact (Qlt_not_le _ _ Hlt Hle).
Qed.

Lemma max_finite_clamp (q : Q) :
  Cutoff.max (Cutoff.Finite q) (Cutoff.Finite Cutoff.MINIMUM_CUTOFF_SECONDS)
  = Cutoff.Finite (Qmax q 20).
Proof.
  unfold Cutoff.max, Cutoff.gtb, Cutoff.MINIMUM_CUTOFF_SECONDS, Qmax, GenericMinMax.gmax.
  destruct (Cutoff.Qgtb 20 q) eqn:Hg.
  - apply Qgtb_true in Hg. pose proof (proj1 (Qlt_alt q 20) Hg) as Hc.
    now rewrite Hc.
  - destruct (q ?= 20)%Q eqn:Hc; try reflexivity.
    pose proof (proj2 (Qlt_alt q 20) Hc) as Hlt.
    apply Qgtb_true in Hlt. congruence.
Qed.

Lemma max_effective v :
  Cutoff.max v (Cutoff.Finite Cutoff.MINIMUM_CUTOFF_SECONDS) = Spec.effective_cutoff v.
Proof. destruct v; [apply max_finite_clamp | reflexivity]. Qed.

Lemma set_straggler_cutoff_time_stores now v p :
  Cutoff.straggler_cutoff_time
    (state_of (Cutoff.set_straggler_cutoff_time now v p))
  = Cutoff.max v (Cutoff.Finite Cutoff.MINIMUM_CUTOFF_SECONDS).
Proof.
  destruct p as [rst cut mr tm cb].
  unfold Cutoff.set_straggler_cutoff_time, Cutoff.reset_policy_for_round,
    Cutoff._set_cutoff_time, bind, modify, gets, raise, ret. simpl.
  destruct (Cutoff.__straggler_time_expired _ _); simpl.
  - destruct cb; reflexivity.
  - destruct rst; simpl; [|reflexivity]. destruct cb; reflexivity.
Qed.

Lemma expired_iff now p :
  Cutoff.__straggler_time_expired now p = true <->
  exists t0 c, Cutoff.round_start_time p = Some t0
               /\ Cutoff.straggler_cutoff_time p = Cutoff.Finite c
               /\ (c < now - t0)%Q.
Proof.
  unfold Cutoff.__straggler_time_expired.
  destruct (Cutoff.round_start_time p) as [t0|].
  - destruct (Cutoff.straggler_cutoff_time p) as [c|]; simpl.
    + rewrite Qgtb_true. split.
      * intros Hlt. exists t0, c. auto.
      * intros (t0' & c' & Ht & Hc & Hlt). congruence.
    + split; [discriminate|]. intros (? & ? & _ & Hc & _). discriminate.
  - split; [discriminate|]. intros (? & ? & Ht & _). discriminate.
Qed.

(** C9. For a finite requested cutoff [q] the constructor and
    [set_straggler_cutoff_time] both leave [straggler_cutoff_time] at
    [max(q, 20)]; a requested [np.inf] is kept, and with it the policy
    never arms a timer, never records a round start and never reports
    the cutoff as reached. *)
Theorem cutoff_time_is_clamped v :
  (forall rst mr, (0 < mr)%Z ->
     exists p, Cutoff.init (C:=C) rst v mr = inr p
               /\ Cutoff.straggler_cutoff_time p = Spec.effective_cutoff v)
  /\ (forall now p,
        Cutoff.straggler_cutoff_time
          (state_of (Cutoff.set_straggler_cutoff_time now v p))
        = Spec.effective_cutoff v)
  /\ (forall q, v = Cutoff.Finite q ->
        Spec.effective_cutoff v = Cutoff.Finite (Qmax q 20)
        /\ (20 <= Qmax q 20)%Q /\ (q <= Qmax q 20)%Q)
  /\ (v = Cutoff.Inf ->
        Spec.effective_cutoff v = Cutoff.Inf
        /\ forall p, Cutoff.straggler_cutoff_time p = Cutoff.Inf ->
             (forall now cb, Cutoff.start_policy now cb p = Ok tt p)
             /\ (forall now done total,
                   Cutoff.straggler_cutoff_check now done total p = false)).
Proof.
  split; [|split; [|split]].
  - intros rst mr Hmr. unfold Cutoff.init.
    destruct (mr <=? 0)%Z eqn:Hle; [apply Z.leb_le in Hle; lia|].
    eexists. split; [reflexivity|]. simpl. apply max_effective.
  - intros now p. rewrite set_straggler_cutoff_time_stores. apply max_effective.
  - intros q ->. simpl. repeat split; [apply Q.le_max_r | apply Q.le_max_l].
  - intros ->. split; [reflexivity|]. intros p Hinf. split.
    + intros now cb. unfold Cutoff.start_policy, bind, gets.
      rewrite Hinf. reflexivity.
    + intros now done total. unfold Cutoff.straggler_cutoff_check.
      destruct (Cutoff.__straggler_time_expired now p) eqn:He; [|reflexivity].
      apply expired_iff in He. destruct He as (? & ? & _ & Hc & _). congruence.
Qed.


End CutoffFacts.

(** ** Pending membership changes and the admin gate *)

Section AdminFacts.

Context {A P Store V NT AggT : Type}.
Context `{!AssignerI.Ops A AggT, !PolicyI.Ops P, !TensorI.Ops Store V NT AggT}.
Implicit Types (s : Aggregator.t A P Store V) (srv : Server.t A P Store V).

(** No tuple of a queue equals a string, so removing a string from a
    queue always fails. *)
Lemma queue_remove_str (cn : string) (queue : list (string * string)) :
  Aggregator.queue_remove (Aggregator.PStr cn) queue = inl ValueError.
Proof.
  induction queue as [|e queue IH]; [reflexivity|].
  cbn [Aggregator.queue_remove].
  destruct (decide (Aggregator.PTuple e.1 e.2 = Aggregator.PStr cn)) as [Heq|_];
    [discriminate Heq|].
  now rewrite IH.
Qed.

Lemma queue_contains_snoc (x : Aggregator.pyval) queue (e : string * string) :
  Aggregator.queue_contains x (queue ++ [e])
  = Aggregator.queue_contains x queue || bool_decide (Aggregator.PTuple e.1 e.2 = x).
Proof.
  unfold Aggregator.queue_contains. rewrite existsb_app. simpl.
  now rewrite orb_false_r.
Qed.

(** Whenever [add_collaborator] finds the pair queued for removal it
    raises, and the queue keeps the pair; likewise for
    [remove_collaborator] and the queue of additions. *)
Lemma cancel_raises (label cn : string) s :
  (Aggregator.queue_contains (Aggregator.PTuple label cn)
     (Aggregator.collaborators_to_remove s) = true ->
   Aggregator.add_collaborator label cn s = Raise ValueError s)
  /\ (Aggregator.queue_contains (Aggregator.PTuple label cn)
        (Aggregator.collaborators_to_add s) = true ->
      Aggregator.remove_collaborator label cn s = Raise ValueError s).
Proof.
  split; intros Hin.
  - unfold Aggregator.add_collaborator, bind, gets, lift. rewrite Hin.
    now rewrite queue_remove_str.
  - unfold Aggregator.remove_collaborator, bind, gets, lift. rewrite Hin.
    now rewrite queue_remove_str.
Qed.

(** A fresh request is queued. *)
Lemma add_collaborator_queues (label cn : string) s :
  Aggregator.queue_contains (Aggregator.PTuple label cn)
    (Aggregator.collaborators_to_remove s) = false ->
  Aggregator.queue_contains (Aggregator.PTuple label cn)
    (Aggregator.collaborators_to_add s) = false ->
  cn ∉ Aggregator.authorized_cols s ->
  Aggregator.add_collaborator label cn s
  = Ok tt (Aggregator.set_collaborators_to_add
             (Aggregator.collaborators_to_add s ++ [(label, cn)]) s).
Proof.
  intros Hr Ha Hn. unfold Aggregator.add_collaborator, bind, gets, modify.
  rewrite Hr, Ha. now rewrite bool_decide_eq_false_2.
Qed.

Lemma remove_collaborator_queues (label cn : string) s :
  Aggregator.queue_contains (Aggregator.PTuple label cn)
    (Aggregator.collaborators_to_add s) = false ->
  Aggregator.queue_contains (Aggregator.PTuple label cn)
    (Aggregator.collaborators_to_remove s) = false ->
  cn ∈ Aggregator.authorized_cols s ->
  Aggregator.remove_collaborator label cn s
  = Ok tt (Aggregator.set_collaborators_to_remove
             (Aggregator.collaborators_to_remove s ++ [(label, cn)]) s).
Proof.
  intros Ha Hr Hn. unfold Aggregator.remove_collaborator, bind, gets, modify.
  rewrite Ha, Hr. now rewrite bool_decide_eq_true_2.
Qed.

(** C2 (what the code does). Adding a collaborator and then removing
    it, or removing an authorized one and then adding it back, does not
    cancel: the second call raises [ValueError] out of [list.remove]
    and the first request stays queued. *)
Theorem inverse_request_raises (label cn : string) s :
  Aggregator.collaborators_to_add s = [] ->
  Aggregator.collaborators_to_remove s = [] ->
  (cn ∉ Aggregator.authorized_cols s ->
   exists s1,
     Aggregator.add_collaborator label cn s = Ok tt s1
     /\ Aggregator.remove_collaborator label cn s1 = Raise ValueError s1
     /\ Aggregator.collaborators_to_add s1 = [(label, cn)])
  /\ (cn ∈ Aggregator.authorized_cols s ->
      exists s1,
        Aggregator.remove_collaborator label cn s = Ok tt s1
        /\ Aggregator.add_collaborator label cn s1 = Raise ValueError s1
        /\ Aggregator.collaborators_to_remove s1 = [(label, cn)]).
Proof.
  intros Ha Hr. split; intros Hc.
  - eexists. split; [|split].
    + apply add_collaborator_queues; [now rewrite Hr | now rewrite Ha | exact Hc].
    + apply cancel_raises. destruct s; simpl in *. subst. simpl.
      now rewrite bool_decide_eq_true_2.
    + destruct s; simpl in *. now subst.
  - eexists. split; [|split].
    + apply remove_collaborator_queues; [now rewrite Ha | now rewrite Hr | exact Hc].
    + apply cancel_raises. destruct s; simpl in *. subst. simpl.
      now rewrite bool_decide_eq_true_2.
    + destruct s; simpl in *. now subst.
Qed.

(** C5 (what the code does). [validate_admin] never returns: a failed
    authentication aborts with UNAUTHENTICATED, and otherwise the call
    [valid_admin_endpoint(endpoint_name)], one argument short, raises
    [TypeError], whatever the admin's endpoint set holds.  No admin
    endpoint therefore reaches the aggregator. *)
Theorem validate_admin_never_returns srv (common_name endpoint_name : string)
    (request : Server.AdminRequest) :
  let rejected :=
    Server.tls srv
    && negb (Aggregator.valid_admin_cn_and_id common_name (Server.sender request)
               (Server.aggregator srv)) in
  let failure {X} : outcome (Server.t A P Store V) X :=
    if rejected then Raise (GrpcAbort UNAUTHENTICATED) srv
    else Raise TypeError srv in
  Server.validate_admin common_name request endpoint_name srv = failure
  /\ Server.AddCollaborator common_name request srv = failure
  /\ Server.RemoveCollaborator common_name request srv = failure
  /\ Server.GetExperimentStatus common_name request srv = failure.
Proof.
  assert (Hv : forall ep,
    Server.validate_admin common_name request ep srv
    = if Server.tls srv
         && negb (Aggregator.valid_admin_cn_and_id common_name
                    (Server.sender request) (Server.aggregator srv))
      then Raise (GrpcAbort UNAUTHENTICATED) srv else Raise TypeError srv).
  { intros ep. unfold Server.validate_admin, bind, gets, lift, raise, ret. simpl.
    destruct (Server.tls srv); simpl; [|reflexivity].
    destruct (Aggregator.valid_admin_cn_and_id _ _ _); reflexivity. }
  simpl. repeat split.
  - apply Hv.
  - unfold Server.AddCollaborator, bind. rewrite Hv. now destruct (_ && _).
  - unfold Server.RemoveCollaborator, bind. rewrite Hv. now destruct (_ && _).
  - unfold Server.GetExperimentStatus, bind. rewrite Hv. now destruct (_ && _).
Qed.

End AdminFacts.

(** The federation of one collaborator ["A"]: a request to add ["D"]
    followed by the request to remove it. *)
Lemma inverse_request_raises_witness :
  exists s1,
    Aggregator.add_collaborator "L" "D"
      (Scenario.federation Scenario.one_group ["A"] 2 Cutoff.Inf) = Ok tt s1
    /\ Aggregator.remove_collaborator "L" "D" s1 = Raise ValueError s1
    /\ Aggregator.collaborators_to_add s1 = [("L", "D")].
Proof.
  apply (inverse_request_raises "L" "D"
           (Scenario.federation Scenario.one_group ["A"] 2 Cutoff.Inf));
    [reflexivity | reflexivity |].
  intros Hin. apply list_elem_of_singleton in Hin. discriminate Hin.
Defined.

(** ** Frames: what a method leaves alone *)

Section Keeps.

Context {S X : Type} (f : S -> X).

#[global] Instance keeps_refl : Reflexive (Spec.keeps f).
Proof. intros s. reflexivity. Qed.

#[global] Instance keeps_trans : Transitive (Spec.keeps f).
Proof. intros s1 s2 s3 H12 H23. unfold Spec.keeps in *. congruence. Qed.

Lemma preserves_lift_self {A} (R : S -> S -> Prop) `{!Reflexive R}
    (g : S -> exn + A) :
  preserves R (fun s => lift (g s) s).
Proof. intros s. unfold lift. destruct (g s); simpl; reflexivity. Qed.

Lemma preserves_zoom_self {T A} (R : S -> S -> Prop) (get : S -> T)
    (set : T -> S -> S) (m : S -> py T A) :
  (forall t' s, R s (set t' s)) ->
  preserves R (fun s => zoom get set (m s) s).
Proof. intros Hs s. unfold zoom. destruct (m s (get s)); simpl; apply Hs. Qed.

(** Sequencing under three relations that compose. *)
Lemma preserves_bind_mixed {A B} (R1 R2 R3 : S -> S -> Prop)
    (m : py S A) (k : A -> py S B) :
  (forall x y, R1 x y -> R3 x y) ->
  (forall x y z, R1 x y -> R2 y z -> R3 x z) ->
  preserves R1 m -> (forall a, preserves R2 (k a)) -> preserves R3 (bind m k).
Proof.
  intros H13 H123 Hm Hk s. specialize (Hm s). unfold bind.
  destruct (m s) as [a s'|e s']; simpl in *; [|auto].
  eapply H123; [exact Hm | apply Hk].
Qed.

End Keeps.

Create HintDb keeps_db.

(** Taking a method apart along its control structure. *)
Ltac preserves_setter :=
  intros; unfold Spec.keeps;
  repeat match goal with
         | s : Aggregator.t _ _ _ _ |- _ => destruct s
         end;
  simpl; repeat (case_match; simpl); reflexivity.

Ltac preserves_step :=
  first
    [ apply preserves_ret; tc_solve
    | apply preserves_raise; tc_solve
    | apply preserves_gets; tc_solve
    | apply preserves_lift; tc_solve
    | apply preserves_assert; tc_solve
    | apply preserves_lift_self; tc_solve
    | apply preserves_bind; [tc_solve.. | | intros ?]
    | apply preserves_for_; [tc_solve.. | intros ?]
    | apply preserves_fold_; [tc_solve.. | intros ? ?]
    | apply preserves_zoom; preserves_setter
    | apply preserves_zoom_self; preserves_setter
    | apply preserves_modify; preserves_setter
    | match goal with
      | |- preserves _ (if ?c then _ else _) => destruct c
      | |- preserves _ (match ?x with _ => _ end) => destruct x
      end
    | solve [auto with keeps_db nocore] ].

Ltac preserves_all := repeat preserves_step.

Create HintDb advance_db.

Section AggregatorFrames.

Context {A P Store V NT AggT : Type}.
Context `{!AssignerI.Ops A AggT, !PolicyI.Ops P, !TensorI.Ops Store V NT AggT}.
Implicit Types (s : Aggregator.t A P Store V).

(** Computing the metrics of a task touches the tensor store, the
    metric queue and the best score only. *)
Lemma metrics_keep (task_name : string) :
  preserves (Spec.keeps (Spec.round_state (A:=A) (P:=P) (Store:=Store) (V:=V)))
    (Aggregator._compute_validation_related_task_metrics task_name).
Proof.
  unfold Aggregator._compute_validation_related_task_metrics,
    Aggregator.aggregate_tensor_key.
  preserves_all.
Qed.

Lemma wp_lift_self {A'} (g : Aggregator.t A P Store V -> exn + A')
    (Q : A' -> _ -> Prop) (E : exn -> _ -> Prop) s :
  match g s with inl e => E e s | inr a => Q a s end ->
  wp (fun s0 => lift (g s0) s0) Q E s.
Proof. unfold wp, lift. now destruct (g s). Qed.

#[local] Instance advance_refl : Reflexive (Spec.advance (A:=A) (P:=P) (Store:=Store) (V:=V)).
Proof. intros s. split; [reflexivity|]. left. split; reflexivity. Qed.

Lemma keeps_advance s s' :
  Spec.keeps Spec.round_marks s s' -> Spec.advance s s'.
Proof.
  unfold Spec.keeps, Spec.round_marks. intros Hk. injection Hk as Hr Hf Ht.
  split; [exact Ht|]. left. split; assumption.
Qed.

Lemma keeps_then_advance s1 s2 s3 :
  Spec.keeps Spec.round_marks s1 s2 -> Spec.advance s2 s3 -> Spec.advance s1 s3.
Proof.
  unfold Spec.keeps, Spec.round_marks, Spec.advance.
  intros Hk. injection Hk as Hr Hf Ht. rewrite Hr, Hf, Ht. exact id.
Qed.

Lemma advance_then_keeps s1 s2 s3 :
  Spec.advance s1 s2 -> Spec.keeps Spec.round_marks s2 s3 -> Spec.advance s1 s3.
Proof.
  unfold Spec.keeps, Spec.round_marks, Spec.advance.
  intros Ha Hk. injection Hk as Hr Hf Ht. rewrite Hr, Hf, Ht. exact Ha.
Qed.

(** The tail of [_end_of_round_check], from the call of the assigner's
    [end_of_round] on, leaves the round counter and the guards alone;
    so does everything before the guard is set. *)
Lemma end_of_round_check_advances :
  preserves Spec.advance
    (Aggregator._end_of_round_check (A:=A) (P:=P) (Store:=Store) (V:=V)).
Proof.
  apply wp_preserves. intros s. unfold Aggregator._end_of_round_check.
  apply wp_bind, wp_gets. apply wp_bind, wp_gets. apply wp_bind, wp_lift.
  unfold index.
  destruct (Aggregator._end_of_round_check_done s !! Aggregator.round_number s)
    as [already|] eqn:Hflag; [|reflexivity].
  destruct already; [apply wp_ret; reflexivity|].
  apply wp_bind, wp_lift_self.
  destruct (AssignerI.get_all_tasks_for_round _ _) as [e|all_tasks]; [reflexivity|].
  apply wp_bind.
  eapply wp_mono;
    [apply (preserves_wp (Spec.keeps Spec.round_state)), preserves_for_;
       [tc_solve.. | intros task; apply metrics_keep] | | ].
  2: { intros e s1 Hk. apply keeps_advance. unfold Spec.keeps, Spec.round_marks,
         Spec.round_state in *. congruence. }
  intros [] s1 Hk. cbv beta.
  do 6 (apply wp_bind, wp_modify).
  eapply wp_mono;
    [apply (preserves_wp (Spec.keeps Spec.round_marks)); preserves_all | | ].
  all: intros ? s2 Hk2;
       assert (Hs1 : Aggregator.round_number s1 = Aggregator.round_number s
                     /\ Aggregator._end_of_round_check_done s1
                        = Aggregator._end_of_round_check_done s
                     /\ Aggregator.rounds_to_train s1 = Aggregator.rounds_to_train s)
         by (unfold Spec.keeps, Spec.round_state in Hk; repeat split; congruence);
       destruct Hs1 as (Hr & Hf & Ht);
       unfold Spec.advance; rewrite <- Hr, <- Hf, <- Ht; rewrite <- Hr, <- Hf in Hflag;
       unfold Spec.keeps, Spec.round_marks in Hk2; destruct s1; simpl in *;
       assert (Hs2 : Aggregator.round_number s2 = round_number + 1
                     /\ Aggregator._end_of_round_check_done s2
                        = <[round_number := true]> _end_of_round_check_done
                     /\ Aggregator.rounds_to_train s2 = rounds_to_train)
         by (repeat split; congruence);
       destruct Hs2 as (Hr2 & Hf2 & Ht2);
       (split; [exact Ht2|]); right;
       (split; [lia|]); (split; [assumption|exact Hf2]).
Qed.

#[local] Hint Resolve end_of_round_check_advances : advance_db.

(** A method made of frame-respecting steps around one call that may
    run the end-of-round work. *)
Ltac advance_step :=
  first
    [ solve [auto with advance_db nocore]
    | apply preserves_ret; tc_solve
    | apply preserves_raise; tc_solve
    | apply (preserves_bind_mixed (Spec.keeps Spec.round_marks)
               Spec.advance Spec.advance);
        [ apply keeps_advance | apply keeps_then_advance
        | solve [preserves_all] | intros ? ]
    | match goal with
      | |- preserves _ (if ?c then _ else _) => destruct c
      | |- preserves _ (match ?x with _ => _ end) => destruct x
      end ].

Lemma end_round_due_to_stragglers_advances :
  preserves Spec.advance
    (Aggregator._end_round_due_to_stragglers (A:=A) (P:=P) (Store:=Store) (V:=V)).
Proof. unfold Aggregator._end_round_due_to_stragglers. repeat advance_step. Qed.

#[local] Hint Resolve end_round_due_to_stragglers_advances : advance_db.

Lemma straggler_cutoff_time_elapsed_advances now :
  preserves Spec.advance
    (Aggregator._straggler_cutoff_time_elapsed (A:=A) (P:=P) (Store:=Store) (V:=V) now).
Proof. unfold Aggregator._straggler_cutoff_time_elapsed. repeat advance_step. Qed.

#[local] Hint Resolve straggler_cutoff_time_elapsed_advances : advance_db.

Lemma send_local_task_results_advances now c r task d (nts : list NT) :
  preserves Spec.advance
    (Aggregator.send_local_task_results (A:=A) (P:=P) (Store:=Store) (V:=V)
       now c r task d nts).
Proof.
  unfold Aggregator.send_local_task_results, Aggregator.receive_named_tensor,
    Aggregator._is_collaborator_done.
  repeat advance_step.
Qed.

Lemma set_straggler_cutoff_time_advances now v :
  preserves Spec.advance
    (Aggregator.set_straggler_cutoff_time (A:=A) (P:=P) (Store:=Store) (V:=V) now v).
Proof.
  unfold Aggregator.set_straggler_cutoff_time.
  destruct PolicyI.set_straggler_cutoff_time as [method|];
    [|apply preserves_ret; tc_solve].
  advance_step.
  apply (preserves_bind_mixed Spec.advance (Spec.keeps Spec.round_marks) Spec.advance);
    [ auto | apply advance_then_keeps | repeat advance_step
    | intros ?; solve [preserves_all] ].
Qed.

Lemma get_tasks_keeps_marks now c :
  preserves (Spec.keeps Spec.round_marks)
    (Aggregator.get_tasks (A:=A) (P:=P) (Store:=Store) (V:=V) now c).
Proof. unfold Aggregator.get_tasks. preserves_all. Qed.

Lemma add_collaborator_keeps_marks label cn :
  preserves (Spec.keeps Spec.round_marks)
    (Aggregator.add_collaborator (A:=A) (P:=P) (Store:=Store) (V:=V) label cn).
Proof. unfold Aggregator.add_collaborator. preserves_all. Qed.

Lemma remove_collaborator_keeps_marks label cn :
  preserves (Spec.keeps Spec.round_marks)
    (Aggregator.remove_collaborator (A:=A) (P:=P) (Store:=Store) (V:=V) label cn).
Proof. unfold Aggregator.remove_collaborator. preserves_all. Qed.

Lemma get_aggregated_tensor_keeps_marks c n r rep tg rl :
  preserves (Spec.keeps Spec.round_marks)
    (Aggregator.get_aggregated_tensor (A:=A) (P:=P) (Store:=Store) (V:=V) (NT:=NT)
       c n r rep tg rl).
Proof. unfold Aggregator.get_aggregated_tensor. preserves_all. Qed.

Lemma get_experiment_status_keeps_marks :
  preserves (Spec.keeps Spec.round_marks)
    (Aggregator.get_experiment_status (A:=A) (P:=P) (Store:=Store) (V:=V)).
Proof. unfold Aggregator.get_experiment_status. preserves_all. Qed.

Lemma stop_keeps_marks failed :
  preserves (Spec.keeps Spec.round_marks)
    (Aggregator.stop (A:=A) (P:=P) (Store:=Store) (V:=V) failed).
Proof. unfold Aggregator.stop. preserves_all. Qed.

(** Every event leaves the counter and the guards alone or completes
    the current round. *)
Lemma step_advances now (ev : Aggregator.event NT) s :
  Spec.advance s (Aggregator.step now ev s).
Proof.
  destruct ev; cbn [Aggregator.step].
  - apply keeps_advance, get_tasks_keeps_marks.
  - apply keeps_advance, get_aggregated_tensor_keeps_marks.
  - apply send_local_task_results_advances.
  - apply keeps_advance, add_collaborator_keeps_marks.
  - apply keeps_advance, remove_collaborator_keeps_marks.
  - apply keeps_advance, get_experiment_status_keeps_marks.
  - apply set_straggler_cutoff_time_advances.
  - apply straggler_cutoff_time_elapsed_advances.
  - apply keeps_advance, stop_keeps_marks.
Qed.

End AggregatorFrames.

(** ** The round counter *)

Section RoundCounter.

Context {A P Store V NT AggT : Type}.
Context `{!AssignerI.Ops A AggT, !PolicyI.Ops P, !TensorI.Ops Store V NT AggT}.
Implicit Types (s : Aggregator.t A P Store V) (evs : list (Q * Aggregator.event NT)).

Lemma advance_le s s' :
  Spec.advance s s' -> Aggregator.round_number s <= Aggregator.round_number s'.
Proof. intros [_ [[Hr _]|[Hr _]]]; lia. Qed.

Lemma run_monotone evs s :
  Aggregator.round_number s <= Aggregator.round_number (Aggregator.run evs s).
Proof.
  revert s. induction evs as [|[now ev] evs IH]; intros s; simpl; [lia|].
  pose proof (advance_le _ _ (step_advances now ev s)). specialize (IH (Aggregator.step now ev s)).
  lia.
Qed.

Lemma completions_bound (r : nat) evs s :
  Spec.completions r evs s
  <= if decide (Aggregator.round_number s <= r) then 1 else 0.
Proof.
  revert s. induction evs as [|[now ev] evs IH]; intros s; simpl.
  - destruct (decide _); lia.
  - pose proof (advance_le _ _ (step_advances now ev s)) as Hle.
    specialize (IH (Aggregator.step now ev s)).
    destruct (decide (Aggregator.round_number (Aggregator.step now ev s) <= r));
      destruct (decide (Aggregator.round_number s <= r));
      case_bool_decide; lia.
Qed.

Lemma end_of_round_check_guarded s :
  Aggregator._end_of_round_check_done s !! Aggregator.round_number s = Some true ->
  Aggregator._end_of_round_check s = Ok tt s.
Proof.
  intros Hflag. unfold Aggregator._end_of_round_check, bind, gets, lift, index.
  now rewrite Hflag.
Qed.


(** ** Quitting *)

Lemma set_eq_iff (a b : list string) :
  Aggregator.set_eq a b = true <-> forall x, x ∈ a <-> x ∈ b.
Proof.
  unfold Aggregator.set_eq. rewrite bool_decide_eq_true. split.
  - intros Heq x. rewrite <- (elem_of_list_to_set (C:=gset string) x a),
      <- (elem_of_list_to_set (C:=gset string) x b). now rewrite Heq.
  - intros Hx. apply set_eq. intros x. rewrite !elem_of_list_to_set. apply Hx.
Qed.

(** C7, as the code has it. Once [round_number >= rounds_to_train],
    [get_tasks] appends the caller to [quit_job_sent_to] and replies
    [(None, round_number, 0, True)]; and [all_quit_jobs_sent] holds
    exactly when [quit_job_sent_to] and [authorized_cols] have the same
    elements. *)
Theorem quit_reply_and_stop_condition now (c : string) s :
  Aggregator.rounds_to_train s <= Aggregator.round_number s ->
  (exists s',
     Aggregator.get_tasks now c s = Ok (None, Aggregator.round_number s, 0, true) s'
     /\ Aggregator.quit_job_sent_to s' = Aggregator.quit_job_sent_to s ++ [c]
     /\ c ∈ Aggregator.quit_job_sent_to s'
     /\ c ∈ Aggregator.available_collaborators s'
     /\ Spec.keeps Spec.round_marks s s')
  /\ (forall s0 : Aggregator.t A P Store V,
        Aggregator.all_quit_jobs_sent s0 = true <->
        forall x, x ∈ Aggregator.quit_job_sent_to s0
                  <-> x ∈ Aggregator.authorized_cols s0).
Proof.
  intros Hquit. split; [|intros s0; apply set_eq_iff].
  unfold Aggregator.get_tasks, bind, modify, gets, ret.
  set (s1 := if bool_decide (c ∈ Aggregator.available_collaborators s) then s
             else Aggregator.set_available_collaborators
                    (Aggregator.available_collaborators s ++ [c]) s).
  assert (Hs1 : Aggregator.round_number s1 = Aggregator.round_number s
                /\ Aggregator.rounds_to_train s1 = Aggregator.rounds_to_train s
                /\ Aggregator._end_of_round_check_done s1
                   = Aggregator._end_of_round_check_done s
                /\ Aggregator.quit_job_sent_to s1 = Aggregator.quit_job_sent_to s
                /\ c ∈ Aggregator.available_collaborators s1).
  { subst s1. case_bool_decide as Hin; [now repeat split|].
    destruct s; simpl. repeat split. set_solver. }
  destruct Hs1 as (Hr & Ht & Hf & Hq & Ha).
  unfold Aggregator._time_to_quit. rewrite Hr, Ht.
  rewrite (bool_decide_eq_true_2 _ Hquit).
  clearbody s1. destruct s1; simpl in *. subst.
  eexists. split; [reflexivity|]. simpl.
  repeat split; try set_solver.
Qed.

End RoundCounter.

(** In a federation with no round left, ["A"] asks for tasks. *)
Lemma quit_reply_and_stop_condition_witness :
  exists s',
    Aggregator.get_tasks 0 "A" Scenario.finished
    = Ok (None, Aggregator.round_number Scenario.finished, 0, true) s'
    /\ Aggregator.quit_job_sent_to s'
       = Aggregator.quit_job_sent_to Scenario.finished ++ ["A"]
    /\ "A" ∈ Aggregator.quit_job_sent_to s'
    /\ "A" ∈ Aggregator.available_collaborators s'
    /\ Spec.keeps Spec.round_marks Scenario.finished s'.
Proof.
  apply (quit_reply_and_stop_condition 0 "A" Scenario.finished).
  vm_compute. reflexivity.
Defined.

(** C7, the stop condition as claimed, refuted: after the quit signal
    went to ["A"] and to ["X"], the quit list contains every authorized
    collaborator, yet [all_quit_jobs_sent] is false. *)
Lemma stop_condition_is_not_superset :
  (forall x, x ∈ Aggregator.authorized_cols Scenario.after_quits ->
             x ∈ Aggregator.quit_job_sent_to Scenario.after_quits)
  /\ Aggregator.all_quit_jobs_sent Scenario.after_quits = false.
Proof.
  split; [|vm_compute; reflexivity].
  change (Aggregator.authorized_cols Scenario.after_quits) with ["A"].
  change (Aggregator.quit_job_sent_to Scenario.after_quits) with ["A"; "X"].
  intros x Hx. apply list_elem_of_singleton in Hx. subst x. apply list_elem_of_here.
Qed.

(** ** Submissions *)

Section Submissions.

Context {A P Store V NT AggT : Type}.
Context `{!AssignerI.Ops A AggT, !PolicyI.Ops P, !TensorI.Ops Store V NT AggT}.
Implicit Types (s : Aggregator.t A P Store V) (evs : list (Q * Aggregator.event NT)).

#[local] Instance kept_refl : Reflexive (Spec.kept (A:=A) (P:=P) (Store:=Store) (V:=V)).
Proof. intros s key ks Hk. now split. Qed.

#[local] Instance kept_trans : Transitive (Spec.kept (A:=A) (P:=P) (Store:=Store) (V:=V)).
Proof.
  intros s1 s2 s3 H12 H23 key ks Hk.
  destruct (H12 key ks Hk) as [Hr Hw]. destruct (H23 key ks Hr) as [Hr' Hw'].
  split; [exact Hr' | congruence].
Qed.

Lemma keeps_kept s s' : Spec.keeps Spec.submissions s s' -> Spec.kept s s'.
Proof.
  unfold Spec.keeps, Spec.submissions. intros Hk key ks Hlook.
  injection Hk as Hr Hw. rewrite Hr, Hw. now split.
Qed.

Lemma end_of_round_check_keeps_submissions :
  preserves (Spec.keeps Spec.submissions)
    (Aggregator._end_of_round_check (A:=A) (P:=P) (Store:=Store) (V:=V)).
Proof.
  unfold Aggregator._end_of_round_check,
    Aggregator._compute_validation_related_task_metrics,
    Aggregator.aggregate_tensor_key.
  preserves_all.
Qed.

#[local] Hint Resolve end_of_round_check_keeps_submissions : keeps_db.

Lemma straggler_cutoff_time_elapsed_keeps_submissions now :
  preserves (Spec.keeps Spec.submissions)
    (Aggregator._straggler_cutoff_time_elapsed (A:=A) (P:=P) (Store:=Store) (V:=V) now).
Proof.
  unfold Aggregator._straggler_cutoff_time_elapsed,
    Aggregator._end_round_due_to_stragglers.
  preserves_all.
Qed.

#[local] Hint Resolve straggler_cutoff_time_elapsed_keeps_submissions : keeps_db.

(** A submission under a key not yet recorded leaves every recorded
    submission as it is. *)
Lemma kept_after_insert s s' (key : Types.TaskResultKey) tr d :
  Aggregator.collaborator_tasks_results s !! key = None ->
  (Aggregator.collaborator_tasks_results s' = Aggregator.collaborator_tasks_results s
   \/ Aggregator.collaborator_tasks_results s'
      = <[key := tr]> (Aggregator.collaborator_tasks_results s)) ->
  Aggregator.collaborator_task_weight s'
  = <[key := d]> (Aggregator.collaborator_task_weight s) ->
  Spec.kept s s'.
Proof.
  intros Hnone Hres Hw key' ks Hlook.
  assert (key <> key') by congruence.
  rewrite Hw, lookup_insert_ne by assumption.
  destruct Hres as [-> | ->]; [|rewrite lookup_insert_ne by assumption]; now split.
Qed.

Lemma send_local_task_results_kept now c r task d (nts : list NT) :
  preserves Spec.kept
    (Aggregator.send_local_task_results (A:=A) (P:=P) (Store:=Store) (V:=V)
       now c r task d nts).
Proof.
  apply wp_preserves. intros s. unfold Aggregator.send_local_task_results.
  apply wp_bind, wp_gets. apply wp_bind, wp_gets.
  destruct (_ || _); [apply wp_ret; reflexivity|].
  apply wp_bind, wp_gets. destruct (negb _); [apply wp_ret; reflexivity|].
  apply wp_bind, wp_gets.
  destruct (Aggregator._collaborator_task_completed c task r s) eqn:Hc;
    [apply wp_raise; reflexivity|].
  unfold Aggregator._collaborator_task_completed in Hc.
  apply bool_decide_eq_false in Hc. rewrite <- eq_None_not_Some in Hc.
  apply wp_bind, wp_modify. apply wp_bind.
  eapply wp_mono;
    [apply (preserves_wp (Spec.keeps Spec.submissions));
       unfold Aggregator.receive_named_tensor; preserves_all | | ].
  2: { intros e s2 Hk. unfold Spec.keeps, Spec.submissions in Hk.
       destruct s; simpl in *. injection Hk as Hr Hw.
       apply (kept_after_insert _ _ (Types.mkTaskResultKey task c r) [] d); simpl;
         [exact Hc | left; exact Hr | exact Hw]. }
  intros task_results s2 Hk. cbv beta.
  apply wp_bind, wp_modify. apply wp_bind, wp_modify. apply wp_bind, wp_gets.
  assert (Hs2 : Aggregator.collaborator_tasks_results s2
                = Aggregator.collaborator_tasks_results s
                /\ Aggregator.collaborator_task_weight s2
                   = <[Types.mkTaskResultKey task c r := d]>
                       (Aggregator.collaborator_task_weight s)).
  { unfold Spec.keeps, Spec.submissions in Hk. destruct s; simpl in *.
    injection Hk as Hr Hw. now split. }
  destruct Hs2 as [Hr2 Hw2].
  set (s3 := if bool_decide _ then _ else _).
  assert (Hs3 : Aggregator.collaborator_tasks_results s3
                = <[Types.mkTaskResultKey task c r := task_results]>
                    (Aggregator.collaborator_tasks_results s)
                /\ Aggregator.collaborator_task_weight s3
                   = <[Types.mkTaskResultKey task c r := d]>
                       (Aggregator.collaborator_task_weight s)).
  { subst s3. rewrite <- Hr2, <- Hw2. destruct s2; simpl.
    case_bool_decide; simpl; now split. }
  destruct Hs3 as [Hr3 Hw3]. clearbody s3.
  assert (Hfin : forall s', Spec.keeps Spec.submissions s3 s' -> Spec.kept s s').
  { intros s' Hk'. unfold Spec.keeps, Spec.submissions in Hk'.
    injection Hk' as Hr' Hw'.
    apply (kept_after_insert s s' (Types.mkTaskResultKey task c r) task_results d);
      [exact Hc | right; congruence | congruence]. }
  destruct (Aggregator.first_col_start s3) as [t0|];
    [|apply wp_bind, wp_raise, Hfin; reflexivity].
  apply wp_bind, wp_ret.
  eapply wp_mono;
    [apply (preserves_wp (Spec.keeps Spec.submissions));
       unfold Aggregator._is_collaborator_done,
         Aggregator._end_round_due_to_stragglers; preserves_all
    | intros; apply Hfin; assumption | intros; apply Hfin; assumption ].
Qed.

Lemma preserves_at {X} (R : relation (Aggregator.t A P Store V))
    (m : py (Aggregator.t A P Store V) X) s :
  preserves R m -> R s (state_of (m s)).
Proof. intros Hp. apply Hp. Qed.

Lemma step_kept now (ev : Aggregator.event NT) s :
  Spec.kept s (Aggregator.step now ev s).
Proof.
  destruct ev; cbn [Aggregator.step];
    try apply send_local_task_results_kept; apply keeps_kept.
  - apply preserves_at.
    unfold Aggregator.get_tasks. preserves_all.
  - apply preserves_at.
    unfold Aggregator.get_aggregated_tensor. preserves_all.
  - apply preserves_at.
    unfold Aggregator.add_collaborator. preserves_all.
  - apply preserves_at.
    unfold Aggregator.remove_collaborator. preserves_all.
  - apply preserves_at.
    unfold Aggregator.get_experiment_status. preserves_all.
  - apply preserves_at.
    unfold Aggregator.set_straggler_cutoff_time. preserves_all.
  - apply straggler_cutoff_time_elapsed_keeps_submissions.
  - apply preserves_at.
    unfold Aggregator.stop. preserves_all.
Qed.

Lemma run_kept evs s : Spec.kept s (Aggregator.run evs s).
Proof.
  revert s. induction evs as [|[now ev] evs IH]; intros s; simpl; [reflexivity|].
  etransitivity; [apply step_kept | apply IH].
Qed.

(** C3, as the code has it. Once a submission is recorded under
    [TaskResultKey(task, c, r)], a further [send_local_task_results]
    with the same triple is never accepted: it is discarded with a
    warning when the aggregator is quitting, the collaborator is a
    straggler or round [r] is no longer current, and it raises the
    duplicate-result [ValueError] otherwise; either way the aggregator
    is left exactly as it was.  Whatever happens afterwards, the result
    keys and the weight recorded under the key stay as they are. *)
Theorem duplicate_submission_is_not_accepted now (c : string) (r : nat)
    (task : string) (d : Z) (nts : list NT) s ks :
  Aggregator.collaborator_tasks_results s !! Types.mkTaskResultKey task c r = Some ks ->
  Aggregator.send_local_task_results now c r task d nts s
  = (if Aggregator._time_to_quit s
        || bool_decide (c ∈ Aggregator.stragglers s)
        || negb (bool_decide (Aggregator.round_number s = r))
     then Ok tt s else Raise ValueError s)
  /\ forall evs,
       Aggregator.collaborator_tasks_results (Aggregator.run evs s)
         !! Types.mkTaskResultKey task c r = Some ks
       /\ Aggregator.collaborator_task_weight (Aggregator.run evs s)
            !! Types.mkTaskResultKey task c r
          = Aggregator.collaborator_task_weight s !! Types.mkTaskResultKey task c r.
Proof.
  intros Hrec. split; [|intros evs; apply (run_kept evs s), Hrec].
  unfold Aggregator.send_local_task_results, bind, gets, ret, raise.
  destruct (Aggregator._time_to_quit s || bool_decide (c ∈ Aggregator.stragglers s));
    [reflexivity|].
  simpl. destruct (negb _); [reflexivity|].
  unfold Aggregator._collaborator_task_completed.
  rewrite bool_decide_eq_true_2; [reflexivity|]. now rewrite Hrec.
Qed.

End Submissions.

(** With ["B"] still to report, ["A"] submits its task of round 0 a
    second time. *)
Lemma duplicate_submission_is_not_accepted_witness :
  Aggregator.collaborator_tasks_results Scenario.one_reported
    !! Types.mkTaskResultKey "train" "A" 0 = Some []
  /\ Aggregator.send_local_task_results 2 "A" 0 "train" 10 [] Scenario.one_reported
     = Raise ValueError Scenario.one_reported.
Proof.
  split; [vm_compute; reflexivity|].
  refine (eq_trans
            (proj1 (duplicate_submission_is_not_accepted 2 "A" 0 "train" 10 []
                      Scenario.one_reported [] _)) _);
    vm_compute; reflexivity.
Defined.

(** C3, the error as claimed, refuted: ["A"] is the only collaborator,
    so its submission ended round 0; the same submission sent again is
    not answered by the duplicate-result error but returns, having been
    ignored. *)
Lemma late_duplicate_returns_without_error :
  Aggregator.collaborator_tasks_results Scenario.round_over
    !! Types.mkTaskResultKey "train" "A" 0 = Some []
  /\ Aggregator.send_local_task_results 2 "A" 0 "train" 10 [] Scenario.round_over
     = Ok tt Scenario.round_over.
Proof. split; vm_compute; reflexivity. Qed.

(** ** The metrics at the end of a round *)

Section EndOfRoundMetrics.

Context {A P Store V NT AggT : Type}.
Context `{!AssignerI.Ops A AggT, !PolicyI.Ops P, !TensorI.Ops Store V NT AggT}.
Implicit Types (s : Aggregator.t A P Store V).

Lemma traverse_zip {X Y} (f : X -> exn + Y) (l : list X) (ys : list Y) :
  traverse f l = inr ys ->
  length ys = length l /\ forall x y, (x, y) ∈ zip l ys -> f x = inr y.
Proof.
  revert ys. induction l as [|x l IH]; intros ys Ht; simpl in Ht.
  - injection Ht as <-. split; [reflexivity|]. intros x y Hin. inversion Hin.
  - destruct (f x) as [e|y] eqn:Hfx; [discriminate|].
    destruct (traverse f l) as [e|ys'] eqn:Hl; [discriminate|].
    injection Ht as <-. destruct (IH ys' eq_refl) as [Hlen Hall].
    split; [simpl; now rewrite Hlen|].
    intros x0 y0 Hin. simpl in Hin. apply elem_of_cons in Hin as [Heq|Hin].
    + now injection Heq as -> ->.
    + now apply Hall.
Qed.

Lemma dict_sum_nonneg (d : gmap string Z) :
  (forall k w, d !! k = Some w -> (0 <= w)%Z) -> (0 <= Aggregator.dict_sum d)%Z.
Proof.
  unfold Aggregator.dict_sum.
  apply (map_fold_weak_ind
           (fun r (m : gmap string Z) =>
              (forall k w, m !! k = Some w -> (0 <= w)%Z) -> (0 <= r)%Z)).
  - intros _. lia.
  - intros k w m r Hnone IH Hall.
    assert (0 <= w)%Z by (apply (Hall k); apply lookup_insert_eq).
    assert (0 <= r)%Z.
    { apply IH. intros k' w' Hk'. apply (Hall k').
      rewrite lookup_insert_ne; [exact Hk'|]. intros ->. congruence. }
    lia.
Qed.

(** A [for] loop over steps that respect a frame: if the loop returns,
    every step returned, from a state the frame relates to the start. *)
Lemma for_returns_inv {S X F} (f : S -> F) (l : list X) (body : X -> py S unit)
    (st st1 : S) :
  (forall x, preserves (Spec.keeps f) (body x)) ->
  for_ l body st = Ok tt st1 ->
  forall x, x ∈ l -> exists stx stx', Spec.keeps f st stx /\ body x stx = Ok tt stx'.
Proof.
  intros Hframe. revert st. induction l as [|y l IH]; intros st Hrun x Hin.
  - inversion Hin.
  - simpl in Hrun. unfold bind in Hrun.
    destruct (body y st) as [[] sty|e sty] eqn:Hy; [|discriminate].
    apply elem_of_cons in Hin as [->|Hin].
    + exists st, sty. split; [reflexivity | exact Hy].
    + destruct (IH sty Hrun x Hin) as (stx & stx' & Hk & Hx).
      exists stx, stx'. split; [|exact Hx].
      pose proof (Hframe y st) as Hk0. rewrite Hy in Hk0. simpl in Hk0.
      etransitivity; eassumption.
Qed.

(** ... and if one of the steps raises wherever the frame holds, the
    loop raises. *)
Lemma for_raises {S X F} (f : S -> F) (l : list X) (body : X -> py S unit)
    (st : S) (x : X) :
  (forall y, preserves (Spec.keeps f) (body y)) ->
  x ∈ l ->
  (forall stx, Spec.keeps f st stx -> exists e, body x stx = Raise e stx) ->
  exists e st', for_ l body st = Raise e st' /\ Spec.keeps f st st'.
Proof.
  intros Hframe. revert st. induction l as [|y l IH]; intros st Hin Hx.
  - inversion Hin.
  - simpl. unfold bind.
    pose proof (Hframe y st) as Hk0.
    destruct (body y st) as [[] sty|e sty] eqn:Hy; simpl in Hk0.
    + apply elem_of_cons in Hin as [->|Hin].
      * destruct (Hx st) as [e He]; [reflexivity|]. congruence.
      * destruct (IH sty Hin) as (e & st' & Hrun & Hk).
        { intros stx Hsx. apply Hx. etransitivity; eassumption. }
        exists e, st'. split; [exact Hrun | etransitivity; eassumption].
    + exists e, sty. split; [reflexivity | exact Hk0].
Qed.

(** What a successful metric computation for one task presupposes. *)
Lemma metrics_return_inv (task_name : string) s s' :
  Aggregator._compute_validation_related_task_metrics task_name s = Ok tt s' ->
  exists cols ws,
    AssignerI.get_collaborators_for_task task_name (Aggregator.round_number s)
      (Aggregator.assigner s) = inr cols
    /\ Aggregator.done_collaborators_for_task cols s <> []
    /\ Aggregator.weights_unnormalized task_name (Aggregator.round_number s)
         (Aggregator.done_collaborators_for_task cols s) s = inr ws
    /\ Aggregator.dict_sum ws <> 0%Z
    /\ forall c w, ws !! c = Some w ->
         Aggregator.collaborator_task_weight s
           !! Types.mkTaskResultKey task_name c (Aggregator.round_number s) = Some w.
Proof.
  unfold Aggregator._compute_validation_related_task_metrics, bind, gets, lift.
  destruct (AssignerI.get_collaborators_for_task _ _ _) as [e|cols]; [discriminate|].
  destruct (Aggregator.weights_unnormalized _ _ _ _) as [e|ws] eqn:Hws; [discriminate|].
  destruct (Aggregator.normalize _ _) as [e|wd] eqn:Hnorm; [discriminate|].
  destruct (AssignerI.get_aggregation_type_for_task _ _) as [e|agg]; [discriminate|].
  destruct (index _ 0) as [e|c0] eqn:Hidx; [discriminate|].
  intros _. exists cols, ws.
  assert (Hne : Aggregator.done_collaborators_for_task cols s <> []).
  { unfold index in Hidx. intros Hnil. rewrite Hnil in Hidx. discriminate. }
  split; [reflexivity|]. split; [exact Hne|]. split; [exact Hws|].
  unfold Aggregator.weights_unnormalized in Hws.
  destruct (traverse _ _) as [e|vals] eqn:Htr; [discriminate|].
  injection Hws as <-. destruct (traverse_zip _ _ _ Htr) as [Hlen Hvals].
  split.
  - unfold Aggregator.normalize in Hnorm.
    case_bool_decide as Hempty.
    + destruct (Aggregator.done_collaborators_for_task cols s) as [|c1 dn];
        [contradiction|].
      destruct vals as [|v vals]; [discriminate Hlen|].
      simpl in Hempty. exfalso. exact (insert_non_empty _ _ _ Hempty).
    + case_bool_decide; [discriminate|assumption].
  - intros c w Hlook. apply elem_of_list_to_map_2 in Hlook.
    specialize (Hvals c w Hlook). unfold getitem in Hvals.
    destruct (Aggregator.collaborator_task_weight s !! _); congruence.
Qed.

(** With no collaborator of the task done, the computation raises
    before touching anything. *)
Lemma metrics_raise_without_done (task_name : string) s cols :
  AssignerI.get_collaborators_for_task task_name (Aggregator.round_number s)
    (Aggregator.assigner s) = inr cols ->
  (forall c, c ∈ cols -> c ∉ Aggregator.collaborators_done s) ->
  exists e, Aggregator._compute_validation_related_task_metrics task_name s
            = Raise e s.
Proof.
  intros Hcols Hnone.
  assert (Hdone : Aggregator.done_collaborators_for_task cols s = []).
  { unfold Aggregator.done_collaborators_for_task.
    destruct (filter _ cols) as [|c rest] eqn:Hf; [reflexivity|].
    assert (Hin : c ∈ filter (fun c => c ∈ Aggregator.collaborators_done s) cols)
      by (rewrite Hf; apply list_elem_of_here).
    apply list_elem_of_filter in Hin as [Hd Hc]. now destruct (Hnone c Hc). }
  unfold Aggregator._compute_validation_related_task_metrics, bind, gets, lift.
  rewrite Hcols, Hdone. simpl.
  unfold Aggregator.normalize. rewrite bool_decide_eq_true_2 by reflexivity.
  destruct (AssignerI.get_aggregation_type_for_task task_name (Aggregator.assigner s))
    as [e|agg]; eauto.
Qed.

Lemma round_state_fields s s' :
  Spec.keeps Spec.round_state s s' ->
  Aggregator.round_number s' = Aggregator.round_number s
  /\ Aggregator._end_of_round_check_done s' = Aggregator._end_of_round_check_done s
  /\ Aggregator.assigner s' = Aggregator.assigner s
  /\ Aggregator.collaborators_done s' = Aggregator.collaborators_done s
  /\ Aggregator.collaborator_task_weight s' = Aggregator.collaborator_task_weight s.
Proof. unfold Spec.keeps, Spec.round_state. intros Hk. repeat split; congruence. Qed.


End EndOfRoundMetrics.


(** ** The assigner at the end of a round *)

Section SortedFacts.

Lemma str_le_iff (a b : string) : str_le a b <-> String_as_OT.lt a b \/ a = b.
Proof.
  unfold str_le, String.leb.
  change (String.compare a b) with (String_as_OT.compare a b).
  pose proof (StrictOrder_Irreflexive (R:=String_as_OT.lt)) as Hirr.
  pose proof (StrictOrder_Transitive (R:=String_as_OT.lt)) as Htr.
  destruct (String_as_OT.compare_spec a b) as [Hab|Hab|Hab].
  - split; [right; exact Hab | reflexivity].
  - split; [left; exact Hab | reflexivity].
  - split; [discriminate|]. intros [Hlt| ->]; exfalso.
    + exact (Hirr a (Htr _ _ _ Hlt Hab)).
    + exact (Hirr b Hab).
Qed.

#[local] Instance str_le_trans : Transitive str_le.
Proof.
  intros a b c. rewrite !str_le_iff.
  pose proof (StrictOrder_Transitive (R:=String_as_OT.lt)) as Htr.
  intros [Hab| ->] [Hbc| ->]; eauto.
Qed.

#[local] Instance str_le_total : Total str_le.
Proof. intros a b. apply String.leb_total. Qed.

#[local] Instance str_le_antisym : AntiSymm eq str_le.
Proof. intros a b. apply String.leb_antisym. Qed.

(** Two lists sort to the same list exactly when they are
    permutations of each other. *)
Lemma sorted_eq_iff (l1 l2 : list string) : sorted l1 = sorted l2 <-> l1 ≡ₚ l2.
Proof.
  unfold sorted. split.
  - intros Heq. rewrite <- (merge_sort_Permutation str_le l1),
      <- (merge_sort_Permutation str_le l2). now rewrite Heq.
  - intros Hperm. apply (StronglySorted_unique str_le).
    + apply StronglySorted_merge_sort; tc_solve.
    + apply StronglySorted_merge_sort; tc_solve.
    + now rewrite !merge_sort_Permutation.
Qed.

End SortedFacts.

Section AssignerFrames.

Implicit Types (a : Assigner.t) (d : gmap string (gmap nat (list string))).

#[local] Instance earlier_refl from : Reflexive (Spec.earlier_rounds_kept from).
Proof. intros a. split; [reflexivity|]. intros r _ k. now split. Qed.

#[local] Instance earlier_trans from : Transitive (Spec.earlier_rounds_kept from).
Proof.
  intros a1 a2 a3 [Hc12 H12] [Hc23 H23]. split; [congruence|].
  intros r Hr k. destruct (H12 r Hr k) as [? ?]. destruct (H23 r Hr k) as [? ?].
  split; congruence.
Qed.

(** Writing round [i] of one key leaves every other round as it was. *)
Lemma lookup2_insert_round d (k : string) (inner : gmap nat (list string))
    (i : nat) (v : list string) (k' : string) (r : nat) :
  d !! k = Some inner -> r <> i ->
  Spec.lookup2 (<[k := <[i := v]> inner]> d) k' r = Spec.lookup2 d k' r.
Proof.
  intros Hk Hne. unfold Spec.lookup2.
  destruct (decide (k' = k)) as [->|Hkk].
  - rewrite lookup_insert_eq, Hk. simpl. now rewrite lookup_insert_ne.
  - now rewrite lookup_insert_ne.
Qed.

Lemma preserves_for_in {S X} (R : S -> S -> Prop) `{!Reflexive R, !Transitive R}
    (l : list X) (body : X -> py S unit) :
  (forall x, x ∈ l -> preserves R (body x)) -> preserves R (for_ l body).
Proof.
  induction l as [|x l IH]; intros Hb; simpl.
  - apply preserves_ret; tc_solve.
  - apply preserves_bind; [tc_solve | apply Hb, list_elem_of_here |].
    intros _. apply IH. intros y Hy. apply Hb. now apply list_elem_of_further.
Qed.

Lemma preserves_fold_in {S X B} (R : S -> S -> Prop) `{!Reflexive R, !Transitive R}
    (l : list X) (acc : B) (body : B -> X -> py S B) :
  (forall b x, x ∈ l -> preserves R (body b x)) -> preserves R (fold_ l acc body).
Proof.
  revert acc. induction l as [|x l IH]; intros acc Hb; simpl.
  - apply preserves_ret; tc_solve.
  - apply preserves_bind; [tc_solve | apply Hb, list_elem_of_here |].
    intros b. apply IH. intros b' y Hy. apply Hb. now apply list_elem_of_further.
Qed.

Lemma elem_of_range (a b i : nat) : i ∈ range a b <-> a <= i < b.
Proof. unfold range. rewrite elem_of_seq. lia. Qed.

Lemma store_collaborator_tasks_frame from col i v :
  from <= i ->
  preserves (Spec.earlier_rounds_kept from) (Assigner.store_collaborator_tasks col i v).
Proof.
  intros Hle a. unfold Assigner.store_collaborator_tasks, bind, gets, lift, getitem, modify.
  destruct (Assigner.collaborator_tasks a !! col) as [inner|] eqn:Hcol; simpl;
    [|reflexivity].
  destruct a; simpl in *. split; [reflexivity|]. intros r Hr k. simpl. split; [|reflexivity].
  apply lookup2_insert_round; [exact Hcol | lia].
Qed.

Lemma store_collaborators_for_task_frame from task i v :
  from <= i ->
  preserves (Spec.earlier_rounds_kept from)
    (Assigner.store_collaborators_for_task task i v).
Proof.
  intros Hle a.
  unfold Assigner.store_collaborators_for_task, bind, gets, lift, getitem, modify.
  destruct (Assigner.collaborators_for_task a !! task) as [inner|] eqn:Htask; simpl;
    [|reflexivity].
  destruct a; simpl in *. split; [reflexivity|]. intros r Hr k. simpl. split; [reflexivity|].
  apply lookup2_insert_round; [exact Htask | lia].
Qed.

Lemma extend_collaborators_for_task_frame from task i v :
  from <= i ->
  preserves (Spec.earlier_rounds_kept from)
    (Assigner.extend_collaborators_for_task task i v).
Proof.
  intros Hle a.
  unfold Assigner.extend_collaborators_for_task, bind, gets, lift, getitem, modify.
  destruct (Assigner.collaborators_for_task a !! task) as [inner|] eqn:Htask; simpl;
    [|reflexivity].
  destruct (inner !! i) as [old|]; simpl; [|reflexivity].
  destruct a; simpl in *. split; [reflexivity|]. intros r Hr k. simpl. split; [reflexivity|].
  apply lookup2_insert_round; [exact Htask | lia].
Qed.

Lemma assign_round_frame from n rng i :
  from <= i ->
  preserves (Spec.earlier_rounds_kept from) (Assigner.assign_round n rng i).
Proof.
  intros Hle. unfold Assigner.assign_round, Assigner.assign_group.
  apply preserves_bind; [tc_solve | apply preserves_gets; tc_solve | intros groups].
  apply preserves_bind; [tc_solve | | intros ?; apply preserves_assert; tc_solve].
  apply preserves_fold_; [tc_solve.. |]. intros idx g.
  apply preserves_bind; [tc_solve | apply preserves_lift; tc_solve | intros num].
  apply preserves_bind; [tc_solve | apply preserves_gets; tc_solve | intros cta].
  apply preserves_bind; [tc_solve | apply preserves_lift; tc_solve | intros sel].
  apply preserves_bind; [tc_solve | | intros _].
  { apply preserves_modify. intros a. destruct a; simpl.
    split; [reflexivity|]. intros r _ k. now split. }
  apply preserves_bind; [tc_solve | | intros _].
  { apply preserves_for_; [tc_solve.. |]. intros col.
    now apply store_collaborator_tasks_frame. }
  apply preserves_bind; [tc_solve | | intros _; apply preserves_ret; tc_solve].
  apply preserves_for_; [tc_solve.. |]. intros task.
  now apply extend_collaborators_for_task_frame.
Qed.

(** [assign_tasks(from_round)] rewrites rounds from [from_round] on
    only, whether it returns or raises. *)
Lemma assign_tasks_frame from rng :
  preserves (Spec.earlier_rounds_kept from) (Assigner.assign_tasks from rng).
Proof.
  unfold Assigner.assign_tasks.
  apply preserves_bind; [tc_solve | apply preserves_gets; tc_solve | intros cols].
  apply preserves_bind; [tc_solve | apply preserves_gets; tc_solve | intros n].
  apply preserves_bind; [tc_solve | | intros _].
  { apply preserves_for_; [tc_solve.. |]. intros col.
    apply preserves_bind; [tc_solve | apply preserves_gets; tc_solve | intros cta].
    case_bool_decide; [apply preserves_ret; tc_solve|].
    apply preserves_for_in; [tc_solve.. |]. intros i Hi.
    apply store_collaborator_tasks_frame. apply elem_of_range in Hi. lia. }
  apply preserves_bind; [tc_solve | apply preserves_gets; tc_solve | intros all_tasks].
  apply preserves_bind; [tc_solve | | intros _].
  { apply preserves_for_; [tc_solve.. |]. intros task.
    apply preserves_for_in; [tc_solve.. |]. intros i Hi.
    apply store_collaborators_for_task_frame. apply elem_of_range in Hi. lia. }
  apply preserves_bind; [tc_solve | apply preserves_gets; tc_solve | intros size].
  apply preserves_for_in; [tc_solve.. |]. intros i Hi.
  apply assign_round_frame. apply elem_of_range in Hi. lia.
Qed.

End AssignerFrames.

Section EndOfRound.

Implicit Types (a : Assigner.t).

(** The two getters read the nested dictionaries through [lookup2]. *)
Lemma get_tasks_for_collaborator_lookup2 (c : string) (r : nat) a :
  Assigner.get_tasks_for_collaborator c r a
  = match Spec.lookup2 (Assigner.collaborator_tasks a) c r with
    | Some l => inr l
    | None => inl KeyError
    end.
Proof.
  unfold Assigner.get_tasks_for_collaborator, Spec.lookup2, getitem.
  destruct (Assigner.collaborator_tasks a !! c) as [inner|]; simpl; [|reflexivity].
  now destruct (inner !! r).
Qed.

Lemma get_collaborators_for_task_lookup2 (t : string) (r : nat) a :
  Assigner.get_collaborators_for_task t r a
  = match Spec.lookup2 (Assigner.collaborators_for_task a) t r with
    | Some l => inr l
    | None => inl KeyError
    end.
Proof.
  unfold Assigner.get_collaborators_for_task, Spec.lookup2, getitem.
  destruct (Assigner.collaborators_for_task a !! t) as [inner|]; simpl; [|reflexivity].
  now destruct (inner !! r).
Qed.

Lemma end_of_round_unchanged a available stragglers next_round rng :
  filter (fun col => col ∉ stragglers) available ≡ₚ Assigner.collaborators_to_assign a ->
  Assigner.end_of_round available stragglers next_round rng a = Ok tt a.
Proof.
  intros Hperm. unfold Assigner.end_of_round, bind, gets.
  rewrite bool_decide_eq_true_2; [reflexivity|]. now apply sorted_eq_iff.
Qed.

Lemma end_of_round_changed a available stragglers next_round rng :
  ~ filter (fun col => col ∉ stragglers) available
    ≡ₚ Assigner.collaborators_to_assign a ->
  Assigner.end_of_round available stragglers next_round rng a
  = Assigner.assign_tasks next_round rng
      (Assigner.set_collaborators_to_assign
         (filter (fun col => col ∉ stragglers) available) a).
Proof.
  intros Hperm. unfold Assigner.end_of_round, bind, gets, modify.
  rewrite bool_decide_eq_false_2; [reflexivity|]. now rewrite sorted_eq_iff.
Qed.


End EndOfRound.

(** ** The partition of the assignees among the groups *)

(** ** Task assignment *)

Section Dictionaries.

Implicit Types (d : gmap string (gmap nat (list string))).

Lemma upd2_keys d k r v k' : is_Some (Spec.upd2 d k r v !! k') <-> is_Some (d !! k').
Proof.
  unfold Spec.upd2. destruct (d !! k) as [inner|] eqn:Hk; [|reflexivity].
  destruct (decide (k' = k)) as [->|Hne].
  - rewrite lookup_insert_eq, Hk. split; eauto.
  - now rewrite lookup_insert_ne.
Qed.

Lemma lookup2_upd2 d k r v k' r' :
  is_Some (d !! k) ->
  Spec.lookup2 (Spec.upd2 d k r v) k' r'
  = if decide (k' = k /\ r' = r) then Some v else Spec.lookup2 d k' r'.
Proof.
  intros [inner Hk]. unfold Spec.upd2, Spec.lookup2. rewrite Hk.
  destruct (decide (k' = k)) as [->|Hne].
  - rewrite lookup_insert_eq. simpl. rewrite Hk. simpl.
    destruct (decide (r' = r)) as [->|Hr].
    + rewrite lookup_insert_eq. now rewrite decide_True.
    + rewrite lookup_insert_ne by congruence. rewrite decide_False by tauto. reflexivity.
  - rewrite lookup_insert_ne by congruence. rewrite decide_False by tauto. reflexivity.
Qed.

Lemma foldl_upd2_keys d r v (cols : list string) k' :
  is_Some (foldl (fun d col => Spec.upd2 d col r v) d cols !! k') <-> is_Some (d !! k').
Proof.
  revert d. induction cols as [|c cols IH]; intros d; simpl; [reflexivity|].
  rewrite IH. apply upd2_keys.
Qed.

Lemma lookup2_foldl_upd2 d r v (cols : list string) k' r' :
  (forall c, c ∈ cols -> is_Some (d !! c)) ->
  Spec.lookup2 (foldl (fun d col => Spec.upd2 d col r v) d cols) k' r'
  = if decide (k' ∈ cols /\ r' = r) then Some v else Spec.lookup2 d k' r'.
Proof.
  revert d. induction cols as [|c cols IH]; intros d Hkeys; cbn [foldl].
  - rewrite decide_False; [reflexivity|]. intros [Hin _]. inversion Hin.
  - rewrite IH.
    2: { intros c' Hc'. apply upd2_keys. apply Hkeys. now apply list_elem_of_further. }
    rewrite lookup2_upd2 by (apply Hkeys, list_elem_of_here).
    destruct (decide (k' ∈ cols /\ r' = r)) as [[Hin ->]|Hn].
    + rewrite decide_True; [reflexivity|]. split; [now apply list_elem_of_further|reflexivity].
    + destruct (decide (k' = c /\ r' = r)) as [[-> ->]|Hn'].
      * rewrite decide_True; [reflexivity|]. split; [apply list_elem_of_here|reflexivity].
      * rewrite decide_False; [reflexivity|]. intros [Hin ->].
        apply elem_of_cons in Hin as [->|Hin]; tauto.
Qed.

Lemma ext2_keys d k r v k' : is_Some (Spec.ext2 d k r v !! k') <-> is_Some (d !! k').
Proof.
  unfold Spec.ext2. destruct (d !! k) as [inner|] eqn:Hk; [|reflexivity].
  destruct (inner !! r); [|reflexivity].
  destruct (decide (k' = k)) as [->|Hne].
  - rewrite lookup_insert_eq, Hk. split; eauto.
  - now rewrite lookup_insert_ne.
Qed.

Lemma lookup2_ext2 d k r v k' r' :
  Spec.lookup2 (Spec.ext2 d k r v) k' r'
  = if decide (k' = k /\ r' = r) then (fun old => old ++ v) <$> Spec.lookup2 d k' r'
    else Spec.lookup2 d k' r'.
Proof.
  unfold Spec.ext2, Spec.lookup2.
  destruct (d !! k) as [inner|] eqn:Hk.
  - destruct (inner !! r) as [old|] eqn:Hr.
    + destruct (decide (k' = k)) as [->|Hne].
      * rewrite lookup_insert_eq. simpl. rewrite Hk. simpl.
        destruct (decide (r' = r)) as [->|Hr'].
        -- rewrite lookup_insert_eq, Hr. now rewrite decide_True.
        -- rewrite lookup_insert_ne by congruence. now rewrite decide_False by tauto.
      * rewrite lookup_insert_ne by congruence. now rewrite decide_False by tauto.
    + destruct (decide (k' = k /\ r' = r)) as [[-> ->]|Hn]; [|reflexivity].
      rewrite Hk. simpl. now rewrite Hr.
  - destruct (decide (k' = k /\ r' = r)) as [[-> ->]|Hn]; [|reflexivity].
    now rewrite Hk.
Qed.

Lemma foldl_ext2_keys d r v (tasks : list string) k' :
  is_Some (foldl (fun d task => Spec.ext2 d task r v) d tasks !! k') <-> is_Some (d !! k').
Proof.
  revert d. induction tasks as [|t tasks IH]; intros d; simpl; [reflexivity|].
  rewrite IH. apply ext2_keys.
Qed.

Lemma lookup2_foldl_ext2 d r v (tasks : list string) k' r' :
  Spec.lookup2 (foldl (fun d task => Spec.ext2 d task r v) d tasks) k' r'
  = if decide (r' = r)
    then (fun old => old ++ concat (replicate (Spec.occurrences k' tasks) v))
           <$> Spec.lookup2 d k' r'
    else Spec.lookup2 d k' r'.
Proof.
  revert d. induction tasks as [|t tasks IH]; intros d; cbn [foldl].
  - cbn [Spec.occurrences filter list_filter length replicate concat].
    destruct (decide (r' = r)); [|reflexivity].
    destruct (Spec.lookup2 d k' r'); simpl; [|reflexivity]. now rewrite app_nil_r.
  - rewrite IH, lookup2_ext2. unfold Spec.occurrences.
    destruct (decide (r' = r)) as [->|Hr].
    + rewrite filter_cons. destruct (decide (t = k')) as [->|Hne].
      * rewrite decide_True by tauto.
        destruct (Spec.lookup2 d k' r); simpl; [|reflexivity].
        now rewrite <- app_assoc.
      * rewrite decide_False; [reflexivity|]. intros [-> _]. congruence.
    + rewrite decide_False by tauto. reflexivity.
Qed.

End Dictionaries.

Section Groups.

Implicit Types (a : Assigner.t) (g : Assigner.TaskGroup) (sel : list string).

#[local] Instance same_shape_refl : Reflexive Spec.same_shape.
Proof. intros a. unfold Spec.same_shape. repeat split; auto. Qed.

#[local] Instance same_shape_trans : Transitive Spec.same_shape.
Proof.
  intros a1 a2 a3 (G1 & A1 & R1 & T1 & C1 & K1 & F1) (G2 & A2 & R2 & T2 & C2 & K2 & F2).
  unfold Spec.same_shape. repeat split; try congruence.
  - intros H. apply K1, K2, H.
  - intros H. apply K2, K1, H.
  - intros H. apply F1, F2, H.
  - intros H. apply F2, F1, H.
Qed.

Lemma well_keyed_shape a a' :
  Spec.same_shape a a' -> Spec.well_keyed a -> Spec.well_keyed a'.
Proof.
  intros (G & Au & R & T & C & K & F) (W1 & W2 & W3 & W4).
  unfold Spec.well_keyed. rewrite G, Au, T, C. repeat split.
  - intros col Hc. apply K, W1, Hc.
  - intros col Hc. apply K, W2, Hc.
  - intros task Ht. apply F, W3, Ht.
  - exact W4.
Qed.

Lemma apply_group_shape r a g sel : Spec.same_shape a (Spec.apply_group r a (g, sel)).
Proof.
  unfold Spec.apply_group, Spec.same_shape. destruct a; simpl.
  split; [reflexivity|]. split; [reflexivity|]. split; [reflexivity|].
  split; [reflexivity|]. split; [reflexivity|]. split.
  - intros k. apply foldl_upd2_keys.
  - intros k. apply foldl_ext2_keys.
Qed.

Lemma apply_group_tasks r a g sel (c : string) (r' : nat) :
  (forall c', c' ∈ sel -> is_Some (Assigner.collaborator_tasks a !! c')) ->
  Spec.lookup2 (Assigner.collaborator_tasks (Spec.apply_group r a (g, sel))) c r'
  = if decide (c ∈ sel /\ r' = r) then Some (Assigner.tasks g)
    else Spec.lookup2 (Assigner.collaborator_tasks a) c r'.
Proof.
  intros Hkeys. unfold Spec.apply_group. destruct a; simpl in *.
  now apply lookup2_foldl_upd2.
Qed.

Lemma apply_group_collaborators r a g sel (t : string) (r' : nat) :
  Spec.lookup2 (Assigner.collaborators_for_task (Spec.apply_group r a (g, sel))) t r'
  = if decide (r' = r)
    then (fun old => old ++ concat (replicate (Spec.occurrences t (Assigner.tasks g)) sel))
           <$> Spec.lookup2 (Assigner.collaborators_for_task a) t r'
    else Spec.lookup2 (Assigner.collaborators_for_task a) t r'.
Proof.
  unfold Spec.apply_group. destruct a; simpl in *. apply lookup2_foldl_ext2.
Qed.

(** The stores of a group, run. *)
Lemma store_collaborator_tasks_run (c : string) (r : nat) (v : list string) a :
  is_Some (Assigner.collaborator_tasks a !! c) ->
  Assigner.store_collaborator_tasks c r v a
  = Ok tt (Assigner.set_collaborator_tasks
             (Spec.upd2 (Assigner.collaborator_tasks a) c r v) a).
Proof.
  intros [inner Hc].
  unfold Assigner.store_collaborator_tasks, bind, gets, lift, getitem, modify, Spec.upd2.
  simpl. now rewrite Hc.
Qed.

Lemma extend_collaborators_for_task_run (t : string) (r : nat) (v : list string) a :
  is_Some (Spec.lookup2 (Assigner.collaborators_for_task a) t r) ->
  Assigner.extend_collaborators_for_task t r v a
  = Ok tt (Assigner.set_collaborators_for_task
             (Spec.ext2 (Assigner.collaborators_for_task a) t r v) a).
Proof.
  intros [old Ht]. unfold Spec.lookup2 in Ht.
  destruct (Assigner.collaborators_for_task a !! t) as [inner|] eqn:Hin;
    [simpl in Ht|discriminate].
  unfold Assigner.extend_collaborators_for_task, bind, gets, lift, getitem, modify,
    Spec.ext2.
  simpl. now rewrite Hin, Ht.
Qed.

Lemma store_tasks_run (r : nat) (v sel : list string) a :
  (forall c, c ∈ sel -> is_Some (Assigner.collaborator_tasks a !! c)) ->
  for_ sel (fun col => Assigner.store_collaborator_tasks col r v) a
  = Ok tt (Assigner.set_collaborator_tasks
             (foldl (fun d col => Spec.upd2 d col r v)
                (Assigner.collaborator_tasks a) sel) a).
Proof.
  revert a. induction sel as [|c sel IH]; intros a Hkeys; cbn [for_ foldl].
  - now destruct a.
  - unfold bind.
    rewrite store_collaborator_tasks_run by (apply Hkeys, list_elem_of_here).
    rewrite IH.
    + now destruct a.
    + intros c' Hc'. destruct a; simpl. apply upd2_keys, Hkeys.
      now apply list_elem_of_further.
Qed.

Lemma extend_tasks_run (r : nat) (sel tasks : list string) a :
  (forall t, t ∈ tasks ->
     is_Some (Spec.lookup2 (Assigner.collaborators_for_task a) t r)) ->
  for_ tasks (fun task => Assigner.extend_collaborators_for_task task r sel) a
  = Ok tt (Assigner.set_collaborators_for_task
             (foldl (fun d task => Spec.ext2 d task r sel)
                (Assigner.collaborators_for_task a) tasks) a).
Proof.
  revert a. induction tasks as [|t tasks IH]; intros a Hkeys; cbn [for_ foldl].
  - now destruct a.
  - unfold bind.
    rewrite extend_collaborators_for_task_run by (apply Hkeys, list_elem_of_here).
    rewrite IH.
    + now destruct a.
    + intros t' Ht'.
      assert (Hold : is_Some (Spec.lookup2 (Assigner.collaborators_for_task a) t' r))
        by (apply Hkeys; now apply list_elem_of_further).
      destruct a; simpl in *. rewrite lookup2_ext2.
      destruct (decide _); [|exact Hold].
      destruct Hold as [x ->]. simpl. eauto.
Qed.

End Groups.

Section Selections.

Implicit Types (perm : list nat) (counts : list Z) (cta : list string).

Lemma slice_exact {X} (l : list X) (i k : Z) :
  (0 <= i)%Z -> (0 <= k)%Z -> (i + k <= Z.of_nat (length l))%Z ->
  slice l i (i + k) = take (Z.to_nat k) (drop (Z.to_nat i) l).
Proof.
  intros Hi Hk Hlen. unfold slice, clamp_bound.
  destruct (Z.ltb_spec i 0); [lia|]. destruct (Z.ltb_spec (i + k) 0); [lia|].
  rewrite !Z.min_l by lia. replace (i + k - i)%Z with k by lia. reflexivity.
Qed.

Lemma slice_subseteq {X} (l : list X) (i j : Z) (x : X) : x ∈ slice l i j -> x ∈ l.
Proof.
  unfold slice. intros Hin. apply elem_of_take in Hin as (n & Hn & _).
  rewrite lookup_drop in Hn. eapply list_elem_of_lookup_2, Hn.
Qed.

Lemma Zsum_nonneg counts : Forall (fun k => (0 <= k)%Z) counts -> (0 <= Spec.Zsum counts)%Z.
Proof. induction 1; simpl; lia. Qed.

Lemma selections_length perm idx counts :
  length (Spec.selections perm idx counts) = length counts.
Proof. revert idx. induction counts as [|k counts IH]; intros idx; simpl; auto. Qed.

Lemma selections_subseteq perm idx counts (sel : list nat) (x : nat) :
  sel ∈ Spec.selections perm idx counts -> x ∈ sel -> x ∈ perm.
Proof.
  revert idx. induction counts as [|k counts IH]; intros idx Hsel Hx; simpl in Hsel.
  - inversion Hsel.
  - apply elem_of_cons in Hsel as [->|Hsel]; [now apply slice_subseteq in Hx | eauto].
Qed.

(** Non-negative counts that fit cut consecutive pieces: together they
    are the stretch of the permutation they cover, and each has the
    length of its count. *)
Lemma selections_concat perm idx counts :
  (0 <= idx)%Z -> Forall (fun k => (0 <= k)%Z) counts ->
  (idx + Spec.Zsum counts <= Z.of_nat (length perm))%Z ->
  concat (Spec.selections perm idx counts)
  = take (Z.to_nat (Spec.Zsum counts)) (drop (Z.to_nat idx) perm)
  /\ Forall2 (fun k sel => Z.of_nat (length sel) = k) counts
       (Spec.selections perm idx counts).
Proof.
  intros Hidx Hcounts. revert idx Hidx.
  induction Hcounts as [|k counts Hk Hcounts IH]; intros idx Hidx Hfit; simpl in *.
  - split; [reflexivity | constructor].
  - pose proof (Zsum_nonneg _ Hcounts) as Hsum.
    destruct (IH (idx + k)%Z) as [Hcat Hlen]; [lia..|].
    rewrite slice_exact by lia. split.
    + rewrite Hcat.
      replace (Z.to_nat (idx + k)) with (Z.to_nat idx + Z.to_nat k) by lia.
      rewrite <- drop_drop, take_take_drop. f_equal. lia.
    + constructor; [|exact Hlen]. rewrite length_take, length_drop. lia.
Qed.

Lemma pick_valid cta (idxs : list nat) :
  Forall (fun i => i < length cta) idxs ->
  traverse (index cta) idxs = inr (Spec.pick cta idxs)
  /\ length (Spec.pick cta idxs) = length idxs.
Proof.
  induction 1 as [|i idxs Hi Hall [IHt IHl]]; [now split|].
  cbn [traverse Spec.pick omap list_omap]. unfold index at 1.
  destruct (lookup_lt_is_Some_2 cta i Hi) as [c Hc]. rewrite Hc, IHt.
  split; [reflexivity|]. simpl. now rewrite <- IHl.
Qed.

Lemma pick_subseteq cta (idxs : list nat) (c : string) :
  c ∈ Spec.pick cta idxs -> c ∈ cta.
Proof.
  unfold Spec.pick. rewrite list_elem_of_omap. intros (i & _ & Hc).
  eapply list_elem_of_lookup_2, Hc.
Qed.

Lemma pick_concat cta (ls : list (list nat)) :
  Spec.pick cta (concat ls) = concat (Spec.pick cta <$> ls).
Proof.
  induction ls as [|l ls IH]; [reflexivity|]. simpl.
  unfold Spec.pick in *. now rewrite omap_app, IH.
Qed.

Lemma pick_seq (pre cta : list string) :
  Spec.pick (pre ++ cta) (seq (length pre) (length cta)) = cta.
Proof.
  revert pre. induction cta as [|c cta IH]; intros pre; [reflexivity|].
  cbn [length seq Spec.pick omap list_omap].
  rewrite (list_lookup_middle pre cta c (length pre) eq_refl). f_equal.
  specialize (IH (pre ++ [c])). rewrite <- app_assoc, length_app in IH. simpl in IH.
  rewrite Nat.add_1_r in IH. exact IH.
Qed.

Lemma pick_permutation cta perm :
  perm ≡ₚ seq 0 (length cta) -> Spec.pick cta perm ≡ₚ cta.
Proof.
  intros Hperm. unfold Spec.pick. rewrite Hperm.
  apply reflexive_eq. exact (pick_seq [] cta).
Qed.

Lemma permutation_valid cta perm :
  perm ≡ₚ seq 0 (length cta) -> Forall (fun i => i < length cta) perm.
Proof.
  intros Hperm. apply Forall_forall. intros i Hi. rewrite Hperm in Hi.
  apply elem_of_seq in Hi. lia.
Qed.

End Selections.

Section GroupLoop.

Implicit Types (a : Assigner.t) (g : Assigner.TaskGroup).

Lemma assign_group_run (r n : nat) (perm : list nat) (idx k : Z) g a :
  Assigner.num_col_in_group g n = inr k ->
  Forall (fun i => i < length (Assigner.collaborators_to_assign a)) perm ->
  (forall c, c ∈ Assigner.collaborators_to_assign a ->
             is_Some (Assigner.collaborator_tasks a !! c)) ->
  (forall t, t ∈ Assigner.tasks g ->
             is_Some (Spec.lookup2 (Assigner.collaborators_for_task a) t r)) ->
  Assigner.assign_group r n perm idx g a
  = Ok (idx + k)%Z
      (Spec.apply_group r a
         (g, Spec.pick (Assigner.collaborators_to_assign a)
               (slice perm idx (idx + k)))).
Proof.
  intros Hnum Hvalid Hkeys Htasks.
  assert (Hsl : Forall (fun i => i < length (Assigner.collaborators_to_assign a))
                  (slice perm idx (idx + k))).
  { apply Forall_forall. intros i Hi. apply slice_subseteq in Hi.
    revert i Hi. now apply Forall_forall. }
  destruct (pick_valid _ _ Hsl) as [Htrav _].
  unfold Assigner.assign_group, bind, lift, gets, modify. rewrite Hnum. simpl.
  rewrite Htrav.
  set (sel := Spec.pick _ _).
  rewrite store_tasks_run.
  2: { intros c Hc. destruct a; simpl in *. apply Hkeys. subst sel.
       now apply pick_subseteq in Hc. }
  rewrite extend_tasks_run.
  2: { intros t Ht. destruct a; simpl in *. now apply Htasks. }
  unfold ret, Spec.apply_group. simpl. now destruct a.
Qed.

(** The loop over the groups, run: each group is given its slice. *)
Lemma assign_groups_run (r n : nat) (perm : list nat) (cta : list string)
    (groups : list Assigner.TaskGroup) (counts : list Z) :
  Forall2 (fun g k => Assigner.num_col_in_group g n = inr k) groups counts ->
  Forall (fun i => i < length cta) perm ->
  forall (idx : Z) a,
    Assigner.collaborators_to_assign a = cta ->
    (forall c, c ∈ cta -> is_Some (Assigner.collaborator_tasks a !! c)) ->
    (forall g t, g ∈ groups -> t ∈ Assigner.tasks g ->
                 is_Some (Spec.lookup2 (Assigner.collaborators_for_task a) t r)) ->
    fold_ groups idx (Assigner.assign_group r n perm) a
    = Ok (idx + Spec.Zsum counts)%Z
        (foldl (Spec.apply_group r) a
           (zip groups (Spec.pick cta <$> Spec.selections perm idx counts))).
Proof.
  intros Hcounts Hvalid.
  induction Hcounts as [|g k groups counts Hk Hcounts IH]; intros idx a Hcta Hkeys Htasks.
  - simpl. unfold ret. now rewrite Z.add_0_r.
  - cbn [fold_ Spec.selections fmap list_fmap zip zip_with foldl Spec.Zsum foldr].
    unfold bind. rewrite (assign_group_run r n perm idx k g a Hk).
    + pose proof (apply_group_shape r a g
                    (Spec.pick (Assigner.collaborators_to_assign a)
                       (slice perm idx (idx + k))))
        as (_ & _ & _ & _ & Hc & Hk' & _).
      rewrite IH.
      * rewrite Hcta. now rewrite Z.add_assoc.
      * now rewrite Hc.
      * intros c Hc'. apply Hk', Hkeys, Hc'.
      * intros g' t Hg' Ht. rewrite apply_group_collaborators.
        destruct (Htasks g' t (list_elem_of_further _ _ _ Hg') Ht) as [old ->].
        destruct (decide _); simpl; eauto.
    + now rewrite Hcta.
    + now rewrite Hcta.
    + intros t Ht. apply (Htasks g t); [apply list_elem_of_here | exact Ht].
Qed.

(** What the dictionaries hold once the groups have their selections. *)
Lemma groups_shape (r : nat) (gs : list (Assigner.TaskGroup * list string)) a :
  Spec.same_shape a (foldl (Spec.apply_group r) a gs).
Proof.
  revert a. induction gs as [|[g sel] gs IH]; intros a; simpl;
    [apply same_shape_refl|].
  eapply same_shape_trans; [apply apply_group_shape | apply IH].
Qed.

Lemma groups_collaborators (r : nat) (gs : list (Assigner.TaskGroup * list string)) a
    (t : string) (r' : nat) :
  Spec.lookup2 (Assigner.collaborators_for_task (foldl (Spec.apply_group r) a gs)) t r'
  = if decide (r' = r)
    then (fun old => old ++ Spec.expected_for_task t gs)
           <$> Spec.lookup2 (Assigner.collaborators_for_task a) t r'
    else Spec.lookup2 (Assigner.collaborators_for_task a) t r'.
Proof.
  revert a. induction gs as [|[g sel] gs IH]; intros a; cbn [foldl].
  - unfold Spec.expected_for_task. simpl.
    destruct (decide (r' = r)); [|reflexivity].
    destruct (Spec.lookup2 _ t r'); simpl; [|reflexivity]. now rewrite app_nil_r.
  - rewrite IH, apply_group_collaborators.
    destruct (decide (r' = r)); [|reflexivity].
    destruct (Spec.lookup2 (Assigner.collaborators_for_task a) t r'); simpl; [|reflexivity].
    unfold Spec.expected_for_task. simpl. now rewrite <- app_assoc.
Qed.

Lemma groups_tasks_untouched (r : nat) (gs : list (Assigner.TaskGroup * list string)) a
    (c : string) (r' : nat) :
  (forall sel c', sel ∈ gs.*2 -> c' ∈ sel ->
                  is_Some (Assigner.collaborator_tasks a !! c')) ->
  r' <> r \/ c ∉ concat gs.*2 ->
  Spec.lookup2 (Assigner.collaborator_tasks (foldl (Spec.apply_group r) a gs)) c r'
  = Spec.lookup2 (Assigner.collaborator_tasks a) c r'.
Proof.
  revert a. induction gs as [|[g sel] gs IH]; intros a Hkeys Hout; cbn [foldl];
    [reflexivity|].
  rewrite IH.
  - rewrite apply_group_tasks.
    + rewrite decide_False; [reflexivity|]. intros [Hin ->].
      destruct Hout as [Hne|Hnin]; [congruence|]. apply Hnin. simpl.
      apply elem_of_app. now left.
    + intros c' Hc'. apply (Hkeys sel); [apply list_elem_of_here | exact Hc'].
  - intros sel' c' Hsel' Hc'. apply (apply_group_shape r a g sel).
    apply (Hkeys sel'); [now apply list_elem_of_further | exact Hc'].
  - destruct Hout as [Hne|Hnin]; [now left|]. right. intros Hin. apply Hnin.
    simpl. apply elem_of_app. now right.
Qed.

Lemma groups_tasks (r : nat) (gs : list (Assigner.TaskGroup * list string)) a
    (i : nat) g (sel : list string) (c : string) :
  (forall sel' c', sel' ∈ gs.*2 -> c' ∈ sel' ->
                   is_Some (Assigner.collaborator_tasks a !! c')) ->
  NoDup (concat gs.*2) ->
  gs !! i = Some (g, sel) -> c ∈ sel ->
  Spec.lookup2 (Assigner.collaborator_tasks (foldl (Spec.apply_group r) a gs)) c r
  = Some (Assigner.tasks g).
Proof.
  revert a i. induction gs as [|[g0 sel0] gs IH]; intros a i Hkeys Hnd Hi Hc;
    [discriminate|].
  cbn [foldl]. simpl in Hnd. apply NoDup_app in Hnd as (_ & Hdisj & Hnd).
  assert (Hkeys' : forall sel' c', sel' ∈ gs.*2 -> c' ∈ sel' ->
            is_Some (Assigner.collaborator_tasks (Spec.apply_group r a (g0, sel0)) !! c')).
  { intros sel' c' Hsel' Hc'. apply (apply_group_shape r a g0 sel0).
    apply (Hkeys sel'); [now apply list_elem_of_further | exact Hc']. }
  destruct i as [|i]; simpl in Hi.
  - injection Hi as -> ->.
    rewrite groups_tasks_untouched; [| exact Hkeys' | right; now apply Hdisj].
    rewrite apply_group_tasks.
    + now rewrite decide_True.
    + intros c' Hc'. apply (Hkeys sel); [apply list_elem_of_here | exact Hc'].
  - now apply (IH _ i).
Qed.

End GroupLoop.

Section Rounds.

Implicit Types (a : Assigner.t).

Lemma store_collaborators_for_task_run (t : string) (r : nat) (v : list string) a :
  is_Some (Assigner.collaborators_for_task a !! t) ->
  Assigner.store_collaborators_for_task t r v a
  = Ok tt (Assigner.set_collaborators_for_task
             (Spec.upd2 (Assigner.collaborators_for_task a) t r v) a).
Proof.
  intros [inner Ht].
  unfold Assigner.store_collaborators_for_task, bind, gets, lift, getitem, modify,
    Spec.upd2.
  simpl. now rewrite Ht.
Qed.

(** The first loop of [assign_tasks] returns; it leaves the shape and
    the reverse lookup as they are. *)
Lemma reset_dropped_run (from : nat) a :
  Spec.well_keyed a ->
  wp (for_ (Assigner.authorized_cols a) (fun col =>
        cta <- gets Assigner.collaborators_to_assign ;;
        if bool_decide (col ∈ cta) then ret tt
        else for_ (range from (Assigner.rounds a))
               (fun i => Assigner.store_collaborator_tasks col i [])))
     (fun _ s => Spec.same_shape a s
                 /\ Assigner.collaborators_for_task s = Assigner.collaborators_for_task a)
     (fun _ _ => False) a.
Proof.
  intros (Hauth & _).
  set (I := fun s => Spec.same_shape a s
                     /\ Assigner.collaborators_for_task s
                        = Assigner.collaborators_for_task a).
  apply (wp_for_ (fun _ => I)); [split; [apply same_shape_refl | reflexivity] | | auto].
  intros pre col post s Hl HI. apply wp_bind, wp_gets.
  case_bool_decide; [apply wp_ret; exact HI|].
  apply (wp_for_ (fun _ => I)); [exact HI | | auto].
  intros pre' i post' s' _ [Hshape Hcft]. unfold wp.
  assert (Hkey : is_Some (Assigner.collaborator_tasks s' !! col)).
  { apply Hshape, Hauth. rewrite Hl. apply elem_of_app. right. apply list_elem_of_here. }
  rewrite store_collaborator_tasks_run by exact Hkey.
  split.
  - eapply same_shape_trans; [exact Hshape|].
    unfold Spec.same_shape. destruct s'; simpl.
    repeat (split; [reflexivity|]). split; [|reflexivity].
    intros k. apply upd2_keys.
  - now destruct s'.
Qed.

(** The second loop returns with every round from [from] on reset. *)
Lemma reset_tasks_run (from : nat) a :
  Spec.well_keyed a ->
  wp (for_ (Assigner.all_tasks_in_groups a) (fun task =>
        for_ (range from (Assigner.rounds a)) (fun round_num =>
          Assigner.store_collaborators_for_task task round_num [])))
     (fun _ s => Spec.same_shape a s
                 /\ forall r, from <= r < Assigner.rounds a -> Spec.pending r s)
     (fun _ _ => False) a.
Proof.
  intros (_ & _ & Htasks & _).
  set (rs := range from (Assigner.rounds a)).
  set (K := fun (P : string -> nat -> Prop) s =>
              Spec.same_shape a s
              /\ forall t r, P t r ->
                   Spec.lookup2 (Assigner.collaborators_for_task s) t r = Some []).
  apply (wp_for_ (fun ts => K (fun t r => t ∈ ts /\ r ∈ rs))).
  - split; [apply same_shape_refl|]. intros t r [Ht _]. inversion Ht.
  - intros pre task post s Hl HK.
    apply (wp_for_ (fun done => K (fun t r => (t ∈ pre /\ r ∈ rs)
                                              \/ (t = task /\ r ∈ done)))).
    + destruct HK as [Hshape HK]. split; [exact Hshape|].
      intros t r [H|[_ H]]; [now apply HK | inversion H].
    + intros done r post' s' Hrs [Hshape HK']. unfold wp.
      assert (Hkey : is_Some (Assigner.collaborators_for_task s' !! task)).
      { apply Hshape, Htasks. rewrite Hl. apply elem_of_app. right.
        apply list_elem_of_here. }
      rewrite store_collaborators_for_task_run by exact Hkey. split.
      * eapply same_shape_trans; [exact Hshape|].
        unfold Spec.same_shape. destruct s'; simpl.
        repeat (split; [reflexivity|]). intros k. apply upd2_keys.
      * intros t r' Hp.
        assert (Heq : Assigner.collaborators_for_task
                        (Assigner.set_collaborators_for_task
                           (Spec.upd2 (Assigner.collaborators_for_task s') task r []) s')
                      = Spec.upd2 (Assigner.collaborators_for_task s') task r [])
          by now destruct s'.
        rewrite Heq, lookup2_upd2 by exact Hkey.
        destruct (decide (t = task /\ r' = r)) as [_|Hne]; [reflexivity|].
        apply HK'. destruct Hp as [Hp|[-> Hp]]; [now left|]. right. split; [reflexivity|].
        apply elem_of_app in Hp as [Hp|Hp]; [exact Hp|].
        apply list_elem_of_singleton in Hp. subst r'. now contradiction Hne.
    + intros s' [Hshape HK']. split; [exact Hshape|].
      intros t r Hp. apply HK'. destruct Hp as [Hp Hr].
      apply elem_of_app in Hp as [Hp|Hp]; [now left|].
      apply list_elem_of_singleton in Hp. now right.
  - intros s [Hshape HK]. split; [exact Hshape|].
    intros r Hr task Htask. apply HK. split.
    + destruct Hshape as (_ & _ & _ & Hall & _). now rewrite <- Hall.
    + apply elem_of_range. exact Hr.
Qed.

End Rounds.

Section Partition.

Implicit Types (a : Assigner.t) (cta : list string) (perm : list nat) (counts : list Z).

Lemma group_selections_length cta perm counts :
  length (Spec.group_selections cta perm counts) = length counts.
Proof. unfold Spec.group_selections. now rewrite length_fmap, selections_length. Qed.

Lemma group_selections_subseteq cta perm counts (sel : list string) (c : string) :
  sel ∈ Spec.group_selections cta perm counts -> c ∈ sel -> c ∈ cta.
Proof.
  unfold Spec.group_selections. intros Hsel Hc.
  apply list_elem_of_fmap in Hsel as (idxs & -> & _). now apply pick_subseteq in Hc.
Qed.

(** When the counts are non-negative and add up to the number of
    assignees, the selections are consecutive pieces of the permuted
    assignee list, of the counted lengths, that together are all of it. *)
Lemma group_selections_partition cta perm counts :
  perm ≡ₚ seq 0 (length cta) ->
  Forall (fun k => (0 <= k)%Z) counts ->
  Spec.Zsum counts = Z.of_nat (length cta) ->
  concat (Spec.group_selections cta perm counts) = Spec.pick cta perm
  /\ Spec.pick cta perm ≡ₚ cta
  /\ Forall2 (fun k sel => Z.of_nat (length sel) = k) counts
       (Spec.group_selections cta perm counts).
Proof.
  intros Hperm Hnonneg Hsum.
  assert (Hlen : length perm = length cta).
  { rewrite Hperm. apply length_seq. }
  destruct (selections_concat perm 0 counts) as [Hcat Hlens];
    [lia | exact Hnonneg | lia |].
  split; [|split].
  - unfold Spec.group_selections. rewrite <- pick_concat, Hcat. simpl.
    rewrite drop_0, take_ge; [reflexivity | lia].
  - now apply pick_permutation.
  - unfold Spec.group_selections. apply Forall2_fmap_r.
    apply Forall2_same_length_lookup in Hlens as [Hl Hlens].
    apply Forall2_same_length_lookup. split; [exact Hl|].
    intros i k idxs Hk Hidxs. rewrite <- (Hlens i k idxs Hk Hidxs).
    f_equal. apply pick_valid, Forall_forall. intros j Hj.
    assert (Hin : j ∈ perm).
    { eapply selections_subseteq; [|exact Hj]. eapply list_elem_of_lookup_2, Hidxs. }
    rewrite Hperm in Hin. apply elem_of_seq in Hin. lia.
Qed.

(** One round of the last loop, run. *)
Lemma assign_round_run (rng : nat -> list nat) (r : nat) counts a :
  Spec.well_keyed a ->
  Forall2 (fun g k => Assigner.num_col_in_group g
                        (length (Assigner.collaborators_to_assign a)) = inr k)
    (Assigner.task_groups a) counts ->
  Forall (fun i => i < length (Assigner.collaborators_to_assign a)) (rng r) ->
  Spec.pending r a ->
  Assigner.assign_round (length (Assigner.collaborators_to_assign a)) rng r a
  = let a' := foldl (Spec.apply_group r) a
                (zip (Assigner.task_groups a)
                   (Spec.group_selections (Assigner.collaborators_to_assign a)
                      (rng r) counts)) in
    if decide (Spec.Zsum counts
               = Z.of_nat (length (Assigner.collaborators_to_assign a)))
    then Ok tt a' else Raise AssertionError a'.
Proof.
  intros (_ & Hcta & _ & Hgroups) Hcounts Hvalid Hpending.
  unfold Assigner.assign_round, bind, gets.
  rewrite (assign_groups_run r _ (rng r) (Assigner.collaborators_to_assign a)
             (Assigner.task_groups a) counts Hcounts Hvalid 0%Z a eq_refl Hcta).
  - rewrite Z.add_0_l. unfold assert, Spec.group_selections. cbn zeta.
    case_bool_decide; destruct (decide _); try contradiction; reflexivity.
  - intros g t Hg Ht. rewrite (Hpending t); eauto.
Qed.

(** What a round leaves: the shape, the other rounds, and in its own
    round the assignment of the selections. *)
Lemma groups_other_rounds (r r' : nat) cta perm counts a :
  Assigner.collaborators_to_assign a = cta ->
  Spec.well_keyed a ->
  r' <> r ->
  let a' := foldl (Spec.apply_group r) a
              (zip (Assigner.task_groups a) (Spec.group_selections cta perm counts)) in
  (forall t, Spec.lookup2 (Assigner.collaborators_for_task a') t r'
             = Spec.lookup2 (Assigner.collaborators_for_task a) t r')
  /\ (forall c, Spec.lookup2 (Assigner.collaborator_tasks a') c r'
                = Spec.lookup2 (Assigner.collaborator_tasks a) c r').
Proof.
  intros Hcta (_ & Hkeys & _) Hne a'. subst a'. split.
  - intros t. rewrite groups_collaborators. now rewrite decide_False.
  - intros c. apply groups_tasks_untouched; [|now left].
    intros sel c' Hsel Hc'. apply Hkeys. rewrite Hcta.
    apply list_elem_of_fmap in Hsel as ([g sel'] & -> & Hin). simpl in Hc'.
    apply elem_of_zip_r in Hin.
    eapply group_selections_subseteq; [exact Hin | exact Hc'].
Qed.

Lemma groups_assigned (r : nat) perm counts a :
  Spec.well_keyed a ->
  length (Assigner.task_groups a) = length counts ->
  perm ≡ₚ seq 0 (length (Assigner.collaborators_to_assign a)) ->
  Forall (fun k => (0 <= k)%Z) counts ->
  Spec.Zsum counts = Z.of_nat (length (Assigner.collaborators_to_assign a)) ->
  Spec.pending r a ->
  let gs := zip (Assigner.task_groups a)
              (Spec.group_selections (Assigner.collaborators_to_assign a) perm counts) in
  Spec.assigned gs r (foldl (Spec.apply_group r) a gs).
Proof.
  intros (_ & Hkeys & _) Hlen Hperm Hnonneg Hsum Hpending gs.
  pose proof (groups_shape r gs a) as (_ & _ & _ & Hall & Hcta & _).
  assert (Hsnd : gs.*2 = Spec.group_selections
                           (Assigner.collaborators_to_assign a) perm counts).
  { apply snd_zip. rewrite group_selections_length. lia. }
  split.
  - rewrite Hall. intros task Htask.
    rewrite groups_collaborators, decide_True by reflexivity.
    now rewrite (Hpending task Htask).
  - rewrite Hcta. intros Hnd i g sel c Hi Hc.
    apply (groups_tasks r gs a i g sel c); [| |exact Hi|exact Hc].
    + intros sel' c' Hsel' Hc'. apply Hkeys. rewrite Hsnd in Hsel'.
      eapply group_selections_subseteq; [exact Hsel' | exact Hc'].
    + rewrite Hsnd.
      destruct (group_selections_partition _ perm counts Hperm Hnonneg Hsum)
        as (-> & Hp & _).
      now rewrite Hp.
Qed.

End Partition.

Section RoundLoop.

Implicit Types (a s : Assigner.t) (counts : list Z).

Lemma pending_ext (r : nat) s s' :
  Assigner.all_tasks_in_groups s' = Assigner.all_tasks_in_groups s ->
  (forall t, Spec.lookup2 (Assigner.collaborators_for_task s') t r
             = Spec.lookup2 (Assigner.collaborators_for_task s) t r) ->
  Spec.pending r s -> Spec.pending r s'.
Proof. intros Hall Heq Hp t Ht. rewrite Heq. apply Hp. now rewrite <- Hall. Qed.

Lemma assigned_ext gs (r : nat) s s' :
  Assigner.all_tasks_in_groups s' = Assigner.all_tasks_in_groups s ->
  Assigner.collaborators_to_assign s' = Assigner.collaborators_to_assign s ->
  (forall t, Spec.lookup2 (Assigner.collaborators_for_task s') t r
             = Spec.lookup2 (Assigner.collaborators_for_task s) t r) ->
  (forall c, Spec.lookup2 (Assigner.collaborator_tasks s') c r
             = Spec.lookup2 (Assigner.collaborator_tasks s) c r) ->
  Spec.assigned gs r s -> Spec.assigned gs r s'.
Proof.
  intros Hall Hcta Hf Ht [H1 H2]. split.
  - intros t Hin. rewrite Hf. apply H1. now rewrite <- Hall.
  - intros Hnd i g sel c Hi Hc. rewrite Ht. rewrite Hcta in Hnd. eauto.
Qed.

(** The last loop of [assign_tasks] over reset rounds: when the counts
    add up it returns, and every round holds the assignment of its
    selections. *)
Lemma assign_rounds_run (rng : nat -> list nat) (rs : list nat) counts a :
  Spec.well_keyed a ->
  Forall2 (fun g k => Assigner.num_col_in_group g
                        (length (Assigner.collaborators_to_assign a)) = inr k)
    (Assigner.task_groups a) counts ->
  (forall r, rng r ≡ₚ seq 0 (length (Assigner.collaborators_to_assign a))) ->
  Forall (fun k => (0 <= k)%Z) counts ->
  Spec.Zsum counts = Z.of_nat (length (Assigner.collaborators_to_assign a)) ->
  NoDup rs ->
  (forall r, r ∈ rs -> Spec.pending r a) ->
  wp (for_ rs (Assigner.assign_round
                 (length (Assigner.collaborators_to_assign a)) rng))
     (fun _ s =>
        Spec.same_shape a s
        /\ forall r, r ∈ rs ->
             Spec.assigned
               (zip (Assigner.task_groups a)
                  (Spec.group_selections (Assigner.collaborators_to_assign a)
                     (rng r) counts)) r s)
     (fun _ _ => False) a.
Proof.
  intros Hwk Hcounts Hperm Hnonneg Hsum Hnd Hpending.
  set (gs := fun r => zip (Assigner.task_groups a)
                        (Spec.group_selections (Assigner.collaborators_to_assign a)
                           (rng r) counts)).
  apply (wp_for_ (fun pre s =>
           Spec.same_shape a s
           /\ (forall r, r ∈ pre -> Spec.assigned (gs r) r s)
           /\ (forall r, r ∈ rs -> r ∉ pre -> Spec.pending r s))).
  - split; [apply same_shape_refl|]. split.
    + intros r Hr. inversion Hr.
    + intros r Hr _. now apply Hpending.
  - intros pre x post s Hl (Hshape & Hdone & Htodo).
    assert (Hx : x ∉ pre).
    { rewrite Hl in Hnd. apply NoDup_app in Hnd as (_ & Hd & _).
      intros Hin. apply (Hd x Hin), list_elem_of_here. }
    assert (Hxin : x ∈ rs).
    { rewrite Hl. apply elem_of_app. right. apply list_elem_of_here. }
    pose proof (well_keyed_shape a s Hshape Hwk) as Hwks.
    pose proof Hshape as (Hg & _ & _ & Hall & Hc & _).
    unfold wp. rewrite <- Hc.
    rewrite (assign_round_run rng x counts s Hwks);
      [ | rewrite Hg, Hc; exact Hcounts
        | rewrite Hc; apply permutation_valid, Hperm
        | now apply Htodo ].
    cbn zeta. rewrite decide_True by (rewrite Hc; exact Hsum).
    rewrite Hg, Hc. fold (gs x).
    pose proof (groups_shape x (gs x) s) as Hshape'.
    pose proof Hshape' as (_ & _ & _ & Hall' & Hc' & _).
    assert (Hother : forall r, r <> x ->
              (forall t, Spec.lookup2 (Assigner.collaborators_for_task
                                         (foldl (Spec.apply_group x) s (gs x))) t r
                         = Spec.lookup2 (Assigner.collaborators_for_task s) t r)
              /\ (forall c, Spec.lookup2 (Assigner.collaborator_tasks
                                            (foldl (Spec.apply_group x) s (gs x))) c r
                            = Spec.lookup2 (Assigner.collaborator_tasks s) c r)).
    { intros r Hne.
      pose proof (groups_other_rounds x r (Assigner.collaborators_to_assign a)
                    (rng x) counts s Hc Hwks Hne) as Ho.
      cbn zeta in Ho. rewrite Hg in Ho. exact Ho. }
    split; [eapply same_shape_trans; [exact Hshape | exact Hshape']|]. split.
    + intros r Hr. apply elem_of_app in Hr as [Hr|Hr].
      * assert (Hne : r <> x) by (intros ->; contradiction).
        destruct (Hother r Hne) as [Hf Ht].
        apply (assigned_ext (gs r) r s); [exact Hall' | exact Hc' | exact Hf | exact Ht |].
        apply Hdone, Hr.
      * apply list_elem_of_singleton in Hr. subst r.
        pose proof (groups_assigned x (rng x) counts s Hwks) as Ha.
        cbn zeta in Ha. rewrite Hg, Hc in Ha. apply Ha.
        -- now apply Forall2_length in Hcounts.
        -- apply Hperm.
        -- exact Hnonneg.
        -- exact Hsum.
        -- now apply Htodo.
    + intros r Hr Hnin.
      assert (Hne : r <> x).
      { intros ->. apply Hnin, elem_of_app. right. apply list_elem_of_here. }
      destruct (Hother r Hne) as [Hf _].
      apply (pending_ext r s); [exact Hall' | exact Hf |].
      apply Htodo; [exact Hr|]. intros Hin. apply Hnin, elem_of_app. now left.
  - intros s (Hshape & Hdone & _). split; [exact Hshape | exact Hdone].
Qed.

End RoundLoop.

Section AssignTasks.

Implicit Types (a : Assigner.t) (counts : list Z).

(** [assign_tasks] up to its last loop: both reset loops return, and
    leave a well-keyed assigner of the same shape whose rounds from
    [from_round] on are reset. *)
Lemma assign_tasks_wp (from_round : nat) (rng : nat -> list nat) a
    (Q : unit -> Assigner.t -> Prop) (E : exn -> Assigner.t -> Prop) :
  Spec.well_keyed a ->
  (forall s, Spec.same_shape a s -> Spec.well_keyed s ->
             (forall r, from_round <= r < Assigner.rounds a -> Spec.pending r s) ->
             wp (for_ (range from_round (Assigner.rounds a))
                   (Assigner.assign_round
                      (length (Assigner.collaborators_to_assign s)) rng)) Q E s) ->
  wp (Assigner.assign_tasks from_round rng) Q E a.
Proof.
  intros Hwk Hloop. unfold Assigner.assign_tasks.
  apply wp_bind, wp_gets, wp_bind, wp_gets, wp_bind.
  eapply wp_mono; [apply (reset_dropped_run from_round a Hwk) | | contradiction].
  intros [] s1 [Hshape1 Hcft1]. cbn beta.
  pose proof (well_keyed_shape a s1 Hshape1 Hwk) as Hwk1.
  pose proof Hshape1 as (_ & _ & Hr1 & Hall1 & _).
  apply wp_bind, wp_gets, wp_bind. rewrite <- Hr1.
  eapply wp_mono; [apply (reset_tasks_run from_round s1 Hwk1) | | contradiction].
  intros [] s2 [Hshape2 Hpending]. cbn beta.
  assert (Hshape : Spec.same_shape a s2)
    by (eapply same_shape_trans; [exact Hshape1 | exact Hshape2]).
  apply wp_bind, wp_gets. rewrite Hr1. apply Hloop.
  - exact Hshape.
  - now apply (well_keyed_shape a s2).
  - intros r Hr. apply Hpending. now rewrite Hr1.
Qed.

(** C1, as amended.  Every group, the last one included, takes
    [int(percentage * n)] collaborators of the [n] assignees, the next
    stretch of the drawn permutation; no group absorbs a remainder.  So,
    with [counts] those numbers: when they are non-negative and add up
    to [n], [assign_tasks] returns and in every round from [from_round]
    on the groups' selections are consecutive pieces of the permuted
    assignee list that together are all of it (a partition of the
    assignees), each of its counted length; the getters answer by them:
    a task has the selections of the groups that list it, and (the
    assignees being distinct) a selected collaborator has the tasks of
    its group.  When the counts do not add up to [n] and a round is
    left, [assign_tasks] raises [AssertionError]. *)
Theorem assign_tasks_partitions (from_round : nat) (rng : nat -> list nat) counts a :
  Spec.well_keyed a ->
  (forall r, rng r ≡ₚ seq 0 (length (Assigner.collaborators_to_assign a))) ->
  Forall2 (fun g k => Assigner.num_col_in_group g
                        (length (Assigner.collaborators_to_assign a)) = inr k)
    (Assigner.task_groups a) counts ->
  (Forall (fun k => (0 <= k)%Z) counts ->
   Spec.Zsum counts = Z.of_nat (length (Assigner.collaborators_to_assign a)) ->
   exists a',
     Assigner.assign_tasks from_round rng a = Ok tt a'
     /\ Assigner.get_assigned_collaborators a' = Assigner.collaborators_to_assign a
     /\ forall r, from_round <= r < Assigner.rounds a ->
          let cta := Assigner.collaborators_to_assign a in
          let sels := Spec.group_selections cta (rng r) counts in
          concat sels = Spec.pick cta (rng r)
          /\ Spec.pick cta (rng r) ≡ₚ cta
          /\ Forall2 (fun k sel => Z.of_nat (length sel) = k) counts sels
          /\ (forall task, task ∈ Assigner.all_tasks_in_groups a ->
                Assigner.get_collaborators_for_task task r a'
                = inr (Spec.expected_for_task task (zip (Assigner.task_groups a) sels)))
          /\ (NoDup cta ->
              forall i g sel c,
                Assigner.task_groups a !! i = Some g -> sels !! i = Some sel -> c ∈ sel ->
                Assigner.get_tasks_for_collaborator c r a' = inr (Assigner.tasks g)))
  /\ (Spec.Zsum counts <> Z.of_nat (length (Assigner.collaborators_to_assign a)) ->
      from_round < Assigner.rounds a ->
      exists a', Assigner.assign_tasks from_round rng a = Raise AssertionError a').
Proof.
  intros Hwk Hperm Hcounts. split.
  - intros Hnonneg Hsum.
    assert (Hwp : wp (Assigner.assign_tasks from_round rng)
                    (fun _ a' =>
                       Spec.same_shape a a'
                       /\ forall r, from_round <= r < Assigner.rounds a ->
                            Spec.assigned
                              (zip (Assigner.task_groups a)
                                 (Spec.group_selections
                                    (Assigner.collaborators_to_assign a) (rng r) counts))
                              r a')
                    (fun _ _ => False) a).
    { apply assign_tasks_wp; [exact Hwk|]. intros s Hshape Hwks Hpending.
      pose proof Hshape as (Hg & _ & _ & _ & Hc & _).
      eapply wp_mono; [apply (assign_rounds_run rng _ counts s Hwks) | | auto].
      - now rewrite Hg, Hc.
      - now rewrite Hc.
      - exact Hnonneg.
      - now rewrite Hc.
      - apply NoDup_seq.
      - intros r Hr. apply Hpending, elem_of_range, Hr.
      - intros [] s' [Hshape' Ha]. cbn beta. split.
        + eapply same_shape_trans; [exact Hshape | exact Hshape'].
        + intros r Hr. rewrite <- Hg, <- Hc. apply Ha, elem_of_range, Hr. }
    unfold wp in Hwp.
    destruct (Assigner.assign_tasks from_round rng a) as [[] a'|e a']; [|contradiction].
    destruct Hwp as [Hshape Hassigned].
    exists a'. split; [reflexivity|].
    pose proof Hshape as (_ & _ & _ & Hall & Hc & _).
    split; [exact Hc|]. intros r Hr cta sels.
    destruct (group_selections_partition cta (rng r) counts (Hperm r) Hnonneg Hsum)
      as (Hcat & Hp & Hlens).
    destruct (Hassigned r Hr) as [Hfor Htasks].
    split; [exact Hcat|]. split; [exact Hp|]. split; [exact Hlens|]. split.
    + intros task Htask. rewrite get_collaborators_for_task_lookup2.
      rewrite Hfor; [reflexivity | now rewrite Hall].
    + intros Hnd i g sel c Hg Hsel Hin. rewrite get_tasks_for_collaborator_lookup2.
      rewrite (Htasks (eq_ind_r NoDup Hnd Hc) i g sel c); [reflexivity | | exact Hin].
      fold cta. fold sels. rewrite lookup_zip_with, Hg. simpl. now rewrite Hsel.
  - intros Hsum Hround.
    assert (Hwp : wp (Assigner.assign_tasks from_round rng) (fun _ _ => False)
                    (fun e _ => e = AssertionError) a).
    { apply assign_tasks_wp; [exact Hwk|]. intros s Hshape Hwks Hpending.
      pose proof Hshape as (Hg & _ & _ & _ & Hc & _).
      unfold range. destruct (Assigner.rounds a - from_round) as [|m] eqn:Hm; [lia|].
      cbn [seq for_]. apply wp_bind. unfold wp at 1.
      rewrite (assign_round_run rng from_round counts s Hwks);
        [ | now rewrite Hg, Hc | rewrite Hc; apply permutation_valid, Hperm
          | apply Hpending; lia ].
      cbn zeta. rewrite decide_False by now rewrite Hc. reflexivity. }
    unfold wp in Hwp.
    destruct (Assigner.assign_tasks from_round rng a) as [[] a'|e a']; [contradiction|].
    exists a'. now rewrite Hwp.
Qed.

End AssignTasks.

(** C1 at work: four collaborators in two halves, the permutation
    [C, A, D, B] drawn in every round.  The first two train and the last
    two validate. *)
Lemma assign_tasks_partitions_witness :
  exists a',
    Assigner.assign_tasks 0 (fun _ => [2; 0; 3; 1])
      (Scenario.defined Scenario.two_halves ["A"; "B"; "C"; "D"] 2) = Ok tt a'
    /\ Assigner.get_collaborators_for_task "train" 1 a' = inr ["C"; "A"]
    /\ Assigner.get_collaborators_for_task "validate" 1 a' = inr ["D"; "B"]
    /\ Assigner.get_tasks_for_collaborator "D" 1 a' = inr ["validate"].
Proof.
  destruct (assign_tasks_partitions 0 (fun _ => [2; 0; 3; 1]) [2%Z; 2%Z]
              (Scenario.defined Scenario.two_halves ["A"; "B"; "C"; "D"] 2))
    as [Hreturns _].
  - unfold Spec.well_keyed.
    change (Assigner.authorized_cols _) with ["A"; "B"; "C"; "D"].
    change (Assigner.collaborators_to_assign _) with ["A"; "B"; "C"; "D"].
    change (Assigner.all_tasks_in_groups _) with ["train"; "validate"].
    change (Assigner.task_groups _) with Scenario.two_halves.
    split; [|split; [|split]].
    + intros col Hcol.
      repeat (apply elem_of_cons in Hcol as [->|Hcol];
              [apply (bool_decide_unpack _); vm_compute; exact I|]).
      inversion Hcol.
    + intros col Hcol.
      repeat (apply elem_of_cons in Hcol as [->|Hcol];
              [apply (bool_decide_unpack _); vm_compute; exact I|]).
      inversion Hcol.
    + intros task Htask.
      repeat (apply elem_of_cons in Htask as [->|Htask];
              [apply (bool_decide_unpack _); vm_compute; exact I|]).
      inversion Htask.
    + intros g task Hg Htask. unfold Scenario.two_halves in Hg.
      repeat (apply elem_of_cons in Hg as [->|Hg];
              [simpl in Htask; apply list_elem_of_singleton in Htask; subst task;
               apply (bool_decide_unpack _); vm_compute; exact I|]).
      inversion Hg.
  - intros _. apply (bool_decide_unpack _). vm_compute. exact I.
  - change (Assigner.task_groups _) with Scenario.two_halves.
    change (Assigner.collaborators_to_assign _) with ["A"; "B"; "C"; "D"].
    repeat constructor.
  - destruct Hreturns as (a' & Hrun & _ & Hrounds).
    + repeat constructor; lia.
    + vm_compute. reflexivity.
    + exists a'. split; [exact Hrun|].
      destruct (Hrounds 1) as (_ & _ & _ & Hfor & Htasks); [simpl; lia|].
      split; [|split].
      * apply (Hfor "train"). apply (bool_decide_unpack _). vm_compute. exact I.
      * apply (Hfor "validate"). apply (bool_decide_unpack _). vm_compute. exact I.
      * assert (Hnd : NoDup ["A"; "B"; "C"; "D"])
          by (apply (bool_decide_unpack _); vm_compute; exact I).
        apply (Htasks Hnd 1
                 {| Assigner.name := "validators"; Assigner.percentage := 0.5%float;
                    Assigner.tasks := ["validate"] |} ["D"; "B"] "D");
          [reflexivity | reflexivity | apply list_elem_of_here].
Defined.

(** C1, the absorbed remainder as claimed, refuted: two groups of one
    half each, their percentages summing to 1.0, and three assignees
    with the permutation [C, A, B] drawn.  Each group takes
    [int(1.5) = 1] collaborator, the final group too; ["B"] is left
    over, and [assign_tasks] raises [AssertionError]. *)
Lemma final_group_absorbs_no_remainder :
  Assigner.np_sum (Assigner.percentage <$> Scenario.two_halves) = 1%float
  /\ [2; 0; 1] ≡ₚ seq 0 3
  /\ exists a',
       Assigner.assign_tasks 0 (fun _ => [2; 0; 1])
         (Scenario.defined Scenario.two_halves ["A"; "B"; "C"] 1)
       = Raise AssertionError a'
       /\ Assigner.task_group_collaborators a' !! "trainers" = Some ["C"]
       /\ Assigner.task_group_collaborators a' !! "validators" = Some ["A"].
Proof.
  split; [vm_compute; reflexivity|]. split.
  - apply (bool_decide_unpack _). vm_compute. exact I.
  - eexists. split; [vm_compute; reflexivity|]. split; vm_compute; reflexivity.
Qed.

(** * Further properties *)

(** ** The keys of the assigner's dictionaries *)

Section Keys.

Implicit Types (a : Assigner.t) (d : gmap string (gmap nat (list string))).

Lemma empty_rounds_lookup (n r : nat) :
  Assigner.empty_rounds n !! r = if decide (r < n) then Some [] else None.
Proof.
  unfold Assigner.empty_rounds, range. rewrite Nat.sub_0_r.
  destruct (decide (r < n)) as [Hlt|Hge].
  - apply elem_of_list_to_map_1.
    + rewrite <- list_fmap_compose. simpl. rewrite list_fmap_id. apply NoDup_seq.
    + apply list_elem_of_fmap. exists r. split; [reflexivity|]. apply elem_of_seq. lia.
  - apply not_elem_of_list_to_map_1. rewrite <- list_fmap_compose. simpl.
    rewrite list_fmap_id. rewrite elem_of_seq. lia.
Qed.

Lemma elem_of_concat {X} (x : X) (ls : list (list X)) :
  x ∈ concat ls <-> exists l, x ∈ l /\ l ∈ ls.
Proof.
  induction ls as [|l ls IH]; simpl.
  - split; [intros H; inversion H | intros (l & _ & H); inversion H].
  - rewrite elem_of_app, IH. split.
    + intros [H|(l' & H1 & H2)]; [exists l; split; [exact H | apply list_elem_of_here]|].
      exists l'. split; [exact H1 | now apply list_elem_of_further].
    + intros (l' & H1 & H2). apply elem_of_cons in H2 as [->|H2]; [now left|].
      right. eauto.
Qed.

(** A loop whose body is an assignment. *)
Lemma for_modify {S X} (l : list X) (f : X -> S -> S) (s : S) :
  for_ l (fun x => modify (f x)) s = Ok tt (foldl (fun s x => f x s) s l).
Proof.
  revert s. induction l as [|x l IH]; intros s; [reflexivity|].
  cbn [for_ foldl]. unfold bind, modify at 1. apply IH.
Qed.

Lemma lookup_foldl_insert {V} (m : gmap string V) (v : V) (l : list string) (k : string) :
  foldl (fun m x => <[x := v]> m) m l !! k = if decide (k ∈ l) then Some v else m !! k.
Proof.
  revert m. induction l as [|x l IH]; intros m; cbn [foldl].
  - rewrite decide_False; [reflexivity|]. intros H. inversion H.
  - rewrite IH. destruct (decide (k ∈ l)) as [Hin|Hnin].
    + rewrite decide_True; [reflexivity|]. now apply list_elem_of_further.
    + destruct (decide (k = x)) as [->|Hne].
      * rewrite lookup_insert_eq. rewrite decide_True; [reflexivity|].
        apply list_elem_of_here.
      * rewrite lookup_insert_ne by congruence. rewrite decide_False; [reflexivity|].
        intros Hin. apply elem_of_cons in Hin as [?|?]; contradiction.
Qed.

Lemma foldl_set_collaborators_for_task (f : string -> gmap string (gmap nat (list string))
                                                -> gmap string (gmap nat (list string)))
    (l : list string) a :
  foldl (fun s x => Assigner.set_collaborators_for_task
                      (f x (Assigner.collaborators_for_task s)) s) a l
  = Assigner.set_collaborators_for_task
      (foldl (fun d x => f x d) (Assigner.collaborators_for_task a) l) a.
Proof.
  revert a. induction l as [|x l IH]; intros a; cbn [foldl]; [now destruct a|].
  rewrite IH. now destruct a.
Qed.

Lemma foldl_set_collaborator_tasks (f : string -> gmap string (gmap nat (list string))
                                         -> gmap string (gmap nat (list string)))
    (l : list string) a :
  foldl (fun s x => Assigner.set_collaborator_tasks
                      (f x (Assigner.collaborator_tasks s)) s) a l
  = Assigner.set_collaborator_tasks
      (foldl (fun d x => f x d) (Assigner.collaborator_tasks a) l) a.
Proof.
  revert a. induction l as [|x l IH]; intros a; cbn [foldl]; [now destruct a|].
  rewrite IH. now destruct a.
Qed.

Lemma lookup2_foldl_insert d (n : nat) (l : list string) (k : string) (r : nat) :
  Spec.lookup2 (foldl (fun m x => <[x := Assigner.empty_rounds n]> m) d l) k r
  = if decide (k ∈ l) then (if decide (r < n) then Some [] else None)
    else Spec.lookup2 d k r.
Proof.
  unfold Spec.lookup2. rewrite lookup_foldl_insert.
  destruct (decide (k ∈ l)); [|reflexivity]. simpl. apply empty_rounds_lookup.
Qed.

Lemma define_task_assignments_run a :
  Assigner.define_task_assignments a
  = if Spec.percentages_accepted (Assigner.task_groups a)
    then Ok tt (Spec.with_assignment_keys a) else Raise AssertionError a.
Proof.
  unfold Spec.percentages_accepted, Assigner.define_task_assignments.
  unfold bind at 1, gets at 1. unfold bind at 1, assert.
  destruct (PrimFloat.ltb _ _); [|reflexivity].
  unfold ret at 1. unfold bind at 1, modify at 1.
  set (all := remove_dups (concat (Assigner.tasks <$> Assigner.task_groups a))).
  set (a1 := Assigner.set_all_tasks_in_groups all a).
  assert (Hall1 : Assigner.all_tasks_in_groups a1 = all) by now destruct a.
  assert (Hr1 : Assigner.rounds a1 = Assigner.rounds a) by now destruct a.
  unfold bind at 1, gets at 1. unfold bind at 1, gets at 1.
  unfold bind at 1. rewrite Hall1, Hr1.
  rewrite (for_modify all
             (fun task s => Assigner.set_collaborators_for_task
                (<[task := Assigner.empty_rounds (Assigner.rounds a)]>
                   (Assigner.collaborators_for_task s)) s)).
  rewrite (foldl_set_collaborators_for_task
             (fun x d => <[x := Assigner.empty_rounds (Assigner.rounds a)]> d)).
  set (a2 := Assigner.set_collaborators_for_task _ a1).
  unfold bind at 1, gets at 1.
  assert (Hc2 : Assigner.authorized_cols a2 = Assigner.authorized_cols a)
    by now destruct a.
  rewrite Hc2.
  rewrite (for_modify (Assigner.authorized_cols a)
             (fun col s => Assigner.set_collaborator_tasks
                (<[col := Assigner.empty_rounds (Assigner.rounds a)]>
                   (Assigner.collaborator_tasks s)) s)).
  rewrite (foldl_set_collaborator_tasks
             (fun x d => <[x := Assigner.empty_rounds (Assigner.rounds a)]> d)).
  unfold Spec.with_assignment_keys. now destruct a.
Qed.

Lemma with_assignment_keys_fields a :
  let a' := Spec.with_assignment_keys a in
  Assigner.task_groups a' = Assigner.task_groups a
  /\ Assigner.authorized_cols a' = Assigner.authorized_cols a
  /\ Assigner.rounds a' = Assigner.rounds a
  /\ Assigner.collaborators_to_assign a' = Assigner.collaborators_to_assign a
  /\ Assigner.all_tasks_in_groups a'
     = remove_dups (concat (Assigner.tasks <$> Assigner.task_groups a))
  /\ Assigner.collaborators_for_task a'
     = foldl (fun d x => <[x := Assigner.empty_rounds (Assigner.rounds a)]> d)
         (Assigner.collaborators_for_task a)
         (remove_dups (concat (Assigner.tasks <$> Assigner.task_groups a)))
  /\ Assigner.collaborator_tasks a'
     = foldl (fun d x => <[x := Assigner.empty_rounds (Assigner.rounds a)]> d)
         (Assigner.collaborator_tasks a) (Assigner.authorized_cols a).
Proof. unfold Spec.with_assignment_keys. now destruct a. Qed.


Lemma with_assignment_keys_keyed a :
  Assigner.collaborator_tasks a = ∅ ->
  Assigner.collaborators_for_task a = ∅ ->
  Spec.rounds_keyed (Spec.with_assignment_keys a).
Proof.
  intros Hct0 Hcft0.
  pose proof (with_assignment_keys_fields a) as (Hg & Hc & Hr & Hcta & Hall & Hcft & Hct).
  cbn zeta in *. unfold Spec.rounds_keyed, Spec.keyed.
  rewrite Hc, Hr, Hall, Hcft, Hct, Hct0, Hcft0.
  split; split.
  - intros k. rewrite lookup_foldl_insert, lookup_empty.
    destruct (decide (k ∈ _)) as [Hin|Hnin]; split; eauto.
    + intros [? ?]; discriminate.
    + contradiction.
  - intros k r. rewrite lookup2_foldl_insert. unfold Spec.lookup2 at 1.
    rewrite lookup_empty. simpl.
    destruct (decide (k ∈ _)) as [Hin|Hnin].
    + destruct (decide (r < _)); split; eauto; try tauto. intros [? ?]; discriminate.
    + split; [intros [? ?]; discriminate | tauto].
  - intros k. rewrite lookup_foldl_insert, lookup_empty.
    destruct (decide (k ∈ _)) as [Hin|Hnin]; split; eauto.
    + intros [? ?]; discriminate.
    + contradiction.
  - intros k r. rewrite lookup2_foldl_insert. unfold Spec.lookup2 at 1.
    rewrite lookup_empty. simpl.
    destruct (decide (k ∈ _)) as [Hin|Hnin].
    + destruct (decide (r < _)); split; eauto; try tauto. intros [? ?]; discriminate.
    + split; [intros [? ?]; discriminate | tauto].
Qed.

End Keys.

(** ** Invariants of [assign_tasks] *)

Section AssignInvariants.

Implicit Types (a s : Assigner.t) (d : gmap string (gmap nat (list string))).

Lemma wp_state {S A} (m : py S A) (Q : S -> Prop) (s : S) :
  Q (state_of (m s)) -> wp m (fun _ => Q) (fun _ => Q) s.
Proof. unfold wp. now destruct (m s). Qed.

Lemma lookup2_upd2_ne d (k : string) (r : nat) (v : list string) (k' : string) (r' : nat) :
  k' <> k \/ r' <> r ->
  Spec.lookup2 (Spec.upd2 d k r v) k' r' = Spec.lookup2 d k' r'.
Proof.
  intros Hne. unfold Spec.upd2.
  destruct (d !! k) as [inner|] eqn:Hk; [|reflexivity].
  fold (Spec.upd2 d k r v). replace (<[k:=<[r:=v]> inner]> d) with (Spec.upd2 d k r v)
    by (unfold Spec.upd2; now rewrite Hk).
  rewrite lookup2_upd2 by eauto. rewrite decide_False; [reflexivity|].
  intros [-> ->]. destruct Hne; congruence.
Qed.

Lemma lookup2_upd2_eq d (k : string) (r : nat) (v : list string) :
  is_Some (d !! k) -> Spec.lookup2 (Spec.upd2 d k r v) k r = Some v.
Proof. intros Hk. rewrite lookup2_upd2 by exact Hk. now rewrite decide_True. Qed.

(** What the three stores leave, whether they return or raise. *)
Lemma store_collaborator_tasks_state (c : string) (r : nat) (v : list string) a :
  state_of (Assigner.store_collaborator_tasks c r v a)
  = Assigner.set_collaborator_tasks (Spec.upd2 (Assigner.collaborator_tasks a) c r v) a.
Proof.
  unfold Assigner.store_collaborator_tasks, bind, gets, lift, getitem, modify, Spec.upd2.
  destruct (Assigner.collaborator_tasks a !! c); simpl; now destruct a.
Qed.

Lemma store_collaborators_for_task_state (t : string) (r : nat) (v : list string) a :
  state_of (Assigner.store_collaborators_for_task t r v a)
  = Assigner.set_collaborators_for_task
      (Spec.upd2 (Assigner.collaborators_for_task a) t r v) a.
Proof.
  unfold Assigner.store_collaborators_for_task, bind, gets, lift, getitem, modify,
    Spec.upd2.
  destruct (Assigner.collaborators_for_task a !! t); simpl; now destruct a.
Qed.

Lemma extend_collaborators_for_task_state (t : string) (r : nat) (v : list string) a :
  state_of (Assigner.extend_collaborators_for_task t r v a)
  = Assigner.set_collaborators_for_task
      (Spec.ext2 (Assigner.collaborators_for_task a) t r v) a.
Proof.
  unfold Assigner.extend_collaborators_for_task, bind, gets, lift, getitem, modify,
    Spec.ext2.
  destruct (Assigner.collaborators_for_task a !! t) as [inner|]; simpl;
    [|now destruct a].
  destruct (inner !! r); simpl; now destruct a.
Qed.

Lemma traverse_index_subseteq (cta : list string) (idxs : list nat) (sel : list string) :
  traverse (index cta) idxs = inr sel -> forall c, c ∈ sel -> c ∈ cta.
Proof.
  revert sel. induction idxs as [|i idxs IH]; intros sel Ht c Hc; simpl in Ht.
  - injection Ht as <-. inversion Hc.
  - unfold index at 1 in Ht. destruct (cta !! i) as [x|] eqn:Hx; [|discriminate].
    destruct (traverse (index cta) idxs) as [e|ys]; [discriminate|].
    injection Ht as <-. apply elem_of_cons in Hc as [->|Hc].
    + eapply list_elem_of_lookup_2, Hx.
    + now apply (IH ys).
Qed.

(** A property of the assigner that the assignments of the last loop
    of [assign_tasks] keep is kept by the loop, however it ends. *)
Lemma assign_rounds_inv (Inv : Assigner.t -> Prop) (rs : list nat) (size : nat)
    (rng : nat -> list nat) :
  (forall s v, Inv s -> Inv (Assigner.set_task_group_collaborators v s)) ->
  (forall s col r v, Inv s -> col ∈ Assigner.collaborators_to_assign s -> r ∈ rs ->
     Inv (Assigner.set_collaborator_tasks
            (Spec.upd2 (Assigner.collaborator_tasks s) col r v) s)) ->
  (forall s t r v, Inv s -> r ∈ rs ->
     Inv (Assigner.set_collaborators_for_task
            (Spec.ext2 (Assigner.collaborators_for_task s) t r v) s)) ->
  forall s, Inv s ->
    wp (for_ rs (Assigner.assign_round size rng)) (fun _ => Inv) (fun _ => Inv) s.
Proof.
  intros Hgroup Hstore Hextend s HInv.
  assert (Hcta : forall s v, Assigner.collaborators_to_assign
                               (Assigner.set_collaborator_tasks v s)
                             = Assigner.collaborators_to_assign s)
    by (intros [] ?; reflexivity).
  apply (wp_for_ (fun _ => Inv)); [exact HInv | | auto].
  intros pre r post s1 Hrs HInv1.
  assert (Hr : r ∈ rs).
  { rewrite Hrs. apply elem_of_app. right. apply list_elem_of_here. }
  unfold Assigner.assign_round. apply wp_bind, wp_gets, wp_bind.
  apply (wp_fold_ (fun _ _ => Inv)); [exact HInv1 | |].
  - intros pre' g post' idx s2 _ HInv2. unfold Assigner.assign_group.
    apply wp_bind, wp_lift. destruct (Assigner.num_col_in_group g size) as [e|k];
      [exact HInv2|].
    apply wp_bind, wp_gets, wp_bind, wp_lift.
    destruct (traverse _ _) as [e|sel] eqn:Hsel; [exact HInv2|].
    pose proof (traverse_index_subseteq _ _ _ Hsel) as Hsub.
    apply wp_bind, wp_modify, wp_bind.
    apply (wp_for_ (fun _ s' => Inv s' /\ Assigner.collaborators_to_assign s'
                                          = Assigner.collaborators_to_assign s2)).
    + split; [now apply Hgroup | now destruct s2].
    + intros pre'' col post'' s3 Hl [HInv3 Hc3].
      eapply wp_mono;
        [apply (wp_state _ (fun s' => Inv s' /\ Assigner.collaborators_to_assign s'
                                               = Assigner.collaborators_to_assign s2))
        | auto | now intros ? ? [? _] ].
      rewrite store_collaborator_tasks_state. split; [|now rewrite Hcta].
      apply Hstore; [exact HInv3 | | exact Hr].
      rewrite Hc3. apply Hsub. rewrite Hl. apply elem_of_app. right.
      apply list_elem_of_here.
    + intros s3 [HInv3 _]. apply wp_bind.
      apply (wp_for_ (fun _ => Inv)); [exact HInv3 | |].
      * intros pre'' t post'' s4 _ HInv4. apply wp_state.
        rewrite extend_collaborators_for_task_state. now apply Hextend.
      * intros s4 HInv4. apply wp_ret. exact HInv4.
  - intros idx s2 HInv2. apply wp_assert. now destruct (bool_decide _).
Qed.

(** The same for the two loops that reset the rounds to come. *)
Lemma reset_dropped_inv (Inv : Assigner.t -> Prop) (cols : list string) (rs : list nat) :
  (forall s col r, Inv s -> col ∈ cols -> col ∉ Assigner.collaborators_to_assign s ->
     r ∈ rs ->
     Inv (Assigner.set_collaborator_tasks
            (Spec.upd2 (Assigner.collaborator_tasks s) col r []) s)) ->
  forall s, Inv s ->
    wp (for_ cols (fun col =>
          cta <- gets Assigner.collaborators_to_assign ;;
          if bool_decide (col ∈ cta) then ret tt
          else for_ rs (fun i => Assigner.store_collaborator_tasks col i [])))
       (fun _ => Inv) (fun _ => Inv) s.
Proof.
  intros Hstore s HInv.
  assert (Hcta : forall s v, Assigner.collaborators_to_assign
                               (Assigner.set_collaborator_tasks v s)
                             = Assigner.collaborators_to_assign s)
    by (intros [] ?; reflexivity).
  apply (wp_for_ (fun _ => Inv)); [exact HInv | | auto].
  intros pre col post s1 Hl HInv1. apply wp_bind, wp_gets.
  case_bool_decide as Hin; [apply wp_ret; exact HInv1|].
  apply (wp_for_ (fun _ s' => Inv s' /\ Assigner.collaborators_to_assign s'
                                        = Assigner.collaborators_to_assign s1)).
  - now split.
  - intros pre' r post' s2 Hrs [HInv2 Hc2].
    eapply wp_mono;
      [apply (wp_state _ (fun s' => Inv s' /\ Assigner.collaborators_to_assign s'
                                             = Assigner.collaborators_to_assign s1))
      | auto | now intros ? ? [? _] ].
    rewrite store_collaborator_tasks_state. split; [|now rewrite Hcta].
    apply Hstore; [exact HInv2 | | now rewrite Hc2 |].
    + rewrite Hl. apply elem_of_app. right. apply list_elem_of_here.
    + rewrite Hrs. apply elem_of_app. right. apply list_elem_of_here.
  - now intros s2 [HInv2 _].
Qed.

Lemma reset_tasks_inv (Inv : Assigner.t -> Prop) (tasks : list string) (rs : list nat) :
  (forall s t r, Inv s -> t ∈ tasks -> r ∈ rs ->
     Inv (Assigner.set_collaborators_for_task
            (Spec.upd2 (Assigner.collaborators_for_task s) t r []) s)) ->
  forall s, Inv s ->
    wp (for_ tasks (fun task =>
          for_ rs (fun round_num =>
            Assigner.store_collaborators_for_task task round_num [])))
       (fun _ => Inv) (fun _ => Inv) s.
Proof.
  intros Hstore s HInv.
  apply (wp_for_ (fun _ => Inv)); [exact HInv | | auto].
  intros pre t post s1 Hl HInv1.
  apply (wp_for_ (fun _ => Inv)); [exact HInv1 | | auto].
  intros pre' r post' s2 Hrs HInv2. apply wp_state.
  rewrite store_collaborators_for_task_state. apply Hstore; [exact HInv2 | |].
  - rewrite Hl. apply elem_of_app. right. apply list_elem_of_here.
  - rewrite Hrs. apply elem_of_app. right. apply list_elem_of_here.
Qed.

End AssignInvariants.

Section KeyInvariant.

Implicit Types (a s : Assigner.t) (d : gmap string (gmap nat (list string))).

Lemma keyed_upd2 d (keys : list string) (n : nat) (k : string) (r : nat)
    (v : list string) :
  r < n -> Spec.keyed d keys n -> Spec.keyed (Spec.upd2 d k r v) keys n.
Proof.
  intros Hr [Houter Hinner]. split.
  - intros k'. rewrite upd2_keys. apply Houter.
  - intros k' r'. destruct (decide (k' = k /\ r' = r)) as [[-> ->]|Hne].
    + destruct (d !! k) as [inner|] eqn:Hk.
      * rewrite lookup2_upd2_eq by eauto. split; [|eauto].
        intros _. split; [apply Houter; eauto | exact Hr].
      * unfold Spec.upd2. rewrite Hk. apply Hinner.
    + rewrite lookup2_upd2_ne; [apply Hinner|].
      destruct (decide (k' = k)); [right|left]; [intros ->; tauto | assumption].
Qed.

Lemma keyed_ext2 d (keys : list string) (n : nat) (k : string) (r : nat)
    (v : list string) :
  Spec.keyed d keys n -> Spec.keyed (Spec.ext2 d k r v) keys n.
Proof.
  intros [Houter Hinner]. split.
  - intros k'. rewrite ext2_keys. apply Houter.
  - intros k' r'. rewrite lookup2_ext2. destruct (decide _); [|apply Hinner].
    rewrite fmap_is_Some. apply Hinner.
Qed.

(** [assign_tasks] assembled from its three loops. *)
Lemma assign_tasks_inv (Inv : Assigner.t -> Prop) (from : nat) (rng : nat -> list nat) a :
  (forall s v, Inv s -> Inv (Assigner.set_task_group_collaborators v s)) ->
  (forall s col r v, Inv s -> from <= r < Assigner.rounds a ->
     Inv (Assigner.set_collaborator_tasks
            (Spec.upd2 (Assigner.collaborator_tasks s) col r v) s)) ->
  (forall s t r v, Inv s -> from <= r < Assigner.rounds a ->
     Inv (Assigner.set_collaborators_for_task
            (Spec.upd2 (Assigner.collaborators_for_task s) t r v) s)) ->
  (forall s t r v, Inv s -> from <= r < Assigner.rounds a ->
     Inv (Assigner.set_collaborators_for_task
            (Spec.ext2 (Assigner.collaborators_for_task s) t r v) s)) ->
  Inv a ->
  wp (Assigner.assign_tasks from rng) (fun _ => Inv) (fun _ => Inv) a.
Proof.
  intros Hgroup Hstore Hreset Hextend HInv. unfold Assigner.assign_tasks.
  apply wp_bind, wp_gets, wp_bind, wp_gets, wp_bind.
  eapply wp_mono; [apply (reset_dropped_inv Inv) | | auto]; [ | exact HInv | ].
  { intros s col r Hs _ _ Hr. apply Hstore; [exact Hs | now apply elem_of_range]. }
  intros [] s1 HInv1. cbn beta. apply wp_bind, wp_gets, wp_bind.
  eapply wp_mono; [apply (reset_tasks_inv Inv) | | auto]; [ | exact HInv1 | ].
  { intros s t r Hs _ Hr. apply Hreset; [exact Hs | now apply elem_of_range]. }
  intros [] s2 HInv2. cbn beta. apply wp_bind, wp_gets.
  apply (assign_rounds_inv Inv); [exact Hgroup | | | exact HInv2].
  - intros s col r v Hs _ Hr. apply Hstore; [exact Hs | now apply elem_of_range].
  - intros s t r v Hs Hr. apply Hextend; [exact Hs | now apply elem_of_range].
Qed.

(** The plan settings and the keys of the dictionaries are kept by
    [assign_tasks], however it ends. *)
Lemma assign_tasks_keyed (from : nat) (rng : nat -> list nat) a :
  Spec.rounds_keyed a ->
  Spec.same_plan a (state_of (Assigner.assign_tasks from rng a))
  /\ Spec.rounds_keyed (state_of (Assigner.assign_tasks from rng a)).
Proof.
  intros Hk.
  pose proof (assign_tasks_inv
                (fun s => Spec.same_plan a s /\ Spec.rounds_keyed s) from rng a) as Hwp.
  unfold wp in Hwp.
  assert (Hgoal : forall X : Assigner.t -> Prop,
            (match Assigner.assign_tasks from rng a with
             | Ok _ s' => X s' | Raise _ s' => X s' end) ->
            X (state_of (Assigner.assign_tasks from rng a)))
    by (intros X; now destruct (Assigner.assign_tasks from rng a)).
  apply (Hgoal (fun s => Spec.same_plan a s /\ Spec.rounds_keyed s)).
  apply Hwp.
  - intros s v [Hp Hs]. unfold Spec.same_plan, Spec.rounds_keyed in *.
    now destruct s.
  - intros s col r v [Hp [Hct Hcft]] Hr. split.
    + unfold Spec.same_plan in *. now destruct s.
    + destruct Hp as (_ & _ & Hrounds & _).
      assert (Hkd : Spec.keyed (Spec.upd2 (Assigner.collaborator_tasks s) col r v)
                      (Assigner.authorized_cols s) (Assigner.rounds s))
        by (apply keyed_upd2; [lia | exact Hct]).
      unfold Spec.rounds_keyed. now destruct s.
  - intros s t r v [Hp [Hct Hcft]] Hr. split.
    + unfold Spec.same_plan in *. now destruct s.
    + destruct Hp as (_ & _ & Hrounds & _).
      assert (Hkd : Spec.keyed (Spec.upd2 (Assigner.collaborators_for_task s) t r v)
                      (Assigner.all_tasks_in_groups s) (Assigner.rounds s))
        by (apply keyed_upd2; [lia | exact Hcft]).
      unfold Spec.rounds_keyed. now destruct s.
  - intros s t r v [Hp [Hct Hcft]] Hr. split.
    + unfold Spec.same_plan in *. now destruct s.
    + assert (Hkd : Spec.keyed (Spec.ext2 (Assigner.collaborators_for_task s) t r v)
                      (Assigner.all_tasks_in_groups s) (Assigner.rounds s))
        by (apply keyed_ext2; exact Hcft).
      unfold Spec.rounds_keyed. now destruct s.
  - split; [unfold Spec.same_plan; tauto | exact Hk].
Qed.

Lemma end_of_round_keyed (e : Spec.round_end) a :
  Spec.rounds_keyed a ->
  Spec.same_plan a (Spec.after_round_ends [e] a)
  /\ Spec.rounds_keyed (Spec.after_round_ends [e] a).
Proof.
  intros Hk. unfold Spec.after_round_ends. cbn [foldl].
  unfold Assigner.end_of_round, bind, gets.
  case_bool_decide; simpl; [split; [unfold Spec.same_plan; tauto | exact Hk]|].
  unfold modify.
  set (a1 := Assigner.set_collaborators_to_assign _ a).
  assert (Hk1 : Spec.rounds_keyed a1) by (unfold Spec.rounds_keyed in *; now destruct a).
  assert (Hp1 : Spec.same_plan a a1) by (unfold Spec.same_plan; now destruct a).
  destruct (assign_tasks_keyed (Spec.next_round e) (Spec.draw e) a1 Hk1) as [Hp Hk'].
  split; [|exact Hk'].
  destruct Hp1 as (G1 & A1 & R1 & T1), Hp as (G2 & A2 & R2 & T2).
  unfold Spec.same_plan. repeat split; congruence.
Qed.

Lemma after_round_ends_keyed (ends : list Spec.round_end) a :
  Spec.rounds_keyed a ->
  Spec.same_plan a (Spec.after_round_ends ends a)
  /\ Spec.rounds_keyed (Spec.after_round_ends ends a).
Proof.
  revert a. induction ends as [|e ends IH]; intros a Hk.
  - split; [unfold Spec.same_plan; tauto | exact Hk].
  - destruct (end_of_round_keyed e a Hk) as [Hp1 Hk1].
    destruct (IH _ Hk1) as [Hp2 Hk2]. split; [|exact Hk2].
    destruct Hp1 as (G1 & A1 & R1 & T1), Hp2 as (G2 & A2 & R2 & T2).
    unfold Spec.same_plan. change (Spec.after_round_ends (e :: ends) a)
      with (Spec.after_round_ends ends (Spec.after_round_ends [e] a)).
    repeat split; congruence.
Qed.

Lemma init_keyed (groups : list Assigner.TaskGroup) (cols : list string) (n : nat)
    (rng : nat -> list nat) :
  Spec.percentages_accepted groups = true ->
  let a := state_of (Assigner.init groups cols n rng) in
  Spec.rounds_keyed a
  /\ Assigner.authorized_cols a = cols /\ Assigner.rounds a = n
  /\ forall t, t ∈ Assigner.all_tasks_in_groups a
               <-> exists g, g ∈ groups /\ t ∈ Assigner.tasks g.
Proof.
  intros Hok.
  set (a0 := {| Assigner.task_groups := groups; Assigner.authorized_cols := cols;
                Assigner.rounds := n; Assigner.all_tasks_in_groups := [];
                Assigner.task_group_collaborators := ∅;
                Assigner.collaborators_for_task := ∅;
                Assigner.collaborator_tasks := ∅;
                Assigner.collaborators_to_assign := [] |}).
  set (a1 := Assigner.set_collaborators_to_assign cols (Spec.with_assignment_keys a0)).
  assert (Hinit : Assigner.init groups cols n rng = Assigner.assign_tasks 0 rng a1).
  { unfold Assigner.init. fold a0. unfold bind at 1.
    rewrite define_task_assignments_run.
    change (Assigner.task_groups a0) with groups. rewrite Hok.
    unfold bind at 1, gets at 1. unfold bind at 1, modify at 1.
    pose proof (with_assignment_keys_fields a0) as (_ & Hc & _). cbn zeta in Hc.
    now rewrite Hc. }
  rewrite Hinit. clear Hinit.
  pose proof (with_assignment_keys_fields a0) as (Hg & Hc & Hr & Hcta & Hall & _).
  pose proof (with_assignment_keys_keyed a0 eq_refl eq_refl) as Hk.
  cbn zeta in *.
  assert (Hk1 : Spec.rounds_keyed a1).
  { unfold Spec.rounds_keyed in *. subst a1.
    now destruct (Spec.with_assignment_keys a0). }
  assert (Hf1 : Assigner.authorized_cols a1 = cols /\ Assigner.rounds a1 = n
                /\ Assigner.all_tasks_in_groups a1
                   = remove_dups (concat (Assigner.tasks <$> groups))).
  { subst a1. destruct (Spec.with_assignment_keys a0); simpl in *. auto. }
  destruct Hf1 as (Hc1 & Hr1 & Hall1).
  destruct (assign_tasks_keyed 0 rng a1 Hk1) as [(_ & Hc2 & Hr2 & Hall2) Hk2].
  cbn zeta. split; [exact Hk2|]. split; [congruence|]. split; [congruence|].
  intros t. rewrite Hall2, Hall1, elem_of_remove_dups, elem_of_concat. split.
  - intros (l & Ht & Hl). apply list_elem_of_fmap in Hl as (g & -> & Hin). eauto.
  - intros (g & Hin & Ht). exists (Assigner.tasks g). split; [exact Ht|].
    apply list_elem_of_fmap. eauto.
Qed.


End KeyInvariant.


Section Dropped.

Implicit Types (a s : Assigner.t) (d : gmap string (gmap nat (list string))).

Lemma wp_state_inv {S A} (m : py S A) (Q : S -> Prop) (s : S) :
  wp m (fun _ => Q) (fun _ => Q) s -> Q (state_of (m s)).
Proof. unfold wp. now destruct (m s). Qed.

Lemma lookup2_upd2_empty d (k : string) (r : nat) (k' : string) (r' : nat) :
  Spec.lookup2 d k' r' = Some [] -> Spec.lookup2 (Spec.upd2 d k r []) k' r' = Some [].
Proof.
  intros Hold. destruct (decide (k' = k /\ r' = r)) as [[-> ->]|Hne].
  - apply lookup2_upd2_eq. unfold Spec.lookup2 in Hold.
    destruct (d !! k); [eauto | discriminate].
  - rewrite lookup2_upd2_ne; [exact Hold|].
    destruct (decide (k' = k)); [right|left]; [intros ->; tauto | assumption].
Qed.

(** The first loop of [assign_tasks], for a collaborator it resets. *)
Lemma reset_dropped_clears (from : nat) a (c : string) :
  (forall col, col ∈ Assigner.authorized_cols a ->
               is_Some (Assigner.collaborator_tasks a !! col)) ->
  c ∈ Assigner.authorized_cols a ->
  c ∉ Assigner.collaborators_to_assign a ->
  wp (for_ (Assigner.authorized_cols a) (fun col =>
        cta <- gets Assigner.collaborators_to_assign ;;
        if bool_decide (col ∈ cta) then ret tt
        else for_ (range from (Assigner.rounds a))
               (fun i => Assigner.store_collaborator_tasks col i [])))
     (fun _ s =>
        Assigner.collaborators_to_assign s = Assigner.collaborators_to_assign a
        /\ Assigner.rounds s = Assigner.rounds a
        /\ Assigner.all_tasks_in_groups s = Assigner.all_tasks_in_groups a
        /\ forall r, from <= r < Assigner.rounds a ->
             Spec.lookup2 (Assigner.collaborator_tasks s) c r = Some [])
     (fun _ _ => False) a.
Proof.
  intros Hkeys Hc Hdropped.
  set (rs := range from (Assigner.rounds a)).
  set (Base := fun s =>
         Assigner.collaborators_to_assign s = Assigner.collaborators_to_assign a
         /\ Assigner.rounds s = Assigner.rounds a
         /\ Assigner.all_tasks_in_groups s = Assigner.all_tasks_in_groups a
         /\ forall col, is_Some (Assigner.collaborator_tasks s !! col)
                        <-> is_Some (Assigner.collaborator_tasks a !! col)).
  set (Cleared := fun (col : string) (done : list nat) s =>
         forall r, r ∈ done -> Spec.lookup2 (Assigner.collaborator_tasks s) col r = Some []).
  assert (Hstep : forall s col r (X : Assigner.t -> Prop),
            Base s -> col ∈ Assigner.authorized_cols a ->
            (forall s', Base s' ->
               Assigner.collaborator_tasks s'
               = Spec.upd2 (Assigner.collaborator_tasks s) col r [] -> X s') ->
            wp (Assigner.store_collaborator_tasks col r []) (fun _ => X)
              (fun _ _ => False) s).
  { intros s col r X (Hb1 & Hb2 & Hb3 & Hb4) Hcol HX. unfold wp.
    rewrite store_collaborator_tasks_run by (apply Hb4, Hkeys, Hcol).
    apply HX; [|now destruct s]. unfold Base. destruct s; simpl in *.
    repeat (split; [assumption|]). intros col'. rewrite upd2_keys. apply Hb4. }
  apply (wp_for_ (fun pre s => Base s /\ (c ∈ pre -> Cleared c rs s))).
  - split; [unfold Base; tauto|]. intros H. inversion H.
  - intros pre col post s Hl [Hbase Hpre].
    assert (Hcol : col ∈ Assigner.authorized_cols a).
    { rewrite Hl. apply elem_of_app. right. apply list_elem_of_here. }
    apply wp_bind, wp_gets. destruct Hbase as (Hb1 & Hbrest). rewrite Hb1.
    assert (Hbase : Base s) by (split; assumption).
    case_bool_decide as Hin.
    + apply wp_ret. split; [exact Hbase|]. intros Hcin.
      apply elem_of_app in Hcin as [Hcin|Hcin]; [now apply Hpre|].
      apply list_elem_of_singleton in Hcin. subst col. contradiction.
    + apply (wp_for_ (fun done s' =>
               Base s' /\ (c ∈ pre -> Cleared c rs s') /\ Cleared col done s')).
      * split; [exact Hbase|]. split; [exact Hpre|]. intros r H. inversion H.
      * intros done r post' s' _ (Hbase' & Hpre' & Hdone).
        apply Hstep; [exact Hbase' | exact Hcol |]. intros s'' Hbase'' Heq.
        split; [exact Hbase''|]. split.
        -- intros Hcin r' Hr'. rewrite Heq. apply lookup2_upd2_empty. now apply Hpre'.
        -- intros r' Hr'. rewrite Heq. apply elem_of_app in Hr' as [Hr'|Hr'].
           ++ apply lookup2_upd2_empty. now apply Hdone.
           ++ apply list_elem_of_singleton in Hr'. subst r'.
              apply lookup2_upd2_eq. destruct Hbase' as (_ & _ & _ & Hk).
              apply Hk, Hkeys, Hcol.
      * intros s' (Hbase' & Hpre' & Hdone). split; [exact Hbase'|].
        intros Hcin. apply elem_of_app in Hcin as [Hcin|Hcin]; [now apply Hpre'|].
        apply list_elem_of_singleton in Hcin. subst col. exact Hdone.
  - intros s [(Hb1 & Hb2 & Hb3 & _) Hcleared].
    split; [exact Hb1|]. split; [exact Hb2|]. split; [exact Hb3|].
    intros r Hr. apply (Hcleared Hc). now apply elem_of_range.
Qed.

Lemma assign_tasks_clears_dropped (from : nat) (rng : nat -> list nat) a (c : string)
    (r : nat) :
  (forall col, col ∈ Assigner.authorized_cols a ->
               is_Some (Assigner.collaborator_tasks a !! col)) ->
  c ∈ Assigner.authorized_cols a ->
  c ∉ Assigner.collaborators_to_assign a ->
  from <= r < Assigner.rounds a ->
  Assigner.get_tasks_for_collaborator c r (state_of (Assigner.assign_tasks from rng a))
  = inr [].
Proof.
  intros Hkeys Hc Hdropped Hr.
  set (Inv := fun s =>
         Assigner.collaborators_to_assign s = Assigner.collaborators_to_assign a
         /\ forall r, from <= r < Assigner.rounds a ->
              Spec.lookup2 (Assigner.collaborator_tasks s) c r = Some []).
  enough (HInv : Inv (state_of (Assigner.assign_tasks from rng a))).
  { rewrite get_tasks_for_collaborator_lookup2. destruct HInv as [_ HInv].
    now rewrite (HInv r Hr). }
  apply wp_state_inv. unfold Assigner.assign_tasks.
  apply wp_bind, wp_gets, wp_bind, wp_gets, wp_bind.
  eapply wp_mono; [apply (reset_dropped_clears from a c Hkeys Hc Hdropped) | | contradiction].
  intros [] s1 (Hcta1 & Hr1 & Hall1 & Hclear1). cbn beta.
  assert (HInv1 : Inv s1) by (split; assumption).
  apply wp_bind, wp_gets, wp_bind.
  eapply wp_mono; [apply (reset_tasks_inv Inv) | | auto]; [ | exact HInv1 | ].
  { intros s t r' [Hs1 Hs2] _ _. unfold Inv. now destruct s. }
  intros [] s2 HInv2. cbn beta. apply wp_bind, wp_gets.
  apply (assign_rounds_inv Inv); [ | | | exact HInv2].
  - intros s v [Hs1 Hs2]. unfold Inv. now destruct s.
  - intros s col r' v [Hs1 Hs2] Hcol _. split; [now destruct s|].
    intros r'' Hr''.
    assert (Heq : Assigner.collaborator_tasks
                    (Assigner.set_collaborator_tasks
                       (Spec.upd2 (Assigner.collaborator_tasks s) col r' v) s)
                  = Spec.upd2 (Assigner.collaborator_tasks s) col r' v) by now destruct s.
    rewrite Heq, lookup2_upd2_ne; [now apply Hs2|].
    left. intros ->. apply Hdropped. now rewrite <- Hs1.
  - intros s t r' v [Hs1 Hs2] _. unfold Inv. now destruct s.
Qed.

(** A collaborator that is authorized but not among the assignees has
    an empty task list in every round that [assign_tasks] plans,
    however [assign_tasks] ends.  So after an [end_of_round] that
    changes the assignees, a straggler or a collaborator that was not
    available has no tasks from the next round on. *)
Theorem dropped_collaborators_get_no_tasks a (c : string) :
  (forall col, col ∈ Assigner.authorized_cols a ->
               is_Some (Assigner.collaborator_tasks a !! col)) ->
  c ∈ Assigner.authorized_cols a ->
  (forall from rng r,
     c ∉ Assigner.collaborators_to_assign a ->
     from <= r < Assigner.rounds a ->
     Assigner.get_tasks_for_collaborator c r
       (state_of (Assigner.assign_tasks from rng a)) = inr [])
  /\ (forall available stragglers next_round rng r,
        let candidates := filter (fun col => col ∉ stragglers) available in
        c ∉ candidates ->
        ~ candidates ≡ₚ Assigner.collaborators_to_assign a ->
        next_round <= r < Assigner.rounds a ->
        Assigner.get_tasks_for_collaborator c r
          (state_of (Assigner.end_of_round available stragglers next_round rng a))
        = inr []).
Proof.
  intros Hkeys Hc. split.
  - intros from rng r Hdropped Hr. now apply assign_tasks_clears_dropped.
  - intros available stragglers next_round rng r candidates Hout Hchanged Hr.
    rewrite (end_of_round_changed a available stragglers next_round rng Hchanged).
    fold candidates.
    apply assign_tasks_clears_dropped; try (destruct a; simpl in *; assumption).
Qed.

End Dropped.

(** Four authorized collaborators of which ["D"] is a straggler at the
    end of round 0 and ["C"] did not show up: both have nothing to do
    in round 1. *)
Lemma dropped_collaborators_get_no_tasks_witness :
  Assigner.get_tasks_for_collaborator "D" 1
    (state_of (Assigner.end_of_round ["A"; "B"; "D"] ["D"] 1 (fun _ => [1; 0])
                 (state_of (Assigner.init Scenario.two_halves ["A"; "B"; "C"; "D"] 2
                              (fun _ => [0; 1; 2; 3])))))
  = inr [].
Proof.
  refine (proj2 (dropped_collaborators_get_no_tasks
                   (state_of (Assigner.init Scenario.two_halves ["A"; "B"; "C"; "D"] 2
                                (fun _ => [0; 1; 2; 3]))) "D" _ _)
            ["A"; "B"; "D"] ["D"] 1 (fun _ => [1; 0]) 1 _ _ _).
  - intros col Hcol. apply (bool_decide_unpack _).
    change (Assigner.authorized_cols _) with ["A"; "B"; "C"; "D"] in Hcol.
    repeat (apply elem_of_cons in Hcol as [->|Hcol]; [vm_compute; exact I|]).
    inversion Hcol.
  - apply (bool_decide_unpack _). vm_compute. exact I.
  - apply (bool_decide_unpack _). vm_compute. exact I.
  - apply (bool_decide_unpack _). vm_compute. exact I.
  - vm_compute. lia.
Defined.

Section ReverseLookup.

Implicit Types (a s : Assigner.t) (counts : list Z).

Lemma elem_of_expected_for_task (t c : string)
    (gs : list (Assigner.TaskGroup * list string)) :
  c ∈ Spec.expected_for_task t gs
  <-> exists g sel, (g, sel) ∈ gs /\ t ∈ Assigner.tasks g /\ c ∈ sel.
Proof.
  unfold Spec.expected_for_task. rewrite elem_of_concat. split.
  - intros (l & Hc & Hl). apply list_elem_of_fmap in Hl as ([g sel] & -> & Hin).
    simpl in Hc. apply elem_of_concat in Hc as (l' & Hc & Hl').
    apply elem_of_replicate in Hl' as [-> Hocc].
    exists g, sel. split; [exact Hin|]. split; [|exact Hc].
    unfold Spec.occurrences in Hocc.
    destruct (filter (fun x => x = t) (Assigner.tasks g)) as [|x l] eqn:Hf;
      [contradiction|].
    assert (Hx : x ∈ filter (fun x => x = t) (Assigner.tasks g))
      by (rewrite Hf; apply list_elem_of_here).
    apply list_elem_of_filter in Hx as [-> Hx]. exact Hx.
  - intros (g & sel & Hin & Ht & Hc).
    exists (concat (replicate (Spec.occurrences t (Assigner.tasks g)) sel)). split.
    + apply elem_of_concat. exists sel. split; [exact Hc|].
      apply elem_of_replicate. split; [reflexivity|]. unfold Spec.occurrences.
      assert (Hx : t ∈ filter (fun x => x = t) (Assigner.tasks g))
        by (apply list_elem_of_filter; auto).
      destruct (filter _ _); [inversion Hx | simpl; lia].
    + apply list_elem_of_fmap. exists (g, sel). auto.
Qed.

(** [assign_tasks] with counts that add up: every round it plans holds
    the assignment of its selections. *)
Lemma assign_tasks_assigned (from_round : nat) (rng : nat -> list nat) counts a :
  Spec.well_keyed a ->
  (forall r, rng r ≡ₚ seq 0 (length (Assigner.collaborators_to_assign a))) ->
  Forall2 (fun g k => Assigner.num_col_in_group g
                        (length (Assigner.collaborators_to_assign a)) = inr k)
    (Assigner.task_groups a) counts ->
  Forall (fun k => (0 <= k)%Z) counts ->
  Spec.Zsum counts = Z.of_nat (length (Assigner.collaborators_to_assign a)) ->
  exists a',
    Assigner.assign_tasks from_round rng a = Ok tt a'
    /\ Spec.same_shape a a'
    /\ forall r, from_round <= r < Assigner.rounds a ->
         Spec.assigned
           (zip (Assigner.task_groups a)
              (Spec.group_selections (Assigner.collaborators_to_assign a) (rng r) counts))
           r a'.
Proof.
  intros Hwk Hperm Hcounts Hnonneg Hsum.
  assert (Hwp : wp (Assigner.assign_tasks from_round rng)
                  (fun _ a' =>
                     Spec.same_shape a a'
                     /\ forall r, from_round <= r < Assigner.rounds a ->
                          Spec.assigned
                            (zip (Assigner.task_groups a)
                               (Spec.group_selections
                                  (Assigner.collaborators_to_assign a) (rng r) counts))
                            r a')
                  (fun _ _ => False) a).
  { apply assign_tasks_wp; [exact Hwk|]. intros s Hshape Hwks Hpending.
    pose proof Hshape as (Hg & _ & _ & _ & Hc & _).
    eapply wp_mono; [apply (assign_rounds_run rng _ counts s Hwks) | | auto].
    - now rewrite Hg, Hc.
    - now rewrite Hc.
    - exact Hnonneg.
    - now rewrite Hc.
    - apply NoDup_seq.
    - intros r Hr. apply Hpending, elem_of_range, Hr.
    - intros [] s' [Hshape' Ha]. cbn beta. split.
      + eapply same_shape_trans; [exact Hshape | exact Hshape'].
      + intros r Hr. rewrite <- Hg, <- Hc. apply Ha, elem_of_range, Hr. }
  unfold wp in Hwp.
  destruct (Assigner.assign_tasks from_round rng a) as [[] a'|e a']; [|contradiction].
  exists a'. split; [reflexivity | exact Hwp].
Qed.

(** When [assign_tasks] divides the assignees among the groups, the
    two lookups it fills agree in every round it plans: an assignee is
    listed for a task of the groups exactly when the task is in the
    assignee's list. *)
Theorem reverse_lookup_agrees (from_round : nat) (rng : nat -> list nat) counts a :
  Spec.well_keyed a ->
  NoDup (Assigner.collaborators_to_assign a) ->
  (forall r, rng r ≡ₚ seq 0 (length (Assigner.collaborators_to_assign a))) ->
  Forall2 (fun g k => Assigner.num_col_in_group g
                        (length (Assigner.collaborators_to_assign a)) = inr k)
    (Assigner.task_groups a) counts ->
  Forall (fun k => (0 <= k)%Z) counts ->
  Spec.Zsum counts = Z.of_nat (length (Assigner.collaborators_to_assign a)) ->
  exists a',
    Assigner.assign_tasks from_round rng a = Ok tt a'
    /\ forall r c t,
         from_round <= r < Assigner.rounds a ->
         c ∈ Assigner.collaborators_to_assign a ->
         t ∈ Assigner.all_tasks_in_groups a ->
         exists ts cs,
           Assigner.get_tasks_for_collaborator c r a' = inr ts
           /\ Assigner.get_collaborators_for_task t r a' = inr cs
           /\ (c ∈ cs <-> t ∈ ts).
Proof.
  intros Hwk Hnd Hperm Hcounts Hnonneg Hsum.
  destruct (assign_tasks_assigned from_round rng counts a Hwk Hperm Hcounts Hnonneg Hsum)
    as (a' & Hrun & Hshape & Hassigned).
  exists a'. split; [exact Hrun|]. intros r c t Hr Hc Ht.
  pose proof Hshape as (_ & _ & _ & Hall & Hcta & _).
  destruct (Hassigned r Hr) as [Hfor Htasks].
  rewrite Hall in Hfor. rewrite Hcta in Htasks. specialize (Htasks Hnd).
  set (cta := Assigner.collaborators_to_assign a) in *.
  set (sels := Spec.group_selections cta (rng r) counts) in *.
  set (gs := zip (Assigner.task_groups a) sels) in *.
  destruct (group_selections_partition cta (rng r) counts (Hperm r) Hnonneg Hsum)
    as (Hcat & Hp & _). fold sels in Hcat.
  assert (Hlen : length (Assigner.task_groups a) = length sels).
  { subst sels. rewrite group_selections_length. now apply Forall2_length in Hcounts. }
  (* the group of [c] *)
  assert (Hmine : exists i g sel, gs !! i = Some (g, sel) /\ c ∈ sel).
  { assert (Hin : c ∈ concat sels) by (rewrite Hcat, Hp; exact Hc).
    apply elem_of_concat in Hin as (sel & Hcsel & Hsel).
    apply list_elem_of_lookup in Hsel as [i Hi].
    destruct (lookup_lt_is_Some_2 (Assigner.task_groups a) i) as [g Hg].
    { rewrite Hlen. eapply lookup_lt_Some, Hi. }
    exists i, g, sel. split; [|exact Hcsel].
    subst gs. rewrite lookup_zip_with, Hg. simpl. now rewrite Hi. }
  destruct Hmine as (i & g & sel & Hi & Hcsel).
  exists (Assigner.tasks g), (Spec.expected_for_task t gs).
  rewrite get_tasks_for_collaborator_lookup2, (Htasks i g sel c Hi Hcsel).
  rewrite get_collaborators_for_task_lookup2, (Hfor t Ht).
  split; [reflexivity|]. split; [reflexivity|].
  rewrite elem_of_expected_for_task. split.
  - intros (g' & sel' & Hin' & Ht' & Hc').
    apply list_elem_of_lookup in Hin' as [j Hj].
    pose proof (Htasks j g' sel' c Hj Hc') as Hagain.
    rewrite (Htasks i g sel c Hi Hcsel) in Hagain. injection Hagain as ->. exact Ht'.
  - intros Ht'. exists g, sel. split; [|auto]. eapply list_elem_of_lookup_2, Hi.
Qed.

End ReverseLookup.

Lemma defined_well_keyed (groups : list Assigner.TaskGroup) (cols : list string)
    (n : nat) :
  Spec.percentages_accepted groups = true ->
  Spec.well_keyed (Scenario.defined groups cols n)
  /\ Assigner.task_groups (Scenario.defined groups cols n) = groups
  /\ Assigner.collaborators_to_assign (Scenario.defined groups cols n) = cols
  /\ Assigner.rounds (Scenario.defined groups cols n) = n.
Proof.
  intros Hok.
  set (a0 := {| Assigner.task_groups := groups; Assigner.authorized_cols := cols;
                Assigner.rounds := n; Assigner.all_tasks_in_groups := [];
                Assigner.task_group_collaborators := ∅;
                Assigner.collaborators_for_task := ∅;
                Assigner.collaborator_tasks := ∅;
                Assigner.collaborators_to_assign := [] |}).
  pose proof (with_assignment_keys_fields a0) as (Hg & Hc & Hr & Hcta & Hall & _).
  pose proof (with_assignment_keys_keyed a0 eq_refl eq_refl) as [[Hct _] [Hcft _]].
  cbn zeta in *.
  assert (Hdef : Scenario.defined groups cols n
                 = Assigner.set_collaborators_to_assign cols
                     (Spec.with_assignment_keys a0)).
  { unfold Scenario.defined. fold a0. unfold bind at 1.
    rewrite define_task_assignments_run.
    change (Assigner.task_groups a0) with groups. rewrite Hok.
    unfold bind, gets, modify. cbn [state_of]. now rewrite Hc. }
  rewrite Hdef. clear Hdef.
  change (Assigner.authorized_cols a0) with cols in *.
  change (Assigner.task_groups a0) with groups in *.
  change (Assigner.rounds a0) with n in *.
  destruct (Spec.with_assignment_keys a0) as [g1 c1 r1 t1 x1 f1 k1 y1]; simpl in *.
  subst g1 c1 r1 t1. unfold Spec.well_keyed. simpl.
  split; [|repeat split; reflexivity]. split; [|split; [|split]].
  - intros col Hcol. now apply Hct.
  - intros col Hcol. now apply Hct.
  - intros task Htask. now apply Hcft.
  - intros g task Hg' Htask. rewrite elem_of_remove_dups, elem_of_concat.
    exists (Assigner.tasks g). split; [exact Htask|]. apply list_elem_of_fmap. eauto.
Qed.

(** Four collaborators in two halves with the permutation [C, A, D, B]:
    ["C"] trains, and is listed for the training task. *)
Lemma reverse_lookup_agrees_witness :
  exists a' ts cs,
    Assigner.assign_tasks 0 (fun _ => [2; 0; 3; 1])
      (Scenario.defined Scenario.two_halves ["A"; "B"; "C"; "D"] 2) = Ok tt a'
    /\ Assigner.get_tasks_for_collaborator "C" 1 a' = inr ts
    /\ Assigner.get_collaborators_for_task "train" 1 a' = inr cs
    /\ ("C" ∈ cs <-> "train" ∈ ts).
Proof.
  destruct (defined_well_keyed Scenario.two_halves ["A"; "B"; "C"; "D"] 2 eq_refl)
    as (Hwk & Hg & Hc & Hr).
  destruct (reverse_lookup_agrees 0 (fun _ => [2; 0; 3; 1]) [2%Z; 2%Z]
              (Scenario.defined Scenario.two_halves ["A"; "B"; "C"; "D"] 2))
    as (a' & Hrun & Hagree).
  - exact Hwk.
  - rewrite Hc. apply (bool_decide_unpack _). vm_compute. exact I.
  - intros _. rewrite Hc. apply (bool_decide_unpack _). vm_compute. exact I.
  - rewrite Hg, Hc. repeat constructor.
  - repeat constructor; lia.
  - rewrite Hc. reflexivity.
  - destruct (Hagree 1 "C" "train") as (ts & cs & Hts & Hcs & Hiff).
    + rewrite Hr. lia.
    + rewrite Hc. apply (bool_decide_unpack _). vm_compute. exact I.
    + apply (bool_decide_unpack _). vm_compute. exact I.
    + exists a', ts, cs. auto.
Defined.

Section MissingEntry.

Implicit Types (a s : Assigner.t) (d : gmap string (gmap nat (list string))).

Lemma upd2_None d (k : string) (r : nat) (v : list string) (k' : string) :
  Spec.upd2 d k r v !! k' = None <-> d !! k' = None.
Proof. rewrite !eq_None_not_Some. now rewrite upd2_keys. Qed.

Lemma store_collaborator_tasks_wp (col : string) (r : nat) (v : list string) s
    (Q : unit -> Assigner.t -> Prop) (E : exn -> Assigner.t -> Prop) :
  (Assigner.collaborator_tasks s !! col = None -> E KeyError s) ->
  (is_Some (Assigner.collaborator_tasks s !! col) ->
   Q tt (Assigner.set_collaborator_tasks
           (Spec.upd2 (Assigner.collaborator_tasks s) col r v) s)) ->
  wp (Assigner.store_collaborator_tasks col r v) Q E s.
Proof.
  intros HE HQ. unfold wp.
  destruct (Assigner.collaborator_tasks s !! col) as [inner|] eqn:Hcol.
  - rewrite store_collaborator_tasks_run by eauto. apply HQ. eauto.
  - unfold Assigner.store_collaborator_tasks, bind, gets, lift, getitem.
    rewrite Hcol. now apply HE.
Qed.

Lemma store_collaborators_for_task_wp (t : string) (r : nat) (v : list string) s
    (Q : unit -> Assigner.t -> Prop) (E : exn -> Assigner.t -> Prop) :
  E KeyError s ->
  (forall d', Q tt (Assigner.set_collaborators_for_task d' s)) ->
  wp (Assigner.store_collaborators_for_task t r v) Q E s.
Proof.
  intros HE HQ. unfold wp, Assigner.store_collaborators_for_task, bind, gets, lift,
    getitem, modify.
  destruct (Assigner.collaborators_for_task s !! t); [apply HQ | exact HE].
Qed.

Lemma extend_collaborators_for_task_wp (t : string) (r : nat) (v : list string) s
    (Q : unit -> Assigner.t -> Prop) (E : exn -> Assigner.t -> Prop) :
  E KeyError s ->
  (forall d', Q tt (Assigner.set_collaborators_for_task d' s)) ->
  wp (Assigner.extend_collaborators_for_task t r v) Q E s.
Proof.
  intros HE HQ. unfold wp, Assigner.extend_collaborators_for_task, bind, gets, lift,
    getitem, modify.
  destruct (Assigner.collaborators_for_task s !! t) as [inner|]; [|exact HE].
  destruct (inner !! r); [apply HQ | exact HE].
Qed.

(** The groups of a round, when one of the collaborators they select
    has no entry: the loop does not get past it. *)
Lemma assign_groups_raise (r n : nat) (perm : list nat) (cta : list string)
    (c : string) (groups : list Assigner.TaskGroup) (counts : list Z) :
  Forall2 (fun g k => Assigner.num_col_in_group g n = inr k) groups counts ->
  Forall (fun i => i < length cta) perm ->
  forall (idx : Z) s,
    Assigner.collaborators_to_assign s = cta ->
    Assigner.collaborator_tasks s !! c = None ->
    c ∈ concat (Spec.pick cta <$> Spec.selections perm idx counts) ->
    wp (fold_ groups idx (Assigner.assign_group r n perm))
      (fun _ _ => False) (fun e _ => e = KeyError) s.
Proof.
  intros Hcounts Hvalid.
  induction Hcounts as [|g k groups counts Hk Hcounts IH]; intros idx s Hcta Hnone Hin.
  - inversion Hin.
  - cbn [fold_]. apply wp_bind. unfold Assigner.assign_group.
    apply wp_bind, wp_lift. rewrite Hk.
    apply wp_bind, wp_gets, wp_bind, wp_lift. rewrite Hcta.
    assert (Hsl : Forall (fun i => i < length cta) (slice perm idx (idx + k))).
    { apply Forall_forall. intros i Hi. apply slice_subseteq in Hi.
      revert i Hi. now apply Forall_forall. }
    destruct (pick_valid _ _ Hsl) as [-> _].
    set (sel := Spec.pick cta (slice perm idx (idx + k))).
    apply wp_bind, wp_modify.
    set (s1 := Assigner.set_task_group_collaborators _ s).
    assert (Hs1 : Assigner.collaborators_to_assign s1 = cta
                  /\ Assigner.collaborator_tasks s1 !! c = None) by now destruct s.
    clearbody s1. destruct Hs1 as [Hcta1 Hnone1].
    set (Inv := fun s' => Assigner.collaborators_to_assign s' = cta
                          /\ Assigner.collaborator_tasks s' !! c = None).
    apply wp_bind.
    apply (wp_for_ (fun pre s' => Inv s' /\ c ∉ pre)).
    + split; [now split|]. intros Hx. inversion Hx.
    + intros pre col post s2 _ [[Hcta2 Hnone2] Hpre].
      apply store_collaborator_tasks_wp; [reflexivity|]. intros Hkeyed.
      split; [split|].
      * now destruct s2.
      * assert (Heq : Assigner.collaborator_tasks
                        (Assigner.set_collaborator_tasks
                           (Spec.upd2 (Assigner.collaborator_tasks s2) col r
                              (Assigner.tasks g)) s2)
                      = Spec.upd2 (Assigner.collaborator_tasks s2) col r (Assigner.tasks g))
          by now destruct s2.
        rewrite Heq. now apply upd2_None.
      * intros Hc. apply elem_of_app in Hc as [Hc|Hc]; [contradiction|].
        apply list_elem_of_singleton in Hc. subst col.
        rewrite Hnone2 in Hkeyed. now destruct Hkeyed.
    + intros s2 [[Hcta2 Hnone2] Hout]. apply wp_bind.
      apply (wp_for_ (fun _ => Inv)); [now split | |].
      * intros pre t post s3 _ [Hcta3 Hnone3].
        apply extend_collaborators_for_task_wp; [reflexivity|].
        intros d'. unfold Inv. now destruct s3.
      * intros s3 [Hcta3 Hnone3]. apply wp_ret. cbn beta.
        apply IH; [exact Hcta3 | exact Hnone3 |].
        cbn [Spec.selections fmap list_fmap concat] in Hin.
        apply elem_of_app in Hin as [Hin|Hin]; [contradiction | exact Hin].
Qed.

Lemma assign_tasks_raises_for_missing_entry (from : nat) (rng : nat -> list nat)
    (counts : list Z) a (c : string) :
  c ∈ Assigner.collaborators_to_assign a ->
  Assigner.collaborator_tasks a !! c = None ->
  from < Assigner.rounds a ->
  rng from ≡ₚ seq 0 (length (Assigner.collaborators_to_assign a)) ->
  Forall2 (fun g k => Assigner.num_col_in_group g
                        (length (Assigner.collaborators_to_assign a)) = inr k)
    (Assigner.task_groups a) counts ->
  Forall (fun k => (0 <= k)%Z) counts ->
  Spec.Zsum counts = Z.of_nat (length (Assigner.collaborators_to_assign a)) ->
  exists a', Assigner.assign_tasks from rng a = Raise KeyError a'.
Proof.
  intros Hc Hnone Hround Hperm Hcounts Hnonneg Hsum.
  enough (Hwp : wp (Assigner.assign_tasks from rng) (fun _ _ => False)
                  (fun e _ => e = KeyError) a).
  { unfold wp in Hwp. destruct (Assigner.assign_tasks from rng a) as [|e a'];
      [contradiction|]. subst e. now exists a'. }
  set (Inv := fun s => Assigner.task_groups s = Assigner.task_groups a
                       /\ Assigner.collaborators_to_assign s
                          = Assigner.collaborators_to_assign a
                       /\ Assigner.collaborator_tasks s !! c = None).
  unfold Assigner.assign_tasks.
  apply wp_bind, wp_gets, wp_bind, wp_gets, wp_bind.
  apply (wp_for_ (fun _ => Inv)); [unfold Inv; auto | |].
  { intros pre col post s _ HInv. apply wp_bind, wp_gets.
    case_bool_decide; [now apply wp_ret|].
    apply (wp_for_ (fun _ => Inv)); [exact HInv | | auto].
    intros pre' i post' s' _ (Hg & Hcta & Hn).
    apply store_collaborator_tasks_wp; [reflexivity|]. intros _.
    unfold Inv. split; [now destruct s'|]. split; [now destruct s'|].
    assert (Heq : Assigner.collaborator_tasks
                    (Assigner.set_collaborator_tasks
                       (Spec.upd2 (Assigner.collaborator_tasks s') col i []) s')
                  = Spec.upd2 (Assigner.collaborator_tasks s') col i [])
      by now destruct s'.
    rewrite Heq. now apply upd2_None. }
  intros s1 HInv1. apply wp_bind, wp_gets, wp_bind.
  apply (wp_for_ (fun _ => Inv)); [exact HInv1 | |].
  { intros pre t post s _ HInv.
    apply (wp_for_ (fun _ => Inv)); [exact HInv | | auto].
    intros pre' i post' s' _ (Hg & Hcta & Hn).
    apply store_collaborators_for_task_wp; [reflexivity|].
    intros d'. unfold Inv. now destruct s'. }
  intros s2 (Hg2 & Hcta2 & Hnone2). apply wp_bind, wp_gets.
  unfold range. destruct (Assigner.rounds a - from) as [|m] eqn:Hm; [lia|].
  cbn [seq for_]. apply wp_bind. unfold Assigner.assign_round.
  apply wp_bind, wp_gets, wp_bind. rewrite Hg2, Hcta2.
  eapply wp_mono;
    [apply (assign_groups_raise from _ (rng from) (Assigner.collaborators_to_assign a) c
              (Assigner.task_groups a) counts Hcounts)
    | contradiction | auto].
  - now apply permutation_valid.
  - exact Hcta2.
  - exact Hnone2.
  - destruct (group_selections_partition _ (rng from) counts Hperm Hnonneg Hsum)
      as (Hcat & Hp & _).
    unfold Spec.group_selections in Hcat. rewrite Hcat, Hp. exact Hc.
Qed.

(** [assign_tasks] gives no entry to an assignee that has none: when
    the groups divide the assignees, so that every assignee is
    selected, and a round is left to plan, it raises [KeyError] for an
    assignee without an entry in [collaborator_tasks].  So does an
    [end_of_round] that is told of an available collaborator, not a
    straggler, that is not among the authorized ones of the assigner,
    as a collaborator queued for addition is. *)
Theorem assignee_without_entry_raises (rng : nat -> list nat) (counts : list Z) a
    (c : string) (from : nat) :
  Assigner.collaborator_tasks a !! c = None ->
  from < Assigner.rounds a ->
  Forall (fun k => (0 <= k)%Z) counts ->
  (c ∈ Assigner.collaborators_to_assign a ->
   rng from ≡ₚ seq 0 (length (Assigner.collaborators_to_assign a)) ->
   Forall2 (fun g k => Assigner.num_col_in_group g
                         (length (Assigner.collaborators_to_assign a)) = inr k)
     (Assigner.task_groups a) counts ->
   Spec.Zsum counts = Z.of_nat (length (Assigner.collaborators_to_assign a)) ->
   exists a', Assigner.assign_tasks from rng a = Raise KeyError a')
  /\ (forall available stragglers,
        let candidates := filter (fun col => col ∉ stragglers) available in
        c ∈ candidates ->
        c ∉ Assigner.collaborators_to_assign a ->
        rng from ≡ₚ seq 0 (length candidates) ->
        Forall2 (fun g k => Assigner.num_col_in_group g (length candidates) = inr k)
          (Assigner.task_groups a) counts ->
        Spec.Zsum counts = Z.of_nat (length candidates) ->
        exists a', Assigner.end_of_round available stragglers from rng a
                   = Raise KeyError a').
Proof.
  intros Hnone Hround Hnonneg. split.
  - intros Hc Hperm Hcounts Hsum.
    now apply (assign_tasks_raises_for_missing_entry from rng counts a c).
  - intros available stragglers candidates Hc Hnew Hperm Hcounts Hsum.
    rewrite end_of_round_changed.
    2: { intros Hp. apply Hnew. rewrite <- Hp. exact Hc. }
    fold candidates.
    apply (assign_tasks_raises_for_missing_entry from rng counts _ c);
      try (destruct a; simpl in *; assumption).
Qed.

End MissingEntry.

(** Two collaborators in two halves; at the end of round 0 two more,
    ["D"] and ["E"], are reported available with them: planning round 1
    raises. *)
Lemma assignee_without_entry_raises_witness :
  exists a',
    Assigner.end_of_round ["A"; "B"; "D"; "E"] [] 1 (fun _ => [3; 2; 1; 0])
      (state_of (Assigner.init Scenario.two_halves ["A"; "B"] 2 (fun _ => [0; 1])))
    = Raise KeyError a'.
Proof.
  refine (proj2 (assignee_without_entry_raises (fun _ => [3; 2; 1; 0]) [2%Z; 2%Z]
                   (state_of (Assigner.init Scenario.two_halves ["A"; "B"] 2
                                (fun _ => [0; 1]))) "D" 1 _ _ _)
            ["A"; "B"; "D"; "E"] [] _ _ _ _ _).
  - vm_compute. reflexivity.
  - vm_compute. lia.
  - repeat constructor; lia.
  - apply (bool_decide_unpack _). vm_compute. exact I.
  - apply (bool_decide_unpack _). vm_compute. exact I.
  - apply (bool_decide_unpack _). vm_compute. exact I.
  - repeat constructor.
  - vm_compute. reflexivity.
Defined.

(** ** What [get_tasks] replies *)

Section TaskReplies.

Context {A P Store V NT AggT : Type}.
Context `{!AssignerI.Ops A AggT, !PolicyI.Ops P, !TensorI.Ops Store V NT AggT}.
Implicit Types (s : Aggregator.t A P Store V).

Lemma traverse_Forall2 {X Y} (f : X -> exn + Y) (l : list X) (ys : list Y) :
  traverse f l = inr ys -> Forall2 (fun x y => f x = inr y) l ys.
Proof.
  revert ys. induction l as [|x l IH]; intros ys Ht; simpl in Ht.
  - injection Ht as <-. constructor.
  - destruct (f x) as [e|y] eqn:Hx; [discriminate|].
    destruct (traverse f l) as [e|ys']; [discriminate|].
    injection Ht as <-. constructor; [exact Hx | now apply IH].
Qed.

(** The tasks kept by [get_tasks] are assigned ones, and among those
    of the form of the first assigned task none is reported yet. *)
Lemma pending_tasks_spec (c : string) (tasks l : list AssignerI.Task) s :
  Aggregator.pending_tasks c tasks s = inr l ->
  (forall t, t ∈ l -> t ∈ tasks)
  /\ (forall t0 t, head tasks = Some t0 -> t ∈ l ->
        Aggregator.is_str t = Aggregator.is_str t0 ->
        Aggregator._collaborator_task_completed c (Aggregator.task_name_of t)
          (Aggregator.round_number s) s = false).
Proof.
  unfold Aggregator.pending_tasks.
  destruct tasks as [|[n|n fn tt al] rest].
  - simpl. intros [= <-]. split; [intros t Hx; inversion Hx | intros ? ? _ Hx; inversion Hx].
  - cbv beta iota. remember (List.filter _ _) as kept eqn:Hkept.
    intros [= <-]. split.
    + intros t Ht. rewrite Hkept in Ht. apply list_elem_of_In in Ht.
      apply filter_In in Ht as [Ht _]. now apply list_elem_of_In.
    + intros t0 t [= <-] Ht Hstr. rewrite Hkept in Ht. apply list_elem_of_In in Ht.
      apply filter_In in Ht as [_ Hf]. destruct t as [m|]; [|discriminate].
      simpl. now apply negb_true_iff in Hf.
  - destruct (traverse _ _) as [e|marked] eqn:Ht; [discriminate|].
    intros [= <-]. apply traverse_Forall2 in Ht.
    assert (Hsrc : forall t, t ∈ (List.filter (fun p => negb p.2) marked).*1 ->
              t ∈ AssignerI.TaskObj n fn tt al :: rest
              /\ Aggregator.is_str t = false
              /\ Aggregator._collaborator_task_completed c (Aggregator.task_name_of t)
                   (Aggregator.round_number s) s = false).
    { intros t Hin. apply list_elem_of_fmap in Hin as ([t' b] & -> & Hin).
      apply list_elem_of_In in Hin. apply filter_In in Hin as [Hin Hb].
      apply list_elem_of_In in Hin. simpl in Hb. apply negb_true_iff in Hb. subst b.
      apply list_elem_of_lookup in Hin as [i Hi].
      destruct (Forall2_lookup_r _ _ _ _ _ Ht Hi) as (x & Hx & Hfx).
      destruct x as [m|m fm tm am]; [discriminate|].
      injection Hfx as <- Hc. simpl. split; [|split; [reflexivity | now symmetry]].
      eapply list_elem_of_lookup_2, Hx. }
    split.
    + intros t Hin. now apply Hsrc.
    + intros t0 t _ Hin _. now apply Hsrc.
Qed.

(** [get_tasks] always notes the caller as available and leaves the
    round counter alone.  When it returns, the reply carries the current
    round; it is the quit signal exactly when all rounds are done; a
    reply without tasks that is not the quit signal tells the caller to
    sleep ten seconds; and a reply with tasks has at least one, all of
    them assigned to the caller for the round, none of them (in the
    form of the first assigned task) already reported, never goes to a
    straggler, and leaves the straggler policy started and the
    caller's start time recorded. *)
Theorem get_tasks_reply (now : Q) (c : string) s :
  wp (Aggregator.get_tasks now c)
    (fun reply s' =>
       let '(tasks, round, sleep, quit) := reply in
       (round = Aggregator.round_number s
       /\ Aggregator.round_number s' = Aggregator.round_number s
       /\ c ∈ Aggregator.available_collaborators s'
       /\ (quit = true <-> Aggregator.rounds_to_train s <= Aggregator.round_number s)
       /\ match tasks with
          | None => sleep = (if quit then 0 else 10)
          | Some l =>
              quit = false /\ sleep = 0 /\ l <> []
              /\ (c ∉ Aggregator.stragglers s)
              /\ (exists assigned,
                    AssignerI.get_tasks_for_collaborator c (Aggregator.round_number s)
                      (Aggregator.assigner s) = inr assigned
                    /\ (forall t, t ∈ l -> t ∈ assigned)
                    /\ forall t0 t, head assigned = Some t0 -> t ∈ l ->
                         Aggregator.is_str t = Aggregator.is_str t0 ->
                         Aggregator._collaborator_task_completed c
                           (Aggregator.task_name_of t) (Aggregator.round_number s) s
                         = false)
              /\ Aggregator.straggler_handling_policy_started_for_round s' = true
              /\ is_Some (Aggregator.first_col_start s')
              /\ is_Some (Aggregator.collaborator_start_time s' !! c)
          end))
    (fun _ s' =>
       c ∈ Aggregator.available_collaborators s'
       /\ Aggregator.round_number s' = Aggregator.round_number s)
    s.
Proof.
  unfold Aggregator.get_tasks. apply wp_bind, wp_modify.
  set (s0 := if bool_decide (c ∈ Aggregator.available_collaborators s) then s
             else Aggregator.set_available_collaborators
                    (Aggregator.available_collaborators s ++ [c]) s).
  assert (Hs0 : c ∈ Aggregator.available_collaborators s0
                /\ Aggregator.round_number s0 = Aggregator.round_number s
                /\ Aggregator.rounds_to_train s0 = Aggregator.rounds_to_train s
                /\ Aggregator.assigner s0 = Aggregator.assigner s
                /\ Aggregator.stragglers s0 = Aggregator.stragglers s
                /\ Aggregator.collaborator_tasks_results s0
                   = Aggregator.collaborator_tasks_results s).
  { subst s0. case_bool_decide as Hin; [tauto|]. destruct s; simpl.
    split; [|tauto]. apply elem_of_app. right. apply list_elem_of_here. }
  destruct Hs0 as (Hav & Hround & Htrain & Hasg & Hstr & Hres).
  clearbody s0.
  apply wp_bind, wp_gets. unfold Aggregator._time_to_quit. rewrite Hround, Htrain.
  case_bool_decide as Hquit.
  - apply wp_bind, wp_modify, wp_bind, wp_gets, wp_ret.
    destruct s0; simpl in *. repeat split; auto.
  - apply wp_bind, wp_gets, wp_bind. unfold wp at 1, lift. rewrite Hround, Hasg.
    destruct (AssignerI.get_tasks_for_collaborator c (Aggregator.round_number s)
                (Aggregator.assigner s)) as [e|assigned] eqn:Hassigned; [tauto|].
    assert (Hnoquit : false = true <->
              Aggregator.rounds_to_train s <= Aggregator.round_number s)
      by (split; [discriminate | intros; contradiction]).
    case_bool_decide as Hempty.
    { apply wp_ret. repeat split; auto; try discriminate; try contradiction. }
    apply wp_bind. unfold wp at 1, lift.
    destruct (Aggregator.pending_tasks c assigned s0) as [e|pending] eqn:Hpending;
      [tauto|].
    apply pending_tasks_spec in Hpending as [Hsub Hfresh].
    apply wp_bind, wp_gets. rewrite Hstr.
    destruct (bool_decide (c ∈ Aggregator.stragglers s)) eqn:Hlate.
    { cbn zeta iota. rewrite bool_decide_eq_true_2 by reflexivity. apply wp_ret.
      repeat split; auto; try discriminate; try contradiction. }
    apply bool_decide_eq_false in Hlate. cbn zeta iota.
    case_bool_decide as Hnone.
    { apply wp_ret. repeat split; auto; try discriminate; try contradiction. }
    (* tasks are handed out *)
    apply wp_bind, wp_gets, wp_bind.
    set (Started := fun s1 : Aggregator.t A P Store V =>
           c ∈ Aggregator.available_collaborators s1
           /\ Aggregator.round_number s1 = Aggregator.round_number s
           /\ Aggregator.straggler_handling_policy_started_for_round s1 = true).
    assert (Hstart : wp (if Aggregator.straggler_handling_policy_started_for_round s0
                         then ret tt
                         else (modify (Aggregator.set_straggler_handling_policy_started_for_round
                                         true) ;;
                               zoom Aggregator.straggler_handling_policy
                                 Aggregator.set_straggler_handling_policy
                                 (PolicyI.start_policy now)))
                       (fun _ => Started)
                       (fun _ s' => c ∈ Aggregator.available_collaborators s'
                                    /\ Aggregator.round_number s' = Aggregator.round_number s)
                       s0).
    { destruct (Aggregator.straggler_handling_policy_started_for_round s0) eqn:Hflag.
      - apply wp_ret. unfold Started. auto.
      - apply wp_bind, wp_modify, wp_zoom. unfold wp.
        destruct (PolicyI.start_policy now _); unfold Started; destruct s0; simpl in *; auto. }
    eapply wp_mono; [exact Hstart | | auto].
    intros [] s1 (Hav1 & Hround1 & Hflag1). cbn beta.
    apply wp_bind, wp_modify, wp_bind, wp_modify, wp_ret.
    split; [reflexivity|].
    set (s2 := match Aggregator.first_col_start s1 with
               | None => Aggregator.set_first_col_start (Some now) s1
               | Some _ => s1
               end).
    assert (Hs2 : c ∈ Aggregator.available_collaborators s2
                  /\ Aggregator.round_number s2 = Aggregator.round_number s
                  /\ Aggregator.straggler_handling_policy_started_for_round s2 = true
                  /\ is_Some (Aggregator.first_col_start s2)).
    { subst s2. destruct (Aggregator.first_col_start s1) eqn:Hfirst.
      - rewrite Hfirst. eauto.
      - destruct s1; simpl in *. eauto. }
    destruct Hs2 as (Hav2 & Hround2 & Hflag2 & [t0 Hfirst2]). clearbody s2.
    rewrite Hfirst2.
    assert (Hfinal : forall s3,
              s3 = (if bool_decide (is_Some (Aggregator.collaborator_start_time s2 !! c))
                    then s2
                    else Aggregator.set_collaborator_start_time
                           (<[c := (now - t0)%Q]> (Aggregator.collaborator_start_time s2)) s2) ->
              Aggregator.round_number s3 = Aggregator.round_number s
              /\ c ∈ Aggregator.available_collaborators s3
              /\ Aggregator.straggler_handling_policy_started_for_round s3 = true
              /\ is_Some (Aggregator.first_col_start s3)
              /\ is_Some (Aggregator.collaborator_start_time s3 !! c)).
    { intros s3 ->. case_bool_decide as Hknown.
      - rewrite Hfirst2. eauto 6.
      - destruct s2; simpl in *. rewrite lookup_insert_eq. eauto 6. }
    destruct (Hfinal _ eq_refl) as (F1 & F2 & F3 & F4 & F5).
    split; [exact F1|]. split; [exact F2|]. split; [exact Hnoquit|].
    split; [reflexivity|]. split; [reflexivity|].
    split; [intros ->; now apply Hnone|]. split; [exact Hlate|].
    split; [|auto].
    exists assigned. split; [reflexivity|]. split; [exact Hsub|].
    intros t1 t Hhead Hin Hform. specialize (Hfresh t1 t Hhead Hin Hform).
    unfold Aggregator._collaborator_task_completed in *.
    now rewrite Hround, Hres in Hfresh.
Qed.

End TaskReplies.

(** ** Forced stops and admin requests *)

Section StopAndAdmin.

Context {A P Store V NT AggT : Type}.
Context `{!AssignerI.Ops A AggT, !PolicyI.Ops P, !TensorI.Ops Store V NT AggT}.
Implicit Types (s : Aggregator.t A P Store V).

Lemma foldl_quit_job_sent_to (l : list string) s :
  foldl (fun s0 c => Aggregator.set_quit_job_sent_to
                       (Aggregator.quit_job_sent_to s0 ++ [c]) s0) s l
  = Aggregator.set_quit_job_sent_to (Aggregator.quit_job_sent_to s ++ l) s.
Proof.
  revert s. induction l as [|c l IH]; intros s; cbn [foldl].
  - rewrite app_nil_r. now destruct s.
  - rewrite IH. destruct s; simpl. now rewrite <- app_assoc.
Qed.

Lemma stop_run (failed_collaborator : option string) s :
  Aggregator.stop failed_collaborator s
  = Ok tt (Aggregator.set_quit_job_sent_to
             (Aggregator.quit_job_sent_to s
              ++ match failed_collaborator with
                 | Some c => if bool_decide (c = EmptyString) then [] else [c]
                 | None => []
                 end
              ++ filter (fun c => Some c ≠ failed_collaborator)
                   (Aggregator.authorized_cols s)) s).
Proof.
  unfold Aggregator.stop. unfold bind at 1.
  assert (Hfirst :
    (match failed_collaborator with
     | Some c =>
         if bool_decide (c = EmptyString) then ret tt
         else modify (fun s0 => Aggregator.set_quit_job_sent_to
                                  (Aggregator.quit_job_sent_to s0 ++ [c]) s0)
     | None => ret tt
     end) s
    = Ok tt (Aggregator.set_quit_job_sent_to
               (Aggregator.quit_job_sent_to s
                ++ match failed_collaborator with
                   | Some c => if bool_decide (c = EmptyString) then [] else [c]
                   | None => []
                   end) s)).
  { destruct failed_collaborator as [c|]; [case_bool_decide|];
      unfold ret, modify; rewrite ?app_nil_r; now destruct s. }
  rewrite Hfirst. unfold bind, gets.
  set (s1 := Aggregator.set_quit_job_sent_to _ s).
  assert (Hcols : Aggregator.authorized_cols s1 = Aggregator.authorized_cols s)
    by now destruct s.
  rewrite Hcols.
  rewrite (for_modify _ (fun c s0 => Aggregator.set_quit_job_sent_to
                                       (Aggregator.quit_job_sent_to s0 ++ [c]) s0)).
  rewrite foldl_quit_job_sent_to. subst s1. destruct s; simpl. now rewrite <- app_assoc.
Qed.

(** [stop] always returns and changes [quit_job_sent_to] only.  It
    marks as sent to every authorized collaborator other than the
    failed one, and the failed one when its name is not empty.  So the
    condition the server waits for, [all_quit_jobs_sent], holds after a
    [stop] without a failed collaborator, or with an authorized one,
    when no stranger had been sent the quit signal; and it does not
    hold after a [stop] that names a failed collaborator that is not
    authorized. *)
Theorem stop_and_quit_condition (failed_collaborator : option string) s :
  exists s',
    Aggregator.stop failed_collaborator s = Ok tt s'
    /\ Aggregator.authorized_cols s' = Aggregator.authorized_cols s
    /\ Aggregator.round_number s' = Aggregator.round_number s
    /\ (forall c, c ∈ Aggregator.quit_job_sent_to s'
                  <-> c ∈ Aggregator.quit_job_sent_to s
                      \/ (c ∈ Aggregator.authorized_cols s /\ Some c ≠ failed_collaborator)
                      \/ (failed_collaborator = Some c /\ c ≠ EmptyString))
    /\ ((forall c, c ∈ Aggregator.quit_job_sent_to s -> c ∈ Aggregator.authorized_cols s) ->
        (failed_collaborator = None
         \/ exists c, failed_collaborator = Some c /\ c ≠ EmptyString
                      /\ c ∈ Aggregator.authorized_cols s) ->
        Aggregator.all_quit_jobs_sent s' = true)
    /\ (forall c, failed_collaborator = Some c -> c ≠ EmptyString ->
                  c ∉ Aggregator.authorized_cols s ->
                  Aggregator.all_quit_jobs_sent s' = false).
Proof.
  eexists. split; [apply stop_run|].
  set (s' := Aggregator.set_quit_job_sent_to _ s).
  assert (Hcols : Aggregator.authorized_cols s' = Aggregator.authorized_cols s)
    by now destruct s.
  assert (Hquit : forall c, c ∈ Aggregator.quit_job_sent_to s'
            <-> c ∈ Aggregator.quit_job_sent_to s
                \/ (c ∈ Aggregator.authorized_cols s /\ Some c ≠ failed_collaborator)
                \/ (failed_collaborator = Some c /\ c ≠ EmptyString)).
  { intros c.
    assert (Heq : Aggregator.quit_job_sent_to s'
                  = Aggregator.quit_job_sent_to s
                    ++ match failed_collaborator with
                       | Some c => if bool_decide (c = EmptyString) then [] else [c]
                       | None => []
                       end
                    ++ filter (fun c => Some c ≠ failed_collaborator)
                         (Aggregator.authorized_cols s)) by now destruct s.
    rewrite Heq, !elem_of_app, list_elem_of_filter.
    assert (Hfailed : c ∈ match failed_collaborator with
                          | Some c => if bool_decide (c = EmptyString) then [] else [c]
                          | None => []
                          end
                      <-> failed_collaborator = Some c /\ c ≠ EmptyString).
    { destruct failed_collaborator as [f|].
      - case_bool_decide as Hf.
        + split; [intros Hx; inversion Hx | intros [[= ->] ?]; contradiction].
        + rewrite list_elem_of_singleton. split; [intros ->; auto | now intros [[= ->] _]].
      - split; [intros Hx; inversion Hx | intros [? _]; discriminate]. }
    rewrite Hfailed. tauto. }
  split; [exact Hcols|]. split; [now destruct s|]. split; [exact Hquit|]. split.
  - intros Hknown Hfailed. unfold Aggregator.all_quit_jobs_sent.
    apply set_eq_iff. intros c. rewrite Hquit, Hcols. split.
    + intros [Hc|[[Hc _]|[Hc Hne]]]; [now apply Hknown | exact Hc |].
      destruct Hfailed as [->|(c' & -> & _ & Hin)]; [discriminate|].
      now injection Hc as ->.
    + intros Hc. destruct (decide (Some c = failed_collaborator)) as [Heq|Hne]; [|auto].
      right. right. split; [now symmetry|].
      destruct Hfailed as [->|(c' & -> & Hne & _)]; [discriminate|].
      now injection Heq as ->.
  - intros c -> Hne Hout. unfold Aggregator.all_quit_jobs_sent.
    apply not_true_is_false. rewrite set_eq_iff. intros Hall.
    apply Hout. rewrite <- Hcols. apply Hall, Hquit. auto.
Qed.

Lemma queue_contains_iff (label cn : string) (queue : list (string * string)) :
  Aggregator.queue_contains (Aggregator.PTuple label cn) queue = true
  <-> (label, cn) ∈ queue.
Proof.
  unfold Aggregator.queue_contains. rewrite existsb_exists. split.
  - intros ([l c] & Hin & Heq). apply bool_decide_eq_true in Heq. simpl in Heq.
    injection Heq as -> ->. now apply list_elem_of_In.
  - intros Hin. exists (label, cn). split; [now apply list_elem_of_In|].
    now apply bool_decide_eq_true.
Qed.

(** Admin requests keep the queues of pending changes consistent, and
    a request that is refused is refused with [ValueError] and changes
    nothing. *)
Theorem admin_requests_keep_queues_consistent (label cn : string) s :
  Spec.pending_consistent s ->
  Spec.pending_consistent (state_of (Aggregator.add_collaborator label cn s))
  /\ Spec.pending_consistent (state_of (Aggregator.remove_collaborator label cn s))
  /\ (forall e s', Aggregator.add_collaborator label cn s = Raise e s' ->
                   e = ValueError /\ s' = s)
  /\ (forall e s', Aggregator.remove_collaborator label cn s = Raise e s' ->
                   e = ValueError /\ s' = s).
Proof.
  intros (Hna & Hnr & Hdisj & Hadd & Hrem).
  assert (Hadd_cases :
    Aggregator.add_collaborator label cn s = Raise ValueError s
    \/ (((label, cn) ∉ Aggregator.collaborators_to_remove s)
        /\ ((label, cn) ∉ Aggregator.collaborators_to_add s)
        /\ (cn ∉ Aggregator.authorized_cols s)
        /\ Aggregator.add_collaborator label cn s
           = Ok tt (Aggregator.set_collaborators_to_add
                      (Aggregator.collaborators_to_add s ++ [(label, cn)]) s))).
  { destruct (Aggregator.queue_contains (Aggregator.PTuple label cn)
                (Aggregator.collaborators_to_remove s)) eqn:Hr.
    { left. now apply cancel_raises. }
    destruct (Aggregator.queue_contains (Aggregator.PTuple label cn)
                (Aggregator.collaborators_to_add s)) eqn:Ha.
    { left. unfold Aggregator.add_collaborator, bind, gets. now rewrite Hr, Ha. }
    destruct (decide (cn ∈ Aggregator.authorized_cols s)) as [Hin|Hout].
    { left. unfold Aggregator.add_collaborator, bind, gets. rewrite Hr, Ha.
      now rewrite bool_decide_eq_true_2. }
    right. split; [|split; [|split; [exact Hout|]]].
    - rewrite <- queue_contains_iff. congruence.
    - rewrite <- queue_contains_iff. congruence.
    - now apply add_collaborator_queues. }
  assert (Hrem_cases :
    Aggregator.remove_collaborator label cn s = Raise ValueError s
    \/ (((label, cn) ∉ Aggregator.collaborators_to_remove s)
        /\ ((label, cn) ∉ Aggregator.collaborators_to_add s)
        /\ cn ∈ Aggregator.authorized_cols s
        /\ Aggregator.remove_collaborator label cn s
           = Ok tt (Aggregator.set_collaborators_to_remove
                      (Aggregator.collaborators_to_remove s ++ [(label, cn)]) s))).
  { destruct (Aggregator.queue_contains (Aggregator.PTuple label cn)
                (Aggregator.collaborators_to_add s)) eqn:Ha.
    { left. now apply cancel_raises. }
    destruct (Aggregator.queue_contains (Aggregator.PTuple label cn)
                (Aggregator.collaborators_to_remove s)) eqn:Hr.
    { left. unfold Aggregator.remove_collaborator, bind, gets. now rewrite Ha, Hr. }
    destruct (decide (cn ∈ Aggregator.authorized_cols s)) as [Hin|Hout].
    2: { left. unfold Aggregator.remove_collaborator, bind, gets. rewrite Ha, Hr.
         now rewrite bool_decide_eq_false_2. }
    right. split; [|split; [|split; [exact Hin|]]].
    - rewrite <- queue_contains_iff. congruence.
    - rewrite <- queue_contains_iff. congruence.
    - now apply remove_collaborator_queues. }
  assert (Hs : Spec.pending_consistent s) by (repeat split; assumption).
  split; [|split; [|split]].
  - destruct Hadd_cases as [->|(Hr & Ha & Hout & ->)]; [exact Hs|].
    unfold Spec.pending_consistent. destruct s; simpl in *.
    split; [|split; [exact Hnr|split; [|split; [|exact Hrem]]]].
    + apply NoDup_app. split; [exact Hna|]. split; [|apply NoDup_singleton].
      intros p Hp Hp'. apply list_elem_of_singleton in Hp'. now subst p.
    + intros p Hp. apply elem_of_app in Hp as [Hp|Hp]; [now apply Hdisj|].
      apply list_elem_of_singleton in Hp. now subst p.
    + intros p Hp. apply elem_of_app in Hp as [Hp|Hp]; [now apply Hadd|].
      apply list_elem_of_singleton in Hp. now subst p.
  - destruct Hrem_cases as [->|(Hr & Ha & Hin & ->)]; [exact Hs|].
    unfold Spec.pending_consistent. destruct s; simpl in *.
    split; [exact Hna|split; [|split; [|split; [exact Hadd|]]]].
    + apply NoDup_app. split; [exact Hnr|]. split; [|apply NoDup_singleton].
      intros p Hp Hp'. apply list_elem_of_singleton in Hp'. now subst p.
    + intros p Hp Hp'. apply elem_of_app in Hp' as [Hp'|Hp']; [now apply (Hdisj p)|].
      apply list_elem_of_singleton in Hp'. now subst p.
    + intros p Hp. apply elem_of_app in Hp as [Hp|Hp]; [now apply Hrem|].
      apply list_elem_of_singleton in Hp. now subst p.
  - intros e s' Hraise. destruct Hadd_cases as [Hc|(_ & _ & _ & Hc)];
      rewrite Hc in Hraise; [now injection Hraise as <- <- | discriminate].
  - intros e s' Hraise. destruct Hrem_cases as [Hc|(_ & _ & _ & Hc)];
      rewrite Hc in Hraise; [now injection Hraise as <- <- | discriminate].
Qed.

End StopAndAdmin.

(** A federation of ["A"] and ["B"] with nothing queued: the queues
    are consistent after a request to add ["D"]. *)
Lemma admin_requests_keep_queues_consistent_witness :
  Spec.pending_consistent
    (state_of (Aggregator.add_collaborator "L" "D"
                 (Scenario.federation Scenario.one_group ["A"; "B"] 2 Cutoff.Inf))).
Proof.
  apply (admin_requests_keep_queues_consistent "L" "D").
  unfold Spec.pending_consistent.
  change (Aggregator.collaborators_to_add _) with (@nil (string * string)).
  change (Aggregator.collaborators_to_remove _) with (@nil (string * string)).
  repeat split; try apply NoDup_nil_2; intros p Hp; inversion Hp.
Defined.

(** ** What the end of a round leaves *)

Section RoundReset.

Context {A P Store V NT AggT : Type}.
Context `{!AssignerI.Ops A AggT, !PolicyI.Ops P, !TensorI.Ops Store V NT AggT}.
Implicit Types (s : Aggregator.t A P Store V).

Lemma metrics_keep_outside (task_name : string) :
  preserves (Spec.keeps (Spec.outside_tensors (A:=A) (P:=P) (Store:=Store) (V:=V)))
    (Aggregator._compute_validation_related_task_metrics task_name).
Proof.
  unfold Aggregator._compute_validation_related_task_metrics,
    Aggregator.aggregate_tensor_key.
  preserves_all.
Qed.

Lemma remove_each_snoc (cns : list string) (cn : string) (l : list string) :
  Spec.remove_each (cns ++ [cn]) l
  = match Spec.remove_each cns l with
    | inl e => inl e
    | inr l' => list_remove cn l'
    end.
Proof. unfold Spec.remove_each. now rewrite foldl_app. Qed.

(** The loop that authorizes the queued additions. *)
Lemma add_loop_wp (queue : list (string * string)) s
    (Q : unit -> Aggregator.t A P Store V -> Prop) :
  (forall s', Spec.round_start_view s' = Spec.round_start_view s ->
              Aggregator.authorized_cols s' = Aggregator.authorized_cols s ++ queue.*2 ->
              Q tt s') ->
  wp (for_ queue (fun e =>
        modify (fun s0 => Aggregator.set_authorized_cols
                            (Aggregator.authorized_cols s0 ++ [e.2]) s0) ;;
        zoom Aggregator.assigner Aggregator.set_assigner
          (AssignerI.add_collaborator e.1 e.2)))
     Q (fun _ _ => True) s.
Proof.
  intros HQ.
  apply (wp_for_ (fun pre s' =>
           Spec.round_start_view s' = Spec.round_start_view s
           /\ Aggregator.authorized_cols s'
              = Aggregator.authorized_cols s ++ pre.*2)).
  - split; [reflexivity|]. simpl. now rewrite app_nil_r.
  - intros pre e post s' _ [Hview Hauth]. apply wp_bind, wp_modify, wp_zoom.
    unfold wp. destruct (AssignerI.add_collaborator _ _ _) as [[] a'|]; [|exact I].
    rewrite fmap_app, app_assoc, <- Hauth. unfold Spec.round_start_view in *.
    destruct s'; simpl in *. auto.
  - intros s' [Hview Hauth]. now apply HQ.
Qed.

(** The loop that withdraws the queued removals. *)
Lemma remove_loop_wp (queue : list (string * string)) s
    (Q : unit -> Aggregator.t A P Store V -> Prop) :
  (forall s', Spec.round_start_view s' = Spec.round_start_view s ->
              Spec.remove_each queue.*2 (Aggregator.authorized_cols s)
              = inr (Aggregator.authorized_cols s') ->
              Q tt s') ->
  wp (for_ queue (fun e =>
        cols <- gets Aggregator.authorized_cols ;;
        cols' <- lift (list_remove e.2 cols) ;;
        modify (Aggregator.set_authorized_cols cols') ;;
        zoom Aggregator.assigner Aggregator.set_assigner
          (AssignerI.remove_collaborator e.1 e.2)))
     Q (fun _ _ => True) s.
Proof.
  intros HQ.
  apply (wp_for_ (fun pre s' =>
           Spec.round_start_view s' = Spec.round_start_view s
           /\ Spec.remove_each pre.*2 (Aggregator.authorized_cols s)
              = inr (Aggregator.authorized_cols s'))).
  - split; reflexivity.
  - intros pre e post s' _ [Hview Hauth]. apply wp_bind, wp_gets, wp_bind, wp_lift.
    destruct (list_remove e.2 (Aggregator.authorized_cols s')) as [err|cols'] eqn:Hrm;
      [exact I|].
    apply wp_bind, wp_modify, wp_zoom.
    unfold wp. destruct (AssignerI.remove_collaborator _ _ _) as [[] a'|]; [|exact I].
    rewrite fmap_app. simpl. rewrite remove_each_snoc, Hauth, Hrm.
    unfold Spec.round_start_view in *. destruct s'; simpl in *. auto.
  - intros s' [Hview Hauth]. now apply HQ.
Qed.

(** When the end-of-round work of a round runs and returns, the next
    round starts clean: the counter is one higher, the status of the
    round that ended is kept as the previous status, the per-round
    lists, clocks and flags are reset, and both queues of pending
    changes are empty, the additions having been appended to the
    authorized collaborators and the removals then taken out one by
    one.  The assigner was first told of the end of the round with the
    collaborators that asked for tasks, plus the queued additions,
    minus the queued removals. *)
Theorem end_of_round_starts_clean s s' :
  Aggregator._end_of_round_check_done s !! Aggregator.round_number s = Some false ->
  Aggregator._end_of_round_check s = Ok tt s' ->
  Aggregator.round_number s' = Aggregator.round_number s + 1
  /\ Aggregator.previous_round_status s' = Some (Aggregator._get_round_status s)
  /\ Aggregator.stragglers s' = []
  /\ Aggregator.available_collaborators s' = []
  /\ Aggregator.collaborators_done s' = []
  /\ Aggregator.straggler_handling_policy_started_for_round s' = false
  /\ Aggregator.collaborator_start_time s' = ∅
  /\ Aggregator.collaborator_end_time s' = ∅
  /\ Aggregator.first_col_start s' = None
  /\ Aggregator.collaborators_to_add s' = []
  /\ Aggregator.collaborators_to_remove s' = []
  /\ Aggregator.quit_job_sent_to s' = Aggregator.quit_job_sent_to s
  /\ Spec.remove_each (Aggregator.collaborators_to_remove s).*2
       (Aggregator.authorized_cols s ++ (Aggregator.collaborators_to_add s).*2)
     = inr (Aggregator.authorized_cols s')
  /\ exists a1,
       AssignerI.end_of_round
         (Aggregator.remove_present (Aggregator.collaborators_to_remove s)
            (Aggregator.append_missing (Aggregator.collaborators_to_add s)
               (Aggregator.available_collaborators s)))
         (Aggregator.stragglers s) (Aggregator.round_number s + 1)
         (Aggregator.assigner s)
       = Ok tt a1.
Proof.
  intros Hflag Hrun.
  set (Goal := fun s' : Aggregator.t A P Store V =>
    Aggregator.round_number s' = Aggregator.round_number s + 1
    /\ Aggregator.previous_round_status s' = Some (Aggregator._get_round_status s)
    /\ Aggregator.stragglers s' = []
    /\ Aggregator.available_collaborators s' = []
    /\ Aggregator.collaborators_done s' = []
    /\ Aggregator.straggler_handling_policy_started_for_round s' = false
    /\ Aggregator.collaborator_start_time s' = ∅
    /\ Aggregator.collaborator_end_time s' = ∅
    /\ Aggregator.first_col_start s' = None
    /\ Aggregator.collaborators_to_add s' = []
    /\ Aggregator.collaborators_to_remove s' = []
    /\ Aggregator.quit_job_sent_to s' = Aggregator.quit_job_sent_to s
    /\ Spec.remove_each (Aggregator.collaborators_to_remove s).*2
         (Aggregator.authorized_cols s ++ (Aggregator.collaborators_to_add s).*2)
       = inr (Aggregator.authorized_cols s')
    /\ exists a1,
         AssignerI.end_of_round
           (Aggregator.remove_present (Aggregator.collaborators_to_remove s)
              (Aggregator.append_missing (Aggregator.collaborators_to_add s)
                 (Aggregator.available_collaborators s)))
           (Aggregator.stragglers s) (Aggregator.round_number s + 1)
           (Aggregator.assigner s)
         = Ok tt a1).
  enough (Hwp : wp Aggregator._end_of_round_check (fun _ => Goal) (fun _ _ => True) s).
  { unfold wp in Hwp. rewrite Hrun in Hwp. exact Hwp. }
  clear Hrun s'. unfold Aggregator._end_of_round_check.
  apply wp_bind, wp_gets, wp_bind, wp_gets, wp_bind, wp_lift.
  unfold index. rewrite Hflag. cbn iota.
  apply wp_bind, wp_lift_self.
  destruct (AssignerI.get_all_tasks_for_round _ _) as [e|all_tasks]; [exact I|].
  apply wp_bind.
  eapply wp_mono;
    [apply (preserves_wp (Spec.keeps Spec.outside_tensors)),
       preserves_for_; [tc_solve.. | apply metrics_keep_outside]
    | | auto].
  intros [] s1 Hkeep. cbn beta. unfold Spec.keeps, Spec.outside_tensors in Hkeep.
  injection Hkeep as K1 K2 K3 K4 K5 K6 K7 K8 K9 K10 K11 K12 K13 K14 K15 K16 K17 K18 K19 K20.
  do 8 apply wp_bind, wp_modify.
  apply wp_bind. unfold wp at 1, zoom.
  match goal with
  | |- context [AssignerI.end_of_round ?av ?st ?r ?a] =>
      destruct (AssignerI.end_of_round av st r a) as [[] a1|e a1] eqn:Hend
  end; [|exact I].
  do 4 apply wp_bind, wp_modify.
  apply wp_bind. unfold wp at 1, zoom.
  match goal with
  | |- context [TensorI._save_model ?r ?p ?st] =>
      destruct (TensorI._save_model r p st) as [[] st1|e st1]
  end; [|exact I].
  apply wp_bind, wp_zoom. unfold wp at 1.
  match goal with
  | |- context [TensorI.tensor_db_clean_up ?st] =>
      destruct (TensorI.tensor_db_clean_up st) as [[] st2|e st2]
  end; [|exact I].
  apply wp_bind, wp_zoom. unfold wp at 1.
  match goal with
  | |- context [PolicyI.reset_policy_for_round ?p] =>
      destruct (PolicyI.reset_policy_for_round p) as [[] p1|e p1]
  end; [|exact I].
  apply wp_bind. unfold wp at 1, zoom.
  match goal with
  | |- context [TensorI._write_dynamic_task_args ?r ?st] =>
      destruct (TensorI._write_dynamic_task_args r st) as [[] st3|e st3]
  end; [|exact I].
  apply wp_bind, wp_gets, wp_bind.
  apply add_loop_wp. intros s2 Hview2 Hauth2.
  apply wp_bind, wp_modify, wp_bind, wp_gets, wp_bind.
  apply remove_loop_wp. intros s3 Hview3 Hauth3.
  apply wp_modify.
  unfold Spec.round_start_view in Hview2, Hview3.
  destruct s, s1, s2, s3; simpl in *.
  injection Hview3 as V1 V2 V3 V4 V5 V6 V7 V8 V9 V10 V11 V12.
  injection Hview2 as W1 W2 W3 W4 W5 W6 W7 W8 W9 W10 W11 W12.
  subst. unfold Goal, Aggregator._get_round_status. simpl.
  repeat (split; [reflexivity|]). split.
  - rewrite <- Hauth3. reflexivity.
  - eexists. exact Hend.
Qed.

End RoundReset.

(** ** A submission before the round has started *)

Section EarlySubmission.

Context {A P Store V NT AggT : Type}.
Context `{!AssignerI.Ops A AggT, !PolicyI.Ops P, !TensorI.Ops Store V NT AggT}.
Implicit Types (s : Aggregator.t A P Store V).

Lemma receive_named_tensors_keep_outside (c task : string) (r : nat) (nts : list NT) :
  preserves (Spec.keeps (Spec.outside_tensors (A:=A) (P:=P) (Store:=Store) (V:=V)))
    (fold_ nts [] (fun acc named_tensor =>
       tensor_key <- Aggregator.receive_named_tensor c task r named_tensor ;;
       ret (acc ++ [tensor_key]))).
Proof. unfold Aggregator.receive_named_tensor. preserves_all. Qed.

(** [first_col_start] is set by the first [get_tasks] of a round that
    hands out tasks.  A first submission for the current round that
    arrives before that does not return: it raises, with the data size
    already recorded as the weight of the task.  Either a tensor could
    not be processed, and no result is recorded, or the failure is the
    [TypeError] of subtracting [None] from the clock, and the results
    are recorded. *)
Theorem submission_before_round_start_raises (now : Q) (c : string) (r : nat)
    (task : string) (d : Z) (nts : list NT) s :
  Aggregator._time_to_quit s = false ->
  c ∉ Aggregator.stragglers s ->
  Aggregator.round_number s = r ->
  Aggregator.collaborator_tasks_results s !! Types.mkTaskResultKey task c r = None ->
  Aggregator.first_col_start s = None ->
  exists e s',
    Aggregator.send_local_task_results now c r task d nts s = Raise e s'
    /\ Aggregator.collaborator_task_weight s' !! Types.mkTaskResultKey task c r = Some d
    /\ Aggregator.round_number s' = r
    /\ (Aggregator.collaborator_tasks_results s' !! Types.mkTaskResultKey task c r = None
        \/ (e = TypeError
            /\ is_Some (Aggregator.collaborator_tasks_results s'
                          !! Types.mkTaskResultKey task c r))).
Proof.
  intros Hquit Hlate Hround Hnew Hstart.
  set (key := Types.mkTaskResultKey task c r).
  set (Post := fun (e : exn) (s' : Aggregator.t A P Store V) =>
         Aggregator.collaborator_task_weight s' !! key = Some d
         /\ Aggregator.round_number s' = r
         /\ (Aggregator.collaborator_tasks_results s' !! key = None
             \/ (e = TypeError
                 /\ is_Some (Aggregator.collaborator_tasks_results s' !! key)))).
  enough (Hwp : wp (Aggregator.send_local_task_results now c r task d nts)
                  (fun _ _ => False) Post s).
  { unfold wp in Hwp.
    destruct (Aggregator.send_local_task_results now c r task d nts s) as [|e s'];
      [contradiction|].
    exists e, s'. split; [reflexivity | exact Hwp]. }
  unfold Aggregator.send_local_task_results.
  apply wp_bind, wp_gets. rewrite Hquit.
  apply wp_bind, wp_gets. rewrite (bool_decide_eq_false_2 _ Hlate). cbn [orb].
  apply wp_bind, wp_gets. rewrite (bool_decide_eq_true_2 _ Hround). cbn [negb].
  apply wp_bind, wp_gets. unfold Aggregator._collaborator_task_completed.
  change (Types.mkTaskResultKey task c r) with key in Hnew |- *. rewrite Hnew.
  rewrite bool_decide_eq_false_2 by (intros [? ?]; discriminate).
  apply wp_bind, wp_modify.
  set (s1 := Aggregator.set_collaborator_task_weight _ s).
  assert (Hs1 : Aggregator.collaborator_task_weight s1 !! key = Some d
                /\ Aggregator.round_number s1 = r
                /\ Aggregator.collaborator_tasks_results s1 !! key = None
                /\ Aggregator.first_col_start s1 = None).
  { subst s1. destruct s; simpl in *. now rewrite lookup_insert_eq. }
  clearbody s1. destruct Hs1 as (Hw1 & Hr1 & Hres1 & Hst1).
  apply wp_bind.
  eapply wp_mono;
    [apply (preserves_wp (Spec.keeps Spec.outside_tensors)),
       (receive_named_tensors_keep_outside c task r nts) | |].
  2: { intros e s2 Hkeep. unfold Spec.keeps, Spec.outside_tensors in Hkeep.
       injection Hkeep as K1 K2 K3 K4 K5 K6 K7 K8 K9 K10 K11 K12 K13 K14 K15 K16 K17
                             K18 K19 K20.
       unfold Post. rewrite K12, K1, K11. auto. }
  intros keys s2 Hkeep. cbn beta. unfold Spec.keeps, Spec.outside_tensors in Hkeep.
  injection Hkeep as K1 K2 K3 K4 K5 K6 K7 K8 K9 K10 K11 K12 K13 K14 K15 K16 K17 K18 K19 K20.
  apply wp_bind, wp_modify, wp_bind, wp_modify, wp_bind, wp_gets.
  match goal with
  | |- context [Aggregator.first_col_start ?st] =>
      assert (Hst : Aggregator.first_col_start st = None
                    /\ Aggregator.collaborator_task_weight st !! key = Some d
                    /\ Aggregator.round_number st = r
                    /\ Aggregator.collaborator_tasks_results st !! key = Some keys);
      [|destruct Hst as (-> & Hw3 & Hr3 & Hres3)]
  end.
  { case_bool_decide; destruct s2; simpl in *; subst;
      rewrite lookup_insert_eq; auto. }
  apply wp_bind, wp_raise. unfold Post. rewrite Hw3, Hr3, Hres3. eauto 6.
Qed.

End EarlySubmission.

(** A fresh federation of one collaborator: ["A"] submits without
    having asked for tasks. *)
Lemma submission_before_round_start_raises_witness :
  exists e s',
    Aggregator.send_local_task_results 1 "A" 0 "train" 10 []
      (Scenario.federation Scenario.one_group ["A"] 2 Cutoff.Inf) = Raise e s'
    /\ Aggregator.collaborator_task_weight s' !! Types.mkTaskResultKey "train" "A" 0
       = Some 10%Z.
Proof.
  destruct (submission_before_round_start_raises 1 "A" 0 "train" 10 []
              (Scenario.federation Scenario.one_group ["A"] 2 Cutoff.Inf))
    as (e & s' & Hrun & Hw & _);
    [reflexivity | intros Hin; inversion Hin | reflexivity | reflexivity | reflexivity |].
  exists e, s'. split; [exact Hrun | exact Hw].
Defined.

(** Two collaborators in one group, ["A"] done and ["B"] not: the work
    that ends round 0 leaves round 1 without stragglers. *)
Lemma end_of_round_starts_clean_witness :
  Aggregator.round_number
    (state_of (Aggregator._end_of_round_check Scenario.one_reported)) = 1
  /\ Aggregator.stragglers
       (state_of (Aggregator._end_of_round_check Scenario.one_reported)) = [].
Proof.
  destruct (end_of_round_starts_clean Scenario.one_reported
              (state_of (Aggregator._end_of_round_check Scenario.one_reported)))
    as (Hround & _ & Hstragglers & _);
    [vm_compute; reflexivity | vm_compute; reflexivity |].
  split; [exact Hround | exact Hstragglers].
Defined.

(** ** The rounds of a run *)

Section RoundsOfARun.

Context {A P Store V NT AggT : Type}.
Context `{!AssignerI.Ops A AggT, !PolicyI.Ops P, !TensorI.Ops Store V NT AggT}.
Implicit Types (s : Aggregator.t A P Store V).

(** The guards set so far are those of the rounds from [first] up to
    the current one. *)
Lemma advance_guards (n first : nat) s s' :
  Spec.advance s s' ->
  Aggregator.rounds_to_train s = n ->
  first <= Aggregator.round_number s ->
  length (Aggregator._end_of_round_check_done s) = n ->
  (forall i, i < n ->
     Aggregator._end_of_round_check_done s !! i
     = Some (bool_decide (first <= i < Aggregator.round_number s))) ->
  Aggregator.rounds_to_train s' = n
  /\ first <= Aggregator.round_number s'
  /\ Aggregator.round_number s' <= Nat.max n (Aggregator.round_number s)
  /\ length (Aggregator._end_of_round_check_done s') = n
  /\ (forall i, i < n ->
        Aggregator._end_of_round_check_done s' !! i
        = Some (bool_decide (first <= i < Aggregator.round_number s'))).
Proof.
  intros [Htrain [[Hround Hflags]|(Hround & Hunset & Hflags)]] Hn Hfirst Hlen Hguards.
  - rewrite Htrain, Hround, Hflags. repeat split; auto; lia.
  - assert (Hlt : Aggregator.round_number s < n).
    { rewrite <- Hlen. eapply lookup_lt_Some, Hunset. }
    rewrite Htrain, Hround, Hflags, length_insert.
    split; [exact Hn|]. split; [lia|]. split; [lia|]. split; [exact Hlen|].
    intros i Hi. destruct (decide (i = Aggregator.round_number s)) as [->|Hne].
    + rewrite list_lookup_insert_eq by lia. f_equal. symmetry.
      apply bool_decide_eq_true. lia.
    + rewrite list_lookup_insert_ne by congruence. rewrite (Hguards i Hi).
      f_equal. apply bool_decide_ext. lia.
Qed.

(** Along every run of a new aggregator the round counter starts at
    the round of the initial model and never passes the number of
    rounds to train (unless it started beyond it); there is one guard
    per round to train, and the guards that are set are those of the
    rounds that ended in this run.  Once all rounds are done, the
    aggregator is quitting and any further call of the end-of-round
    work raises [IndexError] out of the list of guards, changing
    nothing. *)
Theorem rounds_stay_within_plan (cols : list string)
    (admins : gmap string (list string)) (a : A) (p : P) (n model_round : nat)
    (store0 : Store) (evs : list (Q * Aggregator.event NT)) :
  let s := Aggregator.run evs (Aggregator.init cols admins a p n model_round store0) in
  Aggregator.rounds_to_train s = n
  /\ model_round <= Aggregator.round_number s
  /\ Aggregator.round_number s <= Nat.max n model_round
  /\ length (Aggregator._end_of_round_check_done s) = n
  /\ (forall i, i < n ->
        Aggregator._end_of_round_check_done s !! i
        = Some (bool_decide (model_round <= i < Aggregator.round_number s)))
  /\ (n <= Aggregator.round_number s ->
      Aggregator._time_to_quit s = true
      /\ Aggregator._end_of_round_check s = Raise IndexError s).
Proof.
  intros s.
  assert (Hinv : forall s0,
            Aggregator.rounds_to_train s0 = n ->
            model_round <= Aggregator.round_number s0 ->
            Aggregator.round_number s0 <= Nat.max n model_round ->
            length (Aggregator._end_of_round_check_done s0) = n ->
            (forall i, i < n ->
               Aggregator._end_of_round_check_done s0 !! i
               = Some (bool_decide (model_round <= i < Aggregator.round_number s0))) ->
            Aggregator.rounds_to_train (Aggregator.run evs s0) = n
            /\ model_round <= Aggregator.round_number (Aggregator.run evs s0)
            /\ Aggregator.round_number (Aggregator.run evs s0) <= Nat.max n model_round
            /\ length (Aggregator._end_of_round_check_done (Aggregator.run evs s0)) = n
            /\ (forall i, i < n ->
                  Aggregator._end_of_round_check_done (Aggregator.run evs s0) !! i
                  = Some (bool_decide
                            (model_round <= i
                             < Aggregator.round_number (Aggregator.run evs s0))))).
  { induction evs as [|[now ev] evs IH]; intros s0 I1 I2 I3 I4 I5; [auto|].
    cbn [Aggregator.run].
    destruct (advance_guards n model_round s0 _ (step_advances now ev s0) I1 I2 I4 I5)
      as (G1 & G2 & G3 & G4 & G5).
    apply IH; auto. lia. }
  destruct (Hinv (Aggregator.init cols admins a p n model_round store0))
    as (J1 & J2 & J3 & J4 & J5).
  - reflexivity.
  - simpl. lia.
  - simpl. lia.
  - simpl. apply length_replicate.
  - intros i Hi. simpl. rewrite lookup_replicate_2 by exact Hi. f_equal. symmetry.
    apply bool_decide_eq_false. lia.
  - fold s in J1, J2, J3, J4, J5. repeat (split; [assumption|]).
    intros Hdone. split.
    + unfold Aggregator._time_to_quit. rewrite J1.
      now rewrite bool_decide_eq_true_2.
    + unfold Aggregator._end_of_round_check, bind, gets, lift, index.
      rewrite (lookup_ge_None_2 (Aggregator._end_of_round_check_done s)); [reflexivity|].
      lia.
Qed.

End RoundsOfARun.

(** ** The cutoff-time policy under its calls *)

Section CutoffCalls.

Context {C : Type}.
Implicit Types (p : Cutoff.t C) (v : Cutoff.seconds) (now : Q).

Lemma policy_call_keeps_minimum (call : Spec.policy_call C) p :
  Cutoff.minimum_reporting (Spec.policy_after [call] p) = Cutoff.minimum_reporting p.
Proof.
  destruct p as [rst cut mr tm cb]. destruct call as [now f|now v|]; simpl.
  - unfold Cutoff.start_policy, bind, gets. simpl. now destruct (Cutoff.is_inf cut).
  - unfold Cutoff.set_straggler_cutoff_time, Cutoff.reset_policy_for_round,
      Cutoff._set_cutoff_time, bind, modify, gets, raise, ret. simpl.
    destruct (Cutoff.__straggler_time_expired _ _); simpl.
    + now destruct cb.
    + destruct rst; simpl; [|reflexivity]. now destruct cb.
  - reflexivity.
Qed.

Lemma policy_after_keeps_minimum (calls : list (Spec.policy_call C)) p :
  Cutoff.minimum_reporting (Spec.policy_after calls p) = Cutoff.minimum_reporting p.
Proof.
  revert p. induction calls as [|call calls IH]; intros p; [reflexivity|].
  change (Spec.policy_after (call :: calls) p)
    with (Spec.policy_after calls (Spec.policy_after [call] p)).
  now rewrite IH, policy_call_keeps_minimum.
Qed.

(** The constructor refuses a [minimum_reporting] that is not positive
    with [ValueError]; and whatever is called on a policy it built,
    [straggler_cutoff_check] never answers true for fewer done
    collaborators than that [minimum_reporting], so never for none. *)
Theorem cutoff_needs_minimum_reporting (rst : option Q) v (mr : Z) :
  ((mr <= 0)%Z -> Cutoff.init (C:=C) rst v mr = inl ValueError)
  /\ (forall p, Cutoff.init rst v mr = inr p ->
        (0 < mr)%Z
        /\ forall calls now (done total : nat),
             (Z.of_nat done < mr)%Z ->
             Cutoff.straggler_cutoff_check now done total (Spec.policy_after calls p)
             = false).
Proof.
  unfold Cutoff.init. split.
  - intros Hle. destruct (Z.leb_spec mr 0); [reflexivity | lia].
  - intros p Hinit. destruct (Z.leb_spec mr 0) as [|Hpos]; [discriminate|].
    injection Hinit as <-. split; [exact Hpos|].
    intros calls now done total Hfew.
    unfold Cutoff.straggler_cutoff_check, Cutoff.__minimum_collaborators_reported.
    rewrite policy_after_keeps_minimum. simpl.
    destruct (Cutoff.__straggler_time_expired _ _); [|reflexivity]. simpl.
    destruct (Z.leb_spec mr (Z.of_nat done)); [lia | reflexivity].
Qed.

(** Changing the cutoff in the middle of a round.  Without a recorded
    round start the call raises [TypeError] (the clock minus [None]),
    after the new cutoff has been stored and the timer cancelled.  With
    one, and a saved callback, the call returns: when more than the new
    cutoff has passed since the round start it asks for the callback to
    be run and leaves no timer; otherwise it arms a timer for what is
    left of the new cutoff, so that the deadline stays the round start
    plus the cutoff. *)
Theorem cutoff_change_keeps_the_deadline now v p :
  (Cutoff.round_start_time p = None ->
   exists p',
     Cutoff.set_straggler_cutoff_time now v p = Raise TypeError p'
     /\ Cutoff.straggler_cutoff_time p' = Spec.effective_cutoff v
     /\ Cutoff.timer p' = None)
  /\ (forall t0 cb,
        Cutoff.round_start_time p = Some t0 ->
        Cutoff.callback p = Some cb ->
        (Cutoff.gtb (Cutoff.Finite (now - t0)) (Spec.effective_cutoff v) = true ->
         exists p',
           Cutoff.set_straggler_cutoff_time now v p = Ok (Some cb) p'
           /\ Cutoff.straggler_cutoff_time p' = Spec.effective_cutoff v
           /\ Cutoff.timer p' = None)
        /\ (Cutoff.gtb (Cutoff.Finite (now - t0)) (Spec.effective_cutoff v) = false ->
            exists p',
              Cutoff.set_straggler_cutoff_time now v p = Ok None p'
              /\ Cutoff.straggler_cutoff_time p' = Spec.effective_cutoff v
              /\ Cutoff.round_start_time p' = Some t0
              /\ Cutoff.timer p'
                 = Some (Cutoff.sub (Spec.effective_cutoff v) (now - t0), cb)
              /\ forall c, Spec.effective_cutoff v = Cutoff.Finite c ->
                   (0 <= c - (now - t0))%Q
                   /\ (now + (c - (now - t0)) == t0 + c)%Q)).
Proof.
  destruct p as [rst cut mr tm cb0].
  unfold Cutoff.set_straggler_cutoff_time, Cutoff.reset_policy_for_round,
    Cutoff._set_cutoff_time, Cutoff.__straggler_time_expired, bind, modify, gets,
    raise, ret.
  simpl. rewrite max_effective. split.
  - intros ->. simpl. eexists. split; [reflexivity|]. now split.
  - intros t0 cb -> ->. simpl. split; intros Hexp; rewrite Hexp.
    + eexists. split; [reflexivity|]. now split.
    + simpl. eexists. split; [reflexivity|]. simpl.
      split; [reflexivity|]. split; [reflexivity|]. split; [reflexivity|].
      intros c Hc. rewrite Hc in Hexp. simpl in Hexp. split.
      * destruct (Qlt_le_dec c (now - t0)) as [Hlt|Hle].
        -- apply Qgtb_true in Hlt. congruence.
        -- lra.
      * ring.
Qed.

End CutoffCalls.

(** A policy built with [minimum_reporting=2] and started: one
    report is not enough, long after the cutoff. *)
Lemma cutoff_needs_minimum_reporting_witness :
  exists p,
    Cutoff.init None (Cutoff.Finite 20) 2 = inr p
    /\ Cutoff.straggler_cutoff_check 1000%Q 1 2
         (Spec.policy_after [Spec.StartPolicy 0%Q tt] p) = false.
Proof.
  eexists. split; [reflexivity|].
  refine (proj2 (proj2 (cutoff_needs_minimum_reporting (C:=unit) None (Cutoff.Finite 20) 2)
                   _ eq_refl) [Spec.StartPolicy 0%Q tt] 1000%Q 1 2 _).
  lia.
Defined.

(** A round started at 0 with a cutoff of 30 seconds; at 10 the
    cutoff is lowered to 25: the timer is armed for the 15 seconds
    left. *)
Lemma cutoff_change_keeps_the_deadline_witness :
  exists p',
    Cutoff.set_straggler_cutoff_time 10%Q (Cutoff.Finite 25)
      {| Cutoff.round_start_time := Some 0%Q;
         Cutoff.straggler_cutoff_time := Cutoff.Finite 30;
         Cutoff.minimum_reporting := 1;
         Cutoff.timer := Some (Cutoff.Finite 30, tt);
         Cutoff.callback := Some tt |} = Ok None p'
    /\ Cutoff.timer p' = Some (Cutoff.sub (Spec.effective_cutoff (Cutoff.Finite 25))
                                 (10 - 0), tt).
Proof.
  destruct (proj2 (proj2 (cutoff_change_keeps_the_deadline 10%Q (Cutoff.Finite 25)
                            {| Cutoff.round_start_time := Some 0%Q;
                               Cutoff.straggler_cutoff_time := Cutoff.Finite 30;
                               Cutoff.minimum_reporting := 1;
                               Cutoff.timer := Some (Cutoff.Finite 30, tt);
                               Cutoff.callback := Some tt |})
                     0%Q tt eq_refl eq_refl))
    as (p' & Hrun & _ & _ & Htimer & _); [vm_compute; reflexivity|].
  exists p'. split; [exact Hrun | exact Htimer].
Defined.

(** ** Dynamic task arguments *)

Section DynamicArguments.

Implicit Types (d : DynamicArgs.t) (task arg field : string) (value : Q).

Lemma Qltb_true (a b : Q) : DynamicArgs.Qltb a b = true <-> (a < b)%Q.
Proof.
  unfold DynamicArgs.Qltb. destruct (Qlt_le_dec a b) as [Hlt|Hle]; [tauto|].
  split; [discriminate|]. intros Hlt. exfalso. exact (Qlt_not_le _ _ Hlt Hle).
Qed.

Lemma Qltb_false (a b : Q) : DynamicArgs.Qltb a b = false <-> (b <= a)%Q.
Proof.
  unfold DynamicArgs.Qltb. destruct (Qlt_le_dec a b) as [Hlt|Hle]; [|tauto].
  split; [discriminate|]. intros Hle. exfalso. exact (Qlt_not_le _ _ Hlt Hle).
Qed.

(** What [set_dynamic_task_arg] does, by cases. *)
Lemma set_dynamic_task_arg_cases task arg value d :
  (DynamicArgs.set_dynamic_task_arg task arg value d = Raise KeyError d
   /\ (Spec.arg_number d task arg "min" = None
       \/ exists lo, Spec.arg_number d task arg "min" = Some lo /\ (lo <= value)%Q
                     /\ Spec.arg_number d task arg "max" = None))
  \/ (DynamicArgs.set_dynamic_task_arg task arg value d = Raise ValueError d
      /\ exists lo, Spec.arg_number d task arg "min" = Some lo
                    /\ ((value < lo)%Q
                        \/ exists hi, Spec.arg_number d task arg "max" = Some hi
                                      /\ (hi < value)%Q))
  \/ (exists m args spec lo hi,
        d = Some m /\ m !! task = Some args /\ args !! arg = Some spec
        /\ spec !! "min" = Some lo /\ spec !! "max" = Some hi
        /\ (lo <= value <= hi)%Q
        /\ DynamicArgs.set_dynamic_task_arg task arg value d
           = Ok tt (Some (<[task := <[arg := <["value" := value]> spec]> args]> m))).
Proof.
  unfold DynamicArgs.set_dynamic_task_arg, Spec.arg_number, bind, gets, lift, getitem,
    raise, modify.
  destruct d as [m|]; simpl; [|left; auto].
  destruct (m !! task) as [args|] eqn:Hargs; simpl; [|left; auto].
  destruct (args !! arg) as [spec|] eqn:Hspec; simpl; [|left; auto].
  destruct (spec !! "min") as [lo|] eqn:Hlo; simpl; [|left; auto].
  destruct (DynamicArgs.Qltb value lo) eqn:Hlt.
  { apply Qltb_true in Hlt. right. left. split; [reflexivity|].
    exists lo. split; [reflexivity|]. now left. }
  apply Qltb_false in Hlt.
  destruct (spec !! "max") as [hi|] eqn:Hhi; simpl.
  2: { left. split; [reflexivity|]. right. exists lo. auto. }
  destruct (DynamicArgs.Qltb hi value) eqn:Hgt.
  { apply Qltb_true in Hgt. right. left. split; [reflexivity|].
    exists lo. split; [reflexivity|]. right. exists hi. auto. }
  apply Qltb_false in Hgt. right. right. exists m, args, spec, lo, hi.
  repeat split; auto.
Qed.

Lemma arg_number_after_set (m : gmap string (gmap string (gmap string Q)))
    (args : gmap string (gmap string Q)) (spec : gmap string Q) task arg value
    task' arg' field :
  m !! task = Some args -> args !! arg = Some spec ->
  Spec.arg_number (Some (<[task := <[arg := <["value" := value]> spec]> args]> m))
    task' arg' field
  = if decide (task' = task /\ arg' = arg /\ field = "value") then Some value
    else Spec.arg_number (Some m) task' arg' field.
Proof.
  intros Hargs Hspec. unfold Spec.arg_number. simpl.
  destruct (decide (task' = task)) as [->|Htask].
  - rewrite lookup_insert_eq, Hargs. simpl.
    destruct (decide (arg' = arg)) as [->|Harg].
    + rewrite lookup_insert_eq, Hspec. simpl.
      destruct (decide (field = "value")) as [->|Hfield].
      * rewrite lookup_insert_eq. now rewrite decide_True.
      * rewrite lookup_insert_ne by congruence. rewrite decide_False; tauto.
    + rewrite lookup_insert_ne by congruence. rewrite decide_False; tauto.
  - rewrite lookup_insert_ne by congruence. rewrite decide_False; tauto.
Qed.



End DynamicArguments.


(** ** Keys of dynamic task arguments, and singletons *)

Section DynamicKeys.

(** The key made for a dynamic task argument gives the argument name
    back, and two such keys are the same only for the same task,
    argument, round and aggregator, although the tensor name alone
    does not tell a task [a/b] with argument [c] from a task [a] with
    argument [b/c].  A key with fewer than three tags, such as a model
    key, has no argument name: [IndexError]. *)
Theorem dynamic_task_arg_key_round_trip (task arg : string) (r : nat) (agg : string) :
  Types.arg_name_from_dynamic_task_arg_tensor_key
    (Types.tensorkey_for_dynamic_task_arg task arg r agg) = inr arg
  /\ (forall task' arg' r' agg',
        Types.tensorkey_for_dynamic_task_arg task arg r agg
        = Types.tensorkey_for_dynamic_task_arg task' arg' r' agg' ->
        task = task' /\ arg = arg' /\ r = r' /\ agg = agg')
  /\ Types.tensor_name (Types.tensorkey_for_dynamic_task_arg "a/b" "c" r agg)
     = Types.tensor_name (Types.tensorkey_for_dynamic_task_arg "a" "b/c" r agg)
  /\ (forall tk, length (Types.tags tk) < 3 ->
        Types.arg_name_from_dynamic_task_arg_tensor_key tk = inl IndexError).
Proof.
  split; [reflexivity|]. split; [|split; [reflexivity|]].
  - intros task' arg' r' agg' Heq.
    unfold Types.tensorkey_for_dynamic_task_arg in Heq.
    injection Heq as _ Hagg Hr Htask Harg. auto.
  - intros tk Hlen. unfold Types.arg_name_from_dynamic_task_arg_tensor_key, index.
    rewrite (lookup_ge_None_2 (Types.tags tk) 2); [reflexivity | lia].
Qed.

End DynamicKeys.

Section Singletons.

Context {Cls : Type} `{Countable Cls} {Args Inst : Type}.
Variable construct : Cls -> Args -> exn + Inst.
Implicit Types (m : gmap Cls Inst) (cls : Cls) (args : Args).

Lemma singleton_call_cases cls args m :
  match m !! cls with
  | Some inst => Singleton.__call__ construct cls args m = Ok inst m
  | None =>
      match construct cls args with
      | inr inst => Singleton.__call__ construct cls args m = Ok inst (<[cls := inst]> m)
      | inl e => Singleton.__call__ construct cls args m = Raise e m
      end
  end.
Proof.
  unfold Singleton.__call__, bind, gets, lift, getitem, modify, ret. simpl.
  destruct (m !! cls) as [inst|] eqn:Hm.
  - rewrite bool_decide_eq_true_2 by eauto. now rewrite Hm.
  - rewrite bool_decide_eq_false_2 by (intros [? ?]; discriminate).
    destruct (construct cls args) as [e|inst]; [reflexivity|]. simpl.
    now rewrite lookup_insert_eq.
Qed.

Lemma singleton_call_grows cls args m :
  m ⊆ state_of (Singleton.__call__ construct cls args m).
Proof.
  pose proof (singleton_call_cases cls args m) as Hc.
  destruct (m !! cls) as [inst|] eqn:Hm; [now rewrite Hc|].
  destruct (construct cls args); rewrite Hc; simpl; [reflexivity|].
  now apply insert_subseteq.
Qed.

(** A class with the metaclass [SingletonABCMeta] has at most one
    instance: once a call of the class has returned an instance, every
    later call of it returns that instance, whatever its arguments and
    whatever classes were called in between, without constructing
    anything. *)
Theorem singleton_instance_is_reused cls args (inst : Inst) m m1
    (calls : list (Cls * Args)) args' :
  Singleton.__call__ construct cls args m = Ok inst m1 ->
  let m2 := foldl (fun m call => state_of (Singleton.__call__ construct call.1 call.2 m))
              m1 calls in
  Singleton.__call__ construct cls args' m2 = Ok inst m2.
Proof.
  intros Hfirst m2.
  assert (Hin1 : m1 !! cls = Some inst).
  { pose proof (singleton_call_cases cls args m) as Hc.
    destruct (m !! cls) as [i|] eqn:Hm.
    - rewrite Hc in Hfirst. now injection Hfirst as <- <-.
    - destruct (construct cls args); rewrite Hc in Hfirst; [discriminate|].
      injection Hfirst as <- <-. apply lookup_insert_eq. }
  assert (Hin2 : m2 !! cls = Some inst).
  { subst m2. clear Hfirst. revert m1 Hin1.
    induction calls as [|[c a] calls IH]; intros m1 Hin1; [exact Hin1|].
    cbn [foldl]. apply IH. simpl.
    eapply lookup_weaken; [exact Hin1 | apply singleton_call_grows]. }
  pose proof (singleton_call_cases cls args' m2) as Hc. now rewrite Hin2 in Hc.
Qed.

End Singletons.

(** Two classes that are built from a number: the first call of
    class [1] fixes its instance. *)
Lemma singleton_instance_is_reused_witness :
  Singleton.__call__ (fun (cls : positive) (n : nat) => inr (n + 1)) 1%positive 7
    (foldl (fun m call => state_of (Singleton.__call__
                                      (fun (cls : positive) (n : nat) => inr (n + 1))
                                      call.1 call.2 m))
       {[1%positive := 4]} [(2%positive, 5); (1%positive, 6)])
  = Ok 4
      (foldl (fun m call => state_of (Singleton.__call__
                                        (fun (cls : positive) (n : nat) => inr (n + 1))
                                        call.1 call.2 m))
         {[1%positive := 4]} [(2%positive, 5); (1%positive, 6)]).
Proof.
  apply (singleton_instance_is_reused (fun (cls : positive) (n : nat) => inr (n + 1))
           1%positive 3 4 ∅ {[1%positive := 4]} [(2%positive, 5); (1%positive, 6)] 7).
  vm_compute. reflexivity.
Defined.

(** ** A round end that fails in the assigner *)

Section FailedReplan.

Context {A P Store V NT AggT : Type}.
Context `{!AssignerI.Ops A AggT, !PolicyI.Ops P, !TensorI.Ops Store V NT AggT}.
Implicit Types (s : Aggregator.t A P Store V).

(** The end-of-round work is not undone when the assigner's
    [end_of_round] raises: the exception leaves [_end_of_round_check]
    with the round counter already advanced and the guard of the ended
    round set, while the stragglers, the done collaborators, the
    policy-started flag, the authorized collaborators and the queues of
    pending changes are still those of the round that ended; the
    available collaborators are the ones the assigner was told of. *)
Theorem failed_replan_leaves_round_advanced s s1 (tasks : list string) (e : exn)
    (a1 : A) :
  Aggregator._end_of_round_check_done s !! Aggregator.round_number s = Some false ->
  AssignerI.get_all_tasks_for_round (Aggregator.round_number s) (Aggregator.assigner s)
  = inr tasks ->
  for_ tasks Aggregator._compute_validation_related_task_metrics s = Ok tt s1 ->
  AssignerI.end_of_round
    (Aggregator.remove_present (Aggregator.collaborators_to_remove s)
       (Aggregator.append_missing (Aggregator.collaborators_to_add s)
          (Aggregator.available_collaborators s)))
    (Aggregator.stragglers s) (Aggregator.round_number s + 1) (Aggregator.assigner s)
  = Raise e a1 ->
  exists s',
    Aggregator._end_of_round_check s = Raise e s'
    /\ Aggregator.round_number s' = Aggregator.round_number s + 1
    /\ Aggregator._end_of_round_check_done s' !! Aggregator.round_number s = Some true
    /\ Aggregator.assigner s' = a1
    /\ Aggregator.stragglers s' = Aggregator.stragglers s
    /\ Aggregator.collaborators_done s' = Aggregator.collaborators_done s
    /\ Aggregator.straggler_handling_policy_started_for_round s'
       = Aggregator.straggler_handling_policy_started_for_round s
    /\ Aggregator.authorized_cols s' = Aggregator.authorized_cols s
    /\ Aggregator.collaborators_to_add s' = Aggregator.collaborators_to_add s
    /\ Aggregator.collaborators_to_remove s' = Aggregator.collaborators_to_remove s
    /\ Aggregator.available_collaborators s'
       = Aggregator.remove_present (Aggregator.collaborators_to_remove s)
           (Aggregator.append_missing (Aggregator.collaborators_to_add s)
              (Aggregator.available_collaborators s)).
Proof.
  intros Hflag Htasks Hmetrics Hend.
  set (Post := fun (e' : exn) (s' : Aggregator.t A P Store V) =>
    e' = e
    /\ Aggregator.round_number s' = Aggregator.round_number s + 1
    /\ Aggregator._end_of_round_check_done s' !! Aggregator.round_number s = Some true
    /\ Aggregator.assigner s' = a1
    /\ Aggregator.stragglers s' = Aggregator.stragglers s
    /\ Aggregator.collaborators_done s' = Aggregator.collaborators_done s
    /\ Aggregator.straggler_handling_policy_started_for_round s'
       = Aggregator.straggler_handling_policy_started_for_round s
    /\ Aggregator.authorized_cols s' = Aggregator.authorized_cols s
    /\ Aggregator.collaborators_to_add s' = Aggregator.collaborators_to_add s
    /\ Aggregator.collaborators_to_remove s' = Aggregator.collaborators_to_remove s
    /\ Aggregator.available_collaborators s'
       = Aggregator.remove_present (Aggregator.collaborators_to_remove s)
           (Aggregator.append_missing (Aggregator.collaborators_to_add s)
              (Aggregator.available_collaborators s))).
  enough (Hwp : wp Aggregator._end_of_round_check (fun _ _ => False) Post s).
  { unfold wp in Hwp. destruct (Aggregator._end_of_round_check s) as [|e' s'];
      [contradiction|].
    destruct Hwp as [-> Hrest]. exists s'. split; [reflexivity | exact Hrest]. }
  assert (Hlt : Aggregator.round_number s
                < length (Aggregator._end_of_round_check_done s))
    by (eapply lookup_lt_Some, Hflag).
  pose proof (preserves_for_ (Spec.keeps Spec.outside_tensors) tasks
                Aggregator._compute_validation_related_task_metrics
                metrics_keep_outside s) as Hkeep.
  rewrite Hmetrics in Hkeep. cbn [state_of] in Hkeep.
  unfold Spec.keeps, Spec.outside_tensors in Hkeep.
  injection Hkeep as K1 K2 K3 K4 K5 K6 K7 K8 K9 K10 K11 K12 K13 K14 K15 K16 K17 K18 K19 K20.
  unfold Aggregator._end_of_round_check.
  apply wp_bind, wp_gets, wp_bind, wp_gets, wp_bind, wp_lift.
  unfold index. rewrite Hflag. cbn iota.
  apply wp_bind, wp_lift_self. rewrite Htasks.
  apply wp_bind. unfold wp at 1. rewrite Hmetrics.
  do 8 apply wp_bind, wp_modify.
  apply wp_bind. unfold wp at 1, zoom.
  destruct s, s1; simpl in *. subst. rewrite Nat.add_1_r in Hend |- *.
  rewrite Hend. unfold Post. simpl.
  split; [reflexivity|]. split; [lia|].
  split; [apply list_lookup_insert_eq; exact Hlt|].
  repeat (split; [reflexivity|]). reflexivity.
Qed.

End FailedReplan.

(** Two collaborators in one group over two rounds: ["A"] has fetched
    its task and submitted, and an admin has asked for ["D"] to be
    added.  The round end tells the assigner that ["A"] and ["D"] are
    available; the assigner plans round 1 for the two and finds no
    entry for ["D"]. *)
Lemma failed_replan_leaves_round_advanced_witness :
  exists s',
    Aggregator._end_of_round_check
      (Aggregator.run [(2%Q, Aggregator.AddCollaborator "L" "D")] Scenario.one_reported)
    = Raise KeyError s'
    /\ Aggregator.round_number s' = 1
    /\ Aggregator.collaborators_to_add s' = [("L", "D")].
Proof.
  destruct (failed_replan_leaves_round_advanced
              (Aggregator.run [(2%Q, Aggregator.AddCollaborator "L" "D")]
                 Scenario.one_reported)
              (state_of
                 (for_ ["train"] Aggregator._compute_validation_related_task_metrics
                    (Aggregator.run [(2%Q, Aggregator.AddCollaborator "L" "D")]
                       Scenario.one_reported)))
              ["train"] KeyError
              (state_of
                 (AssignerI.end_of_round ["A"; "D"] [] 1
                    (Aggregator.assigner Scenario.one_reported))))
    as (s' & Hrun & Hround & _ & _ & _ & _ & _ & _ & Hadd & _).
  - vm_compute. reflexivity.
  - vm_compute. reflexivity.
  - vm_compute. reflexivity.
  - vm_compute. reflexivity.
  - exists s'. split; [exact Hrun|]. split; [exact Hround | exact Hadd].
Defined.
